(** * todolist.py: a shallow embedding and the properties of its specification

    The program keeps a list of tasks (description, done flag) in the file
    [todo.json] and offers a command engine over it ([list], [add], [done],
    [rm]) together with a text-box front end that rewrites the whole list.

    The embedding follows the source function by function:
    - Python [str] values are lists of Unicode code points, Python [int]
      values are [Z], a task dictionary [{"desc": ..., "done": ...}] is a
      record, the task list is a [list] indexed the way Python indexes lists
      (negative indices count from the end; out of range [lst[i]] raises
      [IndexError], and [lst.pop(i)] raises [IndexError], or [OverflowError]
      where no machine word holds the index);
    - the effects are threaded through a small state-and-exception monad over
      a [World]: the content of [todo.json] (absent or a text) and the trace of
      what was written to the file and printed on standard output;
    - [json.dump] and [json.load] are the encoder and the decoder of CPython's
      [json] package, written out for the layout [indent=2] that the program
      asks for.

    Modelled are the store ([load_tasks], [save_tasks]), the command engine
    ([list_tasks], [add_task], [complete_task], [remove_task]), the handler
    of the text box ([save_text]) and the front ends: [print_help], the
    session of [run_interactive] over the lines that [input] reads, the
    window of [run_gui] as the sequence of its key releases, and the
    dispatch in [main] over [sys.argv].  Of Tk only what the handlers see is
    kept: the text that the widget returns.  [str.lower], [str.isdigit] and
    [int] are written out on ASCII text and taken from a [Runtime] record
    elsewhere, which also holds the digit limit of [int].

    The interpreter is a 64-bit CPython whose standard output is a UTF-8
    stream: [print] raises [UnicodeEncodeError] on a text that holds a
    surrogate code point, and prints every other text.

    Not followed are: the digit limit where an integer is rendered
    ([str_of_int]) and where the decoder reads one ([int_of_lexeme]), the
    recursion limit of the decoder, memory, operating system failures of
    [open] and of the display, a store that is no UTF-8, and what the
    program does with a file that holds JSON other than a list of tasks as
    it writes them.  The theorems keep clear of these: where an index is
    printed it is bounded or was read by [int], where [load_tasks] fails no
    exception is named, and where it is to succeed the store is one that
    the program wrote. *)

From Stdlib Require Import ZArith NArith List String Ascii Lia Bool.
From stdpp Require Import base tactics option list.

Set Default Proof Using "Type".
Set Warnings "-register-all".

(** ** Python values *)

Module Py.

(** A [str] is a sequence of code points, each below [0x110000]. *)
Definition str := list N.

(** A literal of the source, written with Rocq's ASCII strings. *)
Definition lit (s : string) : str := N_of_ascii <$> list_ascii_of_string s.

Definition max_codepoint : N := 0x110000.

Definition valid_str (s : str) : Prop := Forall (fun c => (c < max_codepoint)%N) s.

(** The surrogate code points, [U+D800] to [U+DFFF]: a Python [str] may hold
    them, UTF-8 has no encoding for them. *)
Definition is_surrogate (c : N) : bool := ((0xD800 <=? c) && (c <=? 0xDFFF))%N.

Definition no_surrogate (s : str) : bool := forallb (fun c => negb (is_surrogate c)) s.

(** *** [str(int)]: the decimal rendering of an integer

    CPython refuses to render an integer of more digits than its digit
    limit, which cannot be set below 640 (other than to none at all).  The
    rendering here is total: it is the one of CPython for every integer of
    at most 640 digits and for every integer that [int] has read from a
    text. *)

Fixpoint uint_str (u : Decimal.uint) : str :=
  match u with
  | Decimal.Nil => []
  | Decimal.D0 u => 48%N :: uint_str u
  | Decimal.D1 u => 49%N :: uint_str u
  | Decimal.D2 u => 50%N :: uint_str u
  | Decimal.D3 u => 51%N :: uint_str u
  | Decimal.D4 u => 52%N :: uint_str u
  | Decimal.D5 u => 53%N :: uint_str u
  | Decimal.D6 u => 54%N :: uint_str u
  | Decimal.D7 u => 55%N :: uint_str u
  | Decimal.D8 u => 56%N :: uint_str u
  | Decimal.D9 u => 57%N :: uint_str u
  end.

Definition str_of_int (z : Z) : str :=
  if (z <? 0)%Z then 45%N :: uint_str (N.to_uint (Z.to_N (- z)))
  else uint_str (N.to_uint (Z.to_N z)).

(** *** [str.isspace], [str.strip] and [str.splitlines] *)

(** The code points for which CPython's [_PyUnicode_IsWhitespace] holds. *)
Definition isspace (c : N) : bool :=
  ((9 <=? c) && (c <=? 13) || (28 <=? c) && (c <=? 32) || (c =? 0x85)
   || (c =? 0xA0) || (c =? 0x1680) || (0x2000 <=? c) && (c <=? 0x200A)
   || (c =? 0x2028) || (c =? 0x2029) || (c =? 0x202F) || (c =? 0x205F)
   || (c =? 0x3000))%N.

(** The code points for which CPython's [_PyUnicode_IsLinebreak] holds. *)
Definition islinebreak (c : N) : bool :=
  ((10 <=? c) && (c <=? 13) || (28 <=? c) && (c <=? 30) || (c =? 0x85)
   || (c =? 0x2028) || (c =? 0x2029))%N.

Fixpoint lstrip (s : str) : str :=
  match s with
  | c :: r => if isspace c then lstrip r else s
  | [] => []
  end.

Definition rstrip (s : str) : str := rev (lstrip (rev s)).

(** [s.strip()] without argument removes leading and trailing whitespace. *)
Definition strip (s : str) : str := rstrip (lstrip s).

(** [s.splitlines()]: the lines of [s] without their line breaks; [\r\n] is
    one break, and a break at the very end opens no further line.  [cur] is
    the line being read, in reverse. *)
Fixpoint splitlines_from (cur : str) (s : str) : list str :=
  match s with
  | [] => match cur with [] => [] | _ => [rev cur] end
  | c :: r =>
      if islinebreak c then
        match r with
        | d :: r' =>
            if ((c =? 13) && (d =? 10))%N
            then rev cur :: splitlines_from [] r'
            else rev cur :: splitlines_from [] r
        | [] => [rev cur]
        end
      else splitlines_from (c :: cur) r
  end.

Definition splitlines (s : str) : list str := splitlines_from [] s.

(** *** List indexing *)

(** CPython's index normalisation for [lst[i]] and [lst.pop(i)]: a negative
    index counts from the end, and what is still outside [0 .. len-1] is out
    of range. *)
Definition norm_index (len : nat) (i : Z) : option nat :=
  let j := if (i <? 0)%Z then (i + Z.of_nat len)%Z else i in
  if ((j <? 0) || (Z.of_nat len <=? j))%Z then None else Some (Z.to_nat j).

(** The range of C's [Py_ssize_t] on a 64-bit build.  [lst[i]] reports an
    index outside it as out of range; [lst.pop(i)] converts its argument
    first and raises [OverflowError] there. *)
Definition PY_SSIZE_T_MAX : Z := (2 ^ 63 - 1)%Z.
Definition PY_SSIZE_T_MIN : Z := (- 2 ^ 63)%Z.

Definition fits_ssize_t (i : Z) : bool :=
  ((PY_SSIZE_T_MIN <=? i) && (i <=? PY_SSIZE_T_MAX))%Z.

End Py.

Export Py.

(** ** The [json] package *)

Module Json.

(** What the decoder builds.  Integers are Python [int]s; a [float] is kept
    as the literal it was read from (float arithmetic is not modelled, and no
    task holds a number).  A [dict] keeps its keys in insertion order. *)
Inductive pyval : Type :=
| PNone
| PBool (b : bool)
| PInt (z : Z)
| PFloat (literal : str)
| PStr (s : str)
| PList (items : list pyval)
| PDict (pairs : list (str * pyval)).

(** *** The encoder: [json.dump(obj, f, indent=2)]

    [ensure_ascii] is on by default: [encode_basestring_ascii] replaces the
    backslash, the double quote and every code point outside [' ' .. '~']. *)

Definition hexdigit (d : N) : N := if (d <? 10)%N then (48 + d)%N else (87 + d)%N.

(** ['{0:04x}'.format(n)] for [n < 0x10000]. *)
Definition hex4 (n : N) : str :=
  [hexdigit (n / 4096 mod 16); hexdigit (n / 256 mod 16);
   hexdigit (n / 16 mod 16); hexdigit (n mod 16)]%N.

Definition u_escape (n : N) : str := 92%N :: 117%N :: hex4 n.

(** The replacement of one code point: [ESCAPE_DCT] first, then the
    [\uXXXX] form, as a surrogate pair above the basic plane. *)
Definition escape_char (c : N) : str :=
  if (c =? 92)%N then [92; 92]%N
  else if (c =? 34)%N then [92; 34]%N
  else if (c =? 8)%N then [92; 98]%N
  else if (c =? 12)%N then [92; 102]%N
  else if (c =? 10)%N then [92; 110]%N
  else if (c =? 13)%N then [92; 114]%N
  else if (c =? 9)%N then [92; 116]%N
  else if ((32 <=? c) && (c <=? 126))%N then [c]
  else if (c <? 0x10000)%N then u_escape c
  else
    let n := (c - 0x10000)%N in
    u_escape (N.lor 0xd800 (N.land (N.shiftr n 10) 0x3ff))
    ++ u_escape (N.lor 0xdc00 (N.land n 0x3ff)).

Definition escape_body (s : str) : str := flat_map escape_char s.

Definition encode_basestring_ascii (s : str) : str :=
  34%N :: escape_body s ++ [34%N].

(** ['\n' + _indent * level] with [_indent = '  ']. *)
Definition newline_indent (level : nat) : str := 10%N :: repeat 32%N (2 * level).

(** The chunks of a non-empty container: the first item directly, every
    later one after the separator [',' + newline_indent]. *)
Fixpoint join_items (sep : str) (chunks : list str) : str :=
  match chunks with
  | [] => []
  | [c] => c
  | c :: rest => c ++ sep ++ join_items sep rest
  end.

(** [_iterencode_list] at nesting depth [level], given the encoder of the
    items one level deeper. *)
Definition iterencode_list {A} (item : nat -> A -> str) (lst : list A) (level : nat) : str :=
  match lst with
  | [] => lit "[]"
  | _ =>
      lit "[" ++ newline_indent (S level)
      ++ join_items (lit "," ++ newline_indent (S level)) (item (S level) <$> lst)
      ++ newline_indent level ++ lit "]"
  end.

(** [_iterencode_dict] for a dictionary given by its keys and the encoder
    of each value, in insertion order. *)
Definition iterencode_dict (dct : list (str * (nat -> str))) (level : nat) : str :=
  match dct with
  | [] => lit "{}"
  | _ =>
      lit "{" ++ newline_indent (S level)
      ++ join_items (lit "," ++ newline_indent (S level))
           ((fun kv => encode_basestring_ascii kv.1 ++ lit ": " ++ kv.2 (S level)) <$> dct)
      ++ newline_indent level ++ lit "}"
  end.

Definition encode_bool (b : bool) : str := if b then lit "true" else lit "false".

(** *** The decoder: [json.load(f)] *)

(** A decoding step yields a value, raises [JSONDecodeError] with a message,
    or finds its recursion budget exhausted. *)
Inductive pres (A : Type) : Type :=
| POk (a : A)
| PErr (msg : string)
| PFuel.
Arguments POk {A} a.
Arguments PErr {A} msg.
Arguments PFuel {A}.

Definition pbind {A B} (r : pres A) (k : A -> pres B) : pres B :=
  match r with
  | POk a => k a
  | PErr m => PErr m
  | PFuel => PFuel
  end.

#[local] Notation "x <- r ;; k" := (pbind r (fun x => k))
  (at level 100, r at next level, k at level 200, right associativity).

Definition is_ws (c : N) : bool := ((c =? 32) || (c =? 9) || (c =? 10) || (c =? 13))%N.

(** [WHITESPACE.match(s, idx).end()]. *)
Fixpoint skip_ws (s : str) : str :=
  match s with
  | c :: r => if is_ws c then skip_ws r else s
  | [] => []
  end.

Definition hexval (c : N) : option N :=
  if ((48 <=? c) && (c <=? 57))%N then Some (c - 48)%N
  else if ((97 <=? c) && (c <=? 102))%N then Some (c - 87)%N
  else if ((65 <=? c) && (c <=? 70))%N then Some (c - 55)%N
  else None.

(** [_decode_uXXXX]: exactly four hexadecimal digits. *)
Definition decode_uXXXX (h1 h2 h3 h4 : N) : option N :=
  match hexval h1, hexval h2, hexval h3, hexval h4 with
  | Some d1, Some d2, Some d3, Some d4 => Some (((d1 * 16 + d2) * 16 + d3) * 16 + d4)%N
  | _, _, _, _ => None
  end.

(** The [BACKSLASH] table. *)
Definition backslash (e : N) : option N :=
  if (e =? 34)%N then Some 34%N
  else if (e =? 92)%N then Some 92%N
  else if (e =? 47)%N then Some 47%N
  else if (e =? 98)%N then Some 8%N
  else if (e =? 102)%N then Some 12%N
  else if (e =? 110)%N then Some 10%N
  else if (e =? 114)%N then Some 13%N
  else if (e =? 116)%N then Some 9%N
  else None.

Definition is_high (u : N) : bool := ((0xd800 <=? u) && (u <=? 0xdbff))%N.
Definition is_low (u : N) : bool := ((0xdc00 <=? u) && (u <=? 0xdfff))%N.

Definition join_surrogates (u u2 : N) : N :=
  (0x10000 + N.lor (N.shiftl (u - 0xd800) 10) (u2 - 0xdc00))%N.

Definition pcons (c : N) (r : pres (str * str)) : pres (str * str) :=
  sr <- r ;; POk (c :: sr.1, sr.2).

(** [scanstring] in strict mode, from just after the opening quote: the
    decoded string and what follows the closing quote. *)
Fixpoint scanstring (s : str) : pres (str * str) :=
  match s with
  | [] => PErr "Unterminated string starting at"
  | c :: r =>
      if (c =? 34)%N then POk ([], r)
      else if (c =? 92)%N then
        match r with
        | [] => PErr "Unterminated string starting at"
        | e :: r1 =>
            if (e =? 117)%N then
              match r1 with
              | h1 :: h2 :: h3 :: h4 :: r2 =>
                  match decode_uXXXX h1 h2 h3 h4 with
                  | None => PErr "Invalid \uXXXX escape"
                  | Some uni =>
                      if is_high uni then
                        match r2 with
                        | b :: u :: r3 =>
                            if ((b =? 92) && (u =? 117))%N then
                              match r3 with
                              | g1 :: g2 :: g3 :: g4 :: r4 =>
                                  match decode_uXXXX g1 g2 g3 g4 with
                                  | None => PErr "Invalid \uXXXX escape"
                                  | Some uni2 =>
                                      if is_low uni2
                                      then pcons (join_surrogates uni uni2) (scanstring r4)
                                      else pcons uni (scanstring r2)
                                  end
                              | _ => PErr "Invalid \uXXXX escape"
                              end
                            else pcons uni (scanstring r2)
                        | _ => pcons uni (scanstring r2)
                        end
                      else pcons uni (scanstring r2)
                  end
              | _ => PErr "Invalid \uXXXX escape"
              end
            else
              match backslash e with
              | Some ch => pcons ch (scanstring r1)
              | None => PErr "Invalid \escape"
              end
        end
      else if (c <? 32)%N then PErr "Invalid control character at"
      else pcons c (scanstring r)
  end.

(** [str.startswith], giving what follows the prefix. *)
Fixpoint strip_prefix (p s : str) : option str :=
  match p with
  | [] => Some s
  | a :: p' =>
      match s with
      | b :: s' => if (a =? b)%N then strip_prefix p' s' else None
      | [] => None
      end
  end.

Definition is_digit (c : N) : bool := ((48 <=? c) && (c <=? 57))%N.

(** The longest run of digits at the front, and the rest. *)
Fixpoint span_digits (s : str) : str * str :=
  match s with
  | c :: r =>
      if is_digit c then let '(ds, r') := span_digits r in (c :: ds, r')
      else ([], s)
  | [] => ([], [])
  end.

Definition digits_value (ds : str) : Z :=
  fold_left (fun acc d => (acc * 10 + Z.of_N (d - 48))%Z) ds 0%Z.

(** [int(integer)] on the integer part of a number, without the digit limit
    of the interpreter: a longer literal makes [json.load] raise
    [ValueError] where this decoder goes on. *)
Definition int_of_lexeme (l : str) : Z :=
  match l with
  | c :: ds => if (c =? 45)%N then (- digits_value ds)%Z else digits_value l
  | [] => 0%Z
  end.

(** The three groups of [NUMBER_RE]: the integer part (an optional minus sign,
    then either 0 or a digit 1-9 with any further digits), an optional
    fraction (a dot and at least one digit) and an optional exponent (e or E,
    an optional sign and at least one digit).  The digits are the ASCII
    ones, as in the C scanner that CPython uses. *)
Definition match_int (s : str) : option (str * str) :=
  let '(sign, s1) :=
    match s with
    | c :: r => if (c =? 45)%N then ([45%N], r) else ([], s)
    | [] => ([], s)
    end in
  match s1 with
  | d :: r =>
      if (d =? 48)%N then Some (sign ++ [48%N], r)
      else if is_digit d then let '(ds, r') := span_digits r in Some (sign ++ d :: ds, r')
      else None
  | [] => None
  end.

Definition match_frac (s : str) : option (str * str) :=
  match s with
  | c :: r =>
      if (c =? 46)%N then
        let '(ds, r') := span_digits r in
        match ds with [] => None | _ => Some (46%N :: ds, r') end
      else None
  | [] => None
  end.

Definition match_exp (s : str) : option (str * str) :=
  match s with
  | e :: r =>
      if ((e =? 101) || (e =? 69))%N then
        let '(sg, r1) :=
          match r with
          | c :: r' => if ((c =? 45) || (c =? 43))%N then ([c], r') else ([], r)
          | [] => ([], r)
          end in
        let '(ds, r2) := span_digits r1 in
        match ds with [] => None | _ => Some (e :: sg ++ ds, r2) end
      else None
  | [] => None
  end.

Definition match_number (s : str) : option (pyval * str) :=
  match match_int s with
  | None => None
  | Some (integer, s1) =>
      let '(frac, s2) :=
        match match_frac s1 with Some fr => fr | None => ([], s1) end in
      let '(exp, s3) :=
        match match_exp s2 with Some er => er | None => ([], s2) end in
      match frac, exp with
      | [], [] => Some (PInt (int_of_lexeme integer), s3)
      | _, _ => Some (PFloat (integer ++ frac ++ exp), s3)
      end
  end.

(** [dict(pairs)]: a repeated key keeps its first place and takes the last
    value. *)
Fixpoint dict_set (d : list (str * pyval)) (k : str) (v : pyval) : list (str * pyval) :=
  match d with
  | [] => [(k, v)]
  | (k', v') :: d' =>
      if decide (k = k') then (k', v) :: d' else (k', v') :: dict_set d' k v
  end.

Definition dict_of_pairs (pairs : list (str * pyval)) : list (str * pyval) :=
  fold_left (fun d kv => dict_set d kv.1 kv.2) pairs [].

(** The loop of [JSONArray], entered in front of an item: the items up to the
    closing bracket and what follows it.  [scan] is [scan_once]. *)
Fixpoint array_loop (scan : str -> pres (pyval * str)) (n : nat) (s : str)
  : pres (list pyval * str) :=
  match n with
  | 0 => PFuel
  | S n' =>
      vr <- scan s ;;
      match skip_ws vr.2 with
      | c :: s1 =>
          if (c =? 93)%N then POk ([vr.1], s1)
          else if (c =? 44)%N then
            ir <- array_loop scan n' (skip_ws s1) ;; POk (vr.1 :: ir.1, ir.2)
          else PErr "Expecting ',' delimiter"
      | [] => PErr "Expecting ',' delimiter"
      end
  end.

(** [JSONArray], from just after the opening bracket. *)
Definition JSONArray (scan : str -> pres (pyval * str)) (n : nat) (s : str)
  : pres (pyval * str) :=
  match skip_ws s with
  | c :: r =>
      if (c =? 93)%N then POk (PList [], r)
      else ir <- array_loop scan n (skip_ws s) ;; POk (PList ir.1, ir.2)
  | [] => ir <- array_loop scan n [] ;; POk (PList ir.1, ir.2)
  end.

(** The loop of [JSONObject], entered just after the opening quote of a
    key: the pairs up to the closing brace and what follows it. *)
Fixpoint object_loop (scan : str -> pres (pyval * str)) (n : nat) (s : str)
  : pres (list (str * pyval) * str) :=
  match n with
  | 0 => PFuel
  | S n' =>
      kr <- scanstring s ;;
      match skip_ws kr.2 with
      | c :: s1 =>
          if (c =? 58)%N then
            vr <- scan (skip_ws s1) ;;
            match skip_ws vr.2 with
            | d :: s2 =>
                if (d =? 125)%N then POk ([(kr.1, vr.1)], s2)
                else if (d =? 44)%N then
                  match skip_ws s2 with
                  | q :: s3 =>
                      if (q =? 34)%N then
                        pr <- object_loop scan n' s3 ;;
                        POk ((kr.1, vr.1) :: pr.1, pr.2)
                      else PErr "Expecting property name enclosed in double quotes"
                  | [] => PErr "Expecting property name enclosed in double quotes"
                  end
                else PErr "Expecting ',' delimiter"
            | [] => PErr "Expecting ',' delimiter"
            end
          else PErr "Expecting ':' delimiter"
      | [] => PErr "Expecting ':' delimiter"
      end
  end.

(** [JSONObject], from just after the opening brace. *)
Definition JSONObject (scan : str -> pres (pyval * str)) (n : nat) (s : str)
  : pres (pyval * str) :=
  match skip_ws s with
  | c :: r =>
      if (c =? 125)%N then POk (PDict [], r)
      else if (c =? 34)%N then
        pr <- object_loop scan n r ;; POk (PDict (dict_of_pairs pr.1), pr.2)
      else PErr "Expecting property name enclosed in double quotes"
  | [] => PErr "Expecting property name enclosed in double quotes"
  end.

(** [scan_once]: one value at the front of [s] and what follows it.  Running
    off the end or meeting no value ([StopIteration] in the source) is
    reported by every caller as [Expecting value]. *)
Fixpoint scan_once (fuel : nat) (s : str) : pres (pyval * str) :=
  match fuel with
  | 0 => PFuel
  | S fuel' =>
      match s with
      | [] => PErr "Expecting value"
      | c :: r =>
          if (c =? 34)%N then sr <- scanstring r ;; POk (PStr sr.1, sr.2)
          else if (c =? 123)%N then JSONObject (scan_once fuel') fuel' r
          else if (c =? 91)%N then JSONArray (scan_once fuel') fuel' r
          else
            match strip_prefix (lit "null") s with
            | Some rest => POk (PNone, rest)
            | None =>
            match strip_prefix (lit "true") s with
            | Some rest => POk (PBool true, rest)
            | None =>
            match strip_prefix (lit "false") s with
            | Some rest => POk (PBool false, rest)
            | None =>
            match match_number s with
            | Some vr => POk vr
            | None =>
            match strip_prefix (lit "NaN") s with
            | Some rest => POk (PFloat (lit "NaN"), rest)
            | None =>
            match strip_prefix (lit "Infinity") s with
            | Some rest => POk (PFloat (lit "Infinity"), rest)
            | None =>
            match strip_prefix (lit "-Infinity") s with
            | Some rest => POk (PFloat (lit "-Infinity"), rest)
            | None => PErr "Expecting value"
            end end end end end end end
      end
  end.

(** [JSONDecoder.decode]: one value between optional whitespace, and nothing
    else.  Every value takes at least one character, so a budget above the
    length of the text is never used up ([loads_res] below).  The
    recursion limit of the interpreter, at which [json.load] raises
    [RecursionError] on a deeply nested text, is not followed. *)
Definition decode (s : str) : pres pyval :=
  vr <- scan_once (S (length s)) (skip_ws s) ;;
  match skip_ws vr.2 with
  | [] => POk vr.1
  | _ => PErr "Extra data"
  end.

(** [json.loads] on a [str]. *)
Definition loads (s : str) : pres pyval :=
  match s with
  | c :: _ =>
      if (c =? 0xfeff)%N then PErr "Unexpected UTF-8 BOM (decode using utf-8-sig)"
      else decode s
  | [] => decode s
  end.

End Json.

Export Json.

(** ** The program *)

Module Todo.

(** *** Data model *)

(** A task is the dictionary [{"desc": str, "done": bool}]. *)
Record Task : Type := mkTask { desc : str; done : bool }.

(** [task["done"] = v]. *)
Definition set_done (v : bool) (t : Task) : Task := mkTask (desc t) v.

(** The Python value that a task and a task list are. *)
Definition task_value (t : Task) : pyval :=
  PDict [(lit "desc", PStr (desc t)); (lit "done", PBool (done t))].

Definition tasks_value (ts : list Task) : pyval := PList (task_value <$> ts).

(** *** Effects *)

(** A printed line is the text of an f-string: literal text and [str()]
    conversions are spelled out, a [{x!r}] field is kept as the [repr] of
    its string. *)
Inductive piece : Type :=
| Text (s : str)
| Repr (s : str).

Definition line : Type := list piece.

Inductive exn : Type :=
| IndexError
| FileNotFoundError
| JSONDecodeError (msg : string)
| RecursionError
| OverflowError
| UnicodeEncodeError.

Inductive event : Type :=
| Wrote (content : str)
| Printed (l : line).

(** The file [TODO_FILE] (absent, or its text) and everything written and
    printed so far, oldest first. *)
Record World : Type := mkWorld { file : option str; trace : list event }.

Definition M (A : Type) : Type := World -> (exn + A) * World.

Definition ret {A} (a : A) : M A := fun w => (inr a, w).

Definition bind {A B} (m : M A) (k : A -> M B) : M B :=
  fun w =>
    match m w with
    | (inr a, w') => k a w'
    | (inl e, w') => (inl e, w')
    end.

Definition raise {A} (e : exn) : M A := fun w => (inl e, w).

(** [try: body / except IndexError: handler]. *)
Definition try_except_IndexError {A} (body handler : M A) : M A :=
  fun w =>
    match body w with
    | (inl IndexError, w') => handler w'
    | r => r
    end.

#[local] Notation "x <- m ;; k" := (bind m (fun x => k))
  (at level 100, m at next level, k at level 200, right associativity).
#[local] Notation "m ;;; k" := (bind m (fun _ => k))
  (at level 100, k at level 200, right associativity).

(** Standard output is a UTF-8 stream with the [strict] error handler, as
    Python opens it in a UTF-8 locale: a line can be written unless its text
    holds a surrogate code point.  [repr] escapes surrogates, so a [{x!r}]
    field never stands in the way. *)
Definition encodable (l : line) : bool :=
  forallb (fun p => match p with Text s => no_surrogate s | Repr _ => true end) l.

(** [print(l)]: the line is encoded before anything is written, so a line
    that cannot be encoded raises [UnicodeEncodeError] and prints nothing. *)
Definition print (l : line) : M unit :=
  fun w =>
    if encodable l then (inr tt, mkWorld (file w) (trace w ++ [Printed l]))
    else (inl UnicodeEncodeError, w).

(** [os.path.exists(TODO_FILE)]. *)
Definition path_exists : M bool :=
  fun w => (inr (match file w with Some _ => true | None => false end), w).

(** [open(TODO_FILE, 'r')] and reading it whole. *)
Definition read_file : M str :=
  fun w =>
    match file w with
    | Some content => (inr content, w)
    | None => (inl FileNotFoundError, w)
    end.

(** [open(TODO_FILE, 'w')] and writing [content]: the file is replaced. *)
Definition write_file (content : str) : M unit :=
  fun w => (inr tt, mkWorld (Some content) (trace w ++ [Wrote content])).

(** [json.load] on the text read. *)
Definition json_load (content : str) : M pyval :=
  match loads content with
  | POk v => ret v
  | PErr msg => raise (JSONDecodeError msg)
  | PFuel => raise RecursionError
  end.

(** [json.dumps(tasks, indent=2)] for a list of task dictionaries. *)
Definition encode_task (level : nat) (t : Task) : str :=
  iterencode_dict
    [(lit "desc", fun _ => encode_basestring_ascii (desc t));
     (lit "done", fun _ => encode_bool (done t))] level.

Definition dumps_tasks (tasks : list Task) : str := iterencode_list encode_task tasks 0.

(** [lst[i]]'s position, or [IndexError]. *)
Definition list_index {A} (lst : list A) (i : Z) : M nat :=
  match norm_index (length lst) i with
  | Some n => ret n
  | None => raise IndexError
  end.

(** [lst.pop(i)]: the item taken out and the list without it.  CPython
    converts [i] to a [Py_ssize_t] first and raises [OverflowError] when it
    does not fit, then [IndexError] when it is out of range.  The length of
    a list fits a [Py_ssize_t], so an index that does not fit is out of
    range: the conversion is looked at for those only, which keeps the
    length of the lists free of a bound. *)
Definition list_pop {A} (lst : list A) (i : Z) : M (A * list A) :=
  match norm_index (length lst) i with
  | Some n =>
      match lst !! n with
      | Some x => ret (x, delete n lst)
      | None => raise IndexError
      end
  | None => if fits_ssize_t i then raise IndexError else raise OverflowError
  end.

(** *** Store *)

Definition load_tasks : M pyval :=
  e <- path_exists ;;
  if negb e then ret (PList [])
  else content <- read_file ;; json_load content.

Definition save_tasks (tasks : list Task) : M unit :=
  write_file (dumps_tasks tasks).

(** *** Command engine *)

(** The completion marker is the three code points that the source file
    holds between the quotes. *)
Definition status (t : Task) : str :=
  if done t then [0xE2; 0x153; 0x201C]%N else lit " ".

Definition task_line (i : Z) (t : Task) : line :=
  [Text (str_of_int i ++ lit ". [" ++ status t ++ lit "] " ++ desc t)].

(** [for i, task in enumerate(tasks, i): print(...)]. *)
Fixpoint print_tasks (i : Z) (tasks : list Task) : M unit :=
  match tasks with
  | [] => ret tt
  | task :: rest => print (task_line i task) ;;; print_tasks (i + 1) rest
  end.

Definition list_tasks (tasks : list Task) : M unit :=
  match tasks with
  | [] => print [Text (lit "No tasks yet. Use `add` to create one.")]
  | _ => print_tasks 1 tasks
  end.

(** The functions below take the task list and return it as they leave it:
    the source mutates the one list object in place. *)

Definition add_task (tasks : list Task) (d : str) : M (list Task) :=
  let tasks := tasks ++ [mkTask d false] in
  save_tasks tasks ;;;
  print [Text (lit "Added: "); Repr d] ;;;
  ret tasks.

Definition complete_task (tasks : list Task) (idx : Z) : M (list Task) :=
  try_except_IndexError
    (n <- list_index tasks (idx - 1) ;;
     let tasks := alter (set_done true) n tasks in
     save_tasks tasks ;;;
     print [Text (lit "Completed task #" ++ str_of_int idx)] ;;;
     ret tasks)
    (print [Text (lit "No task with ID #" ++ str_of_int idx)] ;;;
     ret tasks).

Definition remove_task (tasks : list Task) (idx : Z) : M (list Task) :=
  try_except_IndexError
    (popped <- list_pop tasks (idx - 1) ;;
     let '(removed, tasks) := popped in
     save_tasks tasks ;;;
     print [Text (lit "Removed: "); Repr (desc removed)] ;;;
     ret tasks)
    (print [Text (lit "No task with ID #" ++ str_of_int idx)] ;;;
     ret tasks).

(** *** Text-box front end *)

(** [save_text], run on every key release: [content] is the text of the
    widget, [tasks] the list that the slice assignment overwrites. *)
Definition save_text (content : str) (tasks : list Task) : M (list Task) :=
  let lines := splitlines (strip content) in
  let tasks :=
    (fun l => mkTask l false)
      <$> List.filter (fun l => match strip l with [] => false | _ => true end) lines in
  save_tasks tasks ;;;
  ret tasks.

End Todo.

Export Todo.

(** ** The front ends *)

Module FrontEnds.

(** *** More of Python's [str] and [int] *)

(** [s.split()] without argument: the maximal runs of non-whitespace; [cur]
    is the run being read, in reverse. *)
Fixpoint split_from (cur : str) (s : str) : list str :=
  match s with
  | [] => match cur with [] => [] | _ => [rev cur] end
  | c :: r =>
      if isspace c then
        match cur with
        | [] => split_from [] r
        | _ => rev cur :: split_from [] r
        end
      else split_from (c :: cur) r
  end.

Definition split (s : str) : list str := split_from [] s.

(** [sep.join(items)]. *)
Fixpoint str_join (sep : str) (items : list str) : str :=
  match items with
  | [] => []
  | [x] => x
  | x :: rest => x ++ sep ++ str_join sep rest
  end.

Definition all_ascii (s : str) : bool := forallb (fun c => (c <? 128)%N) s.

Definition ascii_lower (c : N) : N :=
  if ((65 <=? c) && (c <=? 90))%N then (c + 32)%N else c.

(** The whitespace of C's [Py_ISSPACE]: tab to carriage return, and space. *)
Definition c_isspace (c : N) : bool := ((9 <=? c) && (c <=? 13) || (c =? 32))%N.

Fixpoint c_lstrip (s : str) : str :=
  match s with
  | c :: r => if c_isspace c then c_lstrip r else s
  | [] => []
  end.

(** The digits of [PyLong_FromString] after the first one: digits, and single
    underscores each followed by a digit.  [acc] is the value and [n] the
    number of digits read so far. *)
Fixpoint int_digits (acc : Z) (n : nat) (s : str) : option (Z * nat * str) :=
  match s with
  | c :: r =>
      if is_digit c then int_digits (acc * 10 + Z.of_N (c - 48)) (S n) r
      else if (c =? 95)%N then
        match r with
        | d :: r' =>
            if is_digit d then int_digits (acc * 10 + Z.of_N (d - 48)) (S n) r'
            else None
        | [] => None
        end
      else Some (acc, n, s)
  | [] => Some (acc, n, [])
  end.

(** CPython counts the digits of a decimal literal against the limit of the
    interpreter only when there are more than this many. *)
Definition max_str_digits_threshold : nat := 640.

(** [int(s)] for an ASCII [s], [None] standing for [ValueError]: optional
    whitespace, an optional sign, the digits, optional whitespace.  [limit] is
    the interpreter's bound on the number of digits, if it has one. *)
Definition int_ascii (limit : option nat) (s : str) : option Z :=
  let s0 := c_lstrip s in
  let '(neg, s1) :=
    match s0 with
    | c :: r =>
        if (c =? 43)%N then (false, r)
        else if (c =? 45)%N then (true, r)
        else (false, s0)
    | [] => (false, s0)
    end in
  match s1 with
  | d :: r =>
      if is_digit d then
        match int_digits (Z.of_N (d - 48)) 1 r with
        | Some (v, n, rest) =>
            match c_lstrip rest with
            | [] =>
                let too_long :=
                  match limit with
                  | Some m => (max_str_digits_threshold <? n)%nat && (m <? n)%nat
                  | None => false
                  end in
                if too_long then None else Some (if neg then (- v)%Z else v)
            | _ => None
            end
        | None => None
        end
      else None
  | [] => None
  end.

(** What the source takes from the interpreter and its Unicode database.  On
    ASCII strings [lower], [isdigit] and [int] are written out below; on the
    others they are whatever the database says. *)
Record Runtime : Type := mkRuntime {
  unicode_lower : str -> str;
  unicode_isdigit : str -> bool;
  unicode_int : str -> option Z;
  int_max_str_digits : option nat
}.

Definition lower (py : Runtime) (s : str) : str :=
  if all_ascii s then ascii_lower <$> s else unicode_lower py s.

Definition isdigit (py : Runtime) (s : str) : bool :=
  if all_ascii s then
    match s with [] => false | _ => forallb is_digit s end
  else unicode_isdigit py s.

Definition int (py : Runtime) (s : str) : option Z :=
  if all_ascii s then int_ascii (int_max_str_digits py) s else unicode_int py s.

(** *** The console *)

(** What happens at the terminal: the events of the command engine, and the
    prompts of [input], which end no line. *)
Inductive cevent : Type :=
| Engine (e : event)
| Prompted (prompt : str).

Inductive cexn : Type :=
| Raised (e : exn)
| EOFError
| ValueError
| OutsideDataModel.

Record Console : Type := mkConsole { cfile : option str; clog : list cevent }.

Definition C (A : Type) : Type := Console -> (cexn + A) * Console.

Definition cret {A} (a : A) : C A := fun c => (inr a, c).

Definition cbind {A B} (m : C A) (k : A -> C B) : C B :=
  fun c =>
    match m c with
    | (inr a, c') => k a c'
    | (inl e, c') => (inl e, c')
    end.

Definition craise {A} (e : cexn) : C A := fun c => (inl e, c).

#[local] Notation "x <- m ;; k" := (cbind m (fun x => k))
  (at level 100, m at next level, k at level 200, right associativity).
#[local] Notation "m ;;; k" := (cbind m (fun _ => k))
  (at level 100, k at level 200, right associativity).

(** A step of the command engine, run at the console: it sees the file and
    adds its events to the log. *)
Definition lift {A} (m : M A) : C A :=
  fun c =>
    let '(r, w) := m (mkWorld (cfile c) []) in
    (match r with inl e => inl (Raised e) | inr a => inr a end,
     mkConsole (file w) (clog c ++ (Engine <$> trace w))).

(** [input(prompt)] with [stdin] the lines still to be read: the prompt is
    written, and the next line is handed on with the lines after it; at the
    end of the input [EOFError] is raised. *)
Definition input {A} (prompt : str) (stdin : list str)
    (k : str -> list str -> C A) : C A :=
  fun c =>
    let c' := mkConsole (cfile c) (clog c ++ [Prompted prompt]) in
    match stdin with
    | [] => (inl EOFError, c')
    | l :: rest => k l rest c'
    end.

(** [int(s)] where the source calls it. *)
Definition to_int (py : Runtime) (s : str) : C Z :=
  match int py s with
  | Some z => cret z
  | None => craise ValueError
  end.

(** *** [print_help] *)

Definition help_text : str :=
  lit "Usage:" ++ [10%N]
  ++ lit "  todo.py list" ++ [10%N]
  ++ lit "      List all tasks." ++ [10%N]
  ++ lit "  todo.py add " ++ [34%N] ++ lit "task description" ++ [34%N; 10%N]
  ++ lit "      Add a new task." ++ [10%N]
  ++ lit "  todo.py done <task_id>" ++ [10%N]
  ++ lit "      Mark task as completed." ++ [10%N]
  ++ lit "  todo.py rm <task_id>" ++ [10%N]
  ++ lit "      Remove a task." ++ [10%N]
  ++ lit "  todo.py help" ++ [10%N]
  ++ lit "      Show this help message." ++ [10%N].

Definition print_help : M unit := print [Text help_text].

(** *** [run_interactive] *)

Definition is_cmd (cmd : str) (names : list str) : bool :=
  existsb (fun n => bool_decide (cmd = n)) names.

(** [if len(choice) > 1 and choice[1].isdigit()]: the argument to use, if
    there is one and it is made of digits. *)
Definition digit_argument (py : Runtime) (args : list str) : option str :=
  match args with
  | a :: _ => if isdigit py a then Some a else None
  | [] => None
  end.

(** One turn of the [while True] loop, [stdin] being the lines that [input]
    will read and [continue] the turns that follow: it is given the list and
    the lines that are left.  [exit] and [quit] end the loop. *)
Definition turn (py : Runtime) (continue : list Task -> list str -> C (list Task))
    (tasks : list Task) (stdin : list str) : C (list Task) :=
  lift (print [Text (10%N :: lit "Commands: list, add, done, rm, help, exit")]) ;;;
  input (lit "Enter command: ") stdin (fun l stdin =>
    match split (strip l) with
    | [] => continue tasks stdin
    | word :: args =>
        let cmd := lower py word in
        if is_cmd cmd [lit "list"] then
          lift (list_tasks tasks) ;;;
          continue tasks stdin
        else if is_cmd cmd [lit "add"] then
          match args with
          | _ :: _ =>
              tasks <- lift (add_task tasks (str_join (lit " ") args)) ;;
              continue tasks stdin
          | [] =>
              input (lit "Task description: ") stdin (fun d stdin =>
                tasks <- lift (add_task tasks (strip d)) ;;
                continue tasks stdin)
          end
        else if is_cmd cmd [lit "done"; lit "complete"] then
          match digit_argument py args with
          | Some a =>
              idx <- to_int py a ;;
              tasks <- lift (complete_task tasks idx) ;;
              continue tasks stdin
          | None =>
              input (lit "Task ID to complete: ") stdin (fun i stdin =>
                if isdigit py (strip i) then
                  idx <- to_int py (strip i) ;;
                  tasks <- lift (complete_task tasks idx) ;;
                  continue tasks stdin
                else
                  lift (print [Text (lit "Please enter a valid number.")]) ;;;
                  continue tasks stdin)
          end
        else if is_cmd cmd [lit "rm"; lit "remove"] then
          match digit_argument py args with
          | Some a =>
              idx <- to_int py a ;;
              tasks <- lift (remove_task tasks idx) ;;
              continue tasks stdin
          | None =>
              input (lit "Task ID to remove: ") stdin (fun i stdin =>
                if isdigit py (strip i) then
                  idx <- to_int py (strip i) ;;
                  tasks <- lift (remove_task tasks idx) ;;
                  continue tasks stdin
                else
                  lift (print [Text (lit "Please enter a valid number.")]) ;;;
                  continue tasks stdin)
          end
        else if is_cmd cmd [lit "help"] then
          lift print_help ;;;
          continue tasks stdin
        else if is_cmd cmd [lit "exit"; lit "quit"] then
          lift (print [Text (lit "Goodbye!")]) ;;;
          cret tasks
        else
          lift (print [Text (lit "Unknown command: " ++ cmd)]) ;;;
          lift print_help ;;;
          continue tasks stdin
    end).

(** The loop: every turn reads at least one line, so the recursion is on the
    lines.  It returns the list as the session leaves it, when the session
    ends with [exit] or [quit]; at the end of the input [input] raises
    [EOFError]. *)
Fixpoint run_interactive (py : Runtime) (tasks : list Task) (stdin : list str)
  : C (list Task) :=
  turn py (run_interactive py) tasks stdin.

(** *** [run_gui] *)

(** [load_text]: what is inserted into the emptied widget, every
    description followed by a line feed. *)
Definition load_text (tasks : list Task) : str :=
  flat_map (fun t => desc t ++ [10%N]) tasks.

(** [text.get("1.0", tk.END)] on a widget into which [inserted] was put and
    that was not edited: the widget is taken to return the text as it was
    inserted, followed by the final line feed that Tk keeps of its own. *)
Definition text_get (inserted : str) : str := inserted ++ [10%N].

(** The main loop of the window: [releases] holds, for every key release
    before the window is closed, the text that the widget returns then.
    [load_text] touches the widget alone. *)
Fixpoint run_gui (tasks : list Task) (releases : list str) : M (list Task) :=
  match releases with
  | [] => ret tasks
  | content :: rest => bind (save_text content tasks) (fun tasks => run_gui tasks rest)
  end.

(** *** [main] *)

(** The list of tasks that a loaded value is, when it is one in the layout
    that the program writes. *)
Definition task_of_value (v : pyval) : option Task :=
  match v with
  | PDict [(k1, PStr d); (k2, PBool b)] =>
      if bool_decide (k1 = lit "desc") && bool_decide (k2 = lit "done")
      then Some (mkTask d b) else None
  | _ => None
  end.

Definition tasks_of_value (v : pyval) : option (list Task) :=
  match v with
  | PList items => mapM task_of_value items
  | _ => None
  end.

(** Where the source uses the loaded value as a list of tasks.  For any other
    value the source fails or goes on in ways that this embedding does not
    follow; such a run ends here with [OutsideDataModel]. *)
Definition as_tasks (v : pyval) : C (list Task) :=
  match tasks_of_value v with
  | Some tasks => cret tasks
  | None => craise OutsideDataModel
  end.

(** [sys.argv[i]], used where the length of [argv] has been checked. *)
Definition argv_at (argv : list str) (i : nat) : str := nth i argv [].

(** [main], given [sys.argv] and, for the window, the key releases. *)
Definition main (py : Runtime) (argv : list str) (releases : list str) : C unit :=
  loaded <- lift load_tasks ;;
  if (length argv =? 1)%nat then
    tasks <- as_tasks loaded ;;
    lift (run_gui tasks releases) ;;;
    cret tt
  else if (length argv <? 2)%nat || is_cmd (argv_at argv 1) [lit "help"] then
    lift print_help
  else
    let cmd := argv_at argv 1 in
    if is_cmd cmd [lit "list"] then
      tasks <- as_tasks loaded ;;
      lift (list_tasks tasks)
    else if is_cmd cmd [lit "add"] && (3 <=? length argv)%nat then
      tasks <- as_tasks loaded ;;
      lift (add_task tasks (str_join (lit " ") (drop 2 argv))) ;;;
      cret tt
    else if is_cmd cmd [lit "done"; lit "complete"] && (length argv =? 3)%nat then
      idx <- to_int py (argv_at argv 2) ;;
      tasks <- as_tasks loaded ;;
      lift (complete_task tasks idx) ;;;
      cret tt
    else if is_cmd cmd [lit "rm"; lit "remove"] && (length argv =? 3)%nat then
      idx <- to_int py (argv_at argv 2) ;;
      tasks <- as_tasks loaded ;;
      lift (remove_task tasks idx) ;;;
      cret tt
    else
      lift (print [Text (lit "Unknown command: "); Repr cmd]) ;;;
      lift print_help.

End FrontEnds.

Export FrontEnds.

(** * Vocabulary of the properties *)

(** ** Well-formed JSON *)

Section grammar.
#[local] Open Scope N_scope.

(** The grammar of RFC 8259, over code points.  With [ext = true] a value
    may also be one of the literals [NaN], [Infinity] and [-Infinity], which
    Python's decoder reads as floats; [ext = false] is the standard alone. *)

(** Insignificant whitespace: space, tab, line feed, carriage return. *)
Definition ws (w : str) : Prop := Forall (fun c => is_ws c = true) w.

Definition is_hex (c : N) : Prop := hexval c <> None.

(** The inside of a string: unescaped code points from [0x20] up, apart from
    the quote and the backslash; the two-character escapes; [\u] and four
    hexadecimal digits. *)
Inductive chars : str -> Prop :=
| chars_nil : chars []
| chars_plain c r : c <> 34 -> c <> 92 -> 32 <= c -> chars r -> chars (c :: r)
| chars_escape e r : backslash e <> None -> chars r -> chars (92 :: e :: r)
| chars_u h1 h2 h3 h4 r :
    is_hex h1 -> is_hex h2 -> is_hex h3 -> is_hex h4 -> chars r ->
    chars (92 :: 117 :: h1 :: h2 :: h3 :: h4 :: r).

Definition digits (ds : str) : Prop := Forall (fun c => is_digit c = true) ds.

Inductive int_part : str -> Prop :=
| int_zero : int_part [48]
| int_nonzero d ds : is_digit d = true -> d <> 48 -> digits ds -> int_part (d :: ds).

Inductive frac_part : str -> Prop :=
| frac_none : frac_part []
| frac_some d ds : digits (d :: ds) -> frac_part (46 :: d :: ds).

Inductive exp_part : str -> Prop :=
| exp_none : exp_part []
| exp_some e sg d ds :
    e = 101 \/ e = 69 -> sg = [] \/ sg = [45] \/ sg = [43] -> digits (d :: ds) ->
    exp_part (e :: sg ++ d :: ds).

Inductive number : str -> Prop :=
| number_intro sg i f e :
    sg = [] \/ sg = [45] -> int_part i -> frac_part f -> exp_part e ->
    number (sg ++ i ++ f ++ e).

(** Values, the elements of an array and the members of an object, with the
    whitespace that may surround them. *)
Inductive value (ext : bool) : str -> Prop :=
| value_null : value ext (lit "null")
| value_true : value ext (lit "true")
| value_false : value ext (lit "false")
| value_number n : number n -> value ext n
| value_string b : chars b -> value ext (34 :: b ++ [34])
| value_array_empty w : ws w -> value ext (91 :: w ++ [93])
| value_array es : elements ext es -> value ext (91 :: es ++ [93])
| value_object_empty w : ws w -> value ext (123 :: w ++ [125])
| value_object ms : members ext ms -> value ext (123 :: ms ++ [125])
| value_NaN : ext = true -> value ext (lit "NaN")
| value_Infinity : ext = true -> value ext (lit "Infinity")
| value_neg_Infinity : ext = true -> value ext (lit "-Infinity")
with elements (ext : bool) : str -> Prop :=
| elements_one w1 v w2 :
    ws w1 -> value ext v -> ws w2 -> elements ext (w1 ++ v ++ w2)
| elements_more w1 v w2 es :
    ws w1 -> value ext v -> ws w2 -> elements ext es ->
    elements ext (w1 ++ v ++ w2 ++ 44 :: es)
with members (ext : bool) : str -> Prop :=
| members_one w1 k w2 w3 v w4 :
    ws w1 -> chars k -> ws w2 -> ws w3 -> value ext v -> ws w4 ->
    members ext (w1 ++ 34 :: k ++ 34 :: w2 ++ 58 :: w3 ++ v ++ w4)
| members_more w1 k w2 w3 v w4 ms :
    ws w1 -> chars k -> ws w2 -> ws w3 -> value ext v -> ws w4 -> members ext ms ->
    members ext (w1 ++ 34 :: k ++ 34 :: w2 ++ 58 :: w3 ++ v ++ w4 ++ 44 :: ms).

(** A JSON text is one value between optional whitespace. *)
Definition json_text (ext : bool) (s : str) : Prop :=
  exists w1 v w2, ws w1 /\ value ext v /\ ws w2 /\ s = w1 ++ v ++ w2.

End grammar.

(** ** Descriptions that survive the file *)

Section descriptions.
#[local] Open Scope N_scope.

(** No high surrogate is directly followed by a low surrogate: written as
    two [\uXXXX] escapes, such a pair is read back as one code point. *)
Fixpoint no_split_pair (s : str) : bool :=
  match s with
  | a :: r => match r with
              | b :: _ => negb (is_high a && is_low b) && no_split_pair r
              | [] => true
              end
  | [] => true
  end.

Definition text_ok (s : str) : Prop := valid_str s /\ no_split_pair s = true.

End descriptions.

(** ** Worlds and lines of the command engine *)

(** The world after a successful command: the file holds the encoding of
    the list, and one write and one line were added to the trace. *)
Definition saved_and_printed (tasks : list Task) (l : line) (w : World) : World :=
  mkWorld (Some (dumps_tasks tasks)) (trace w ++ [Wrote (dumps_tasks tasks)] ++ [Printed l]).

(** The world after a refused command: nothing written, one line printed. *)
Definition only_printed (l : line) (w : World) : World :=
  mkWorld (file w) (trace w ++ [Printed l]).

Definition completed_line (idx : Z) : line := [Text (lit "Completed task #" ++ str_of_int idx)].
Definition removed_line (t : Task) : line := [Text (lit "Removed: "); Repr (desc t)].
Definition no_task_line (idx : Z) : line := [Text (lit "No task with ID #" ++ str_of_int idx)].

Definition placeholder : line := [Text (lit "No tasks yet. Use `add` to create one.")].

(** The lines of a listing that starts counting at [i]. *)
Definition listing (i : Z) (tasks : list Task) : list event :=
  imap (fun k t => Printed (task_line (i + Z.of_nat k) t)) tasks.

(** A sequence of [add] commands, one per description, each run on the list
    that the previous one left. *)
Fixpoint add_all (tasks : list Task) (ds : list str) : M (list Task) :=
  match ds with
  | [] => ret tasks
  | d :: rest => bind (add_task tasks d) (fun tasks => add_all tasks rest)
  end.

(** ** Lines of a text *)

(** A line is blank when [line.strip()] is empty. *)
Definition nonblank (l : str) : bool :=
  match strip l with [] => false | _ => true end.

(** The number of non-blank lines. *)
Definition nonblank_lines (ls : list str) : nat := length (List.filter nonblank ls).

Definition visible (c : N) : bool := negb (isspace c).

(** A text that does not start, respectively end, with whitespace. *)
Definition starts_visible (s : str) : Prop :=
  match s with c :: _ => isspace c = false | [] => True end.

Definition ends_visible (s : str) : Prop :=
  match last s with Some c => isspace c = false | None => True end.

(** ** Devices of the proofs about the decoder *)

Section devices.
#[local] Open Scope N_scope.

(** What [scanstring] does after a [\uXXXX] escape that decoded to [uni]. *)
Definition after_u (uni : N) (r2 : str) : pres (str * str) :=
  if is_high uni then
    match r2 with
    | b :: u :: r3 =>
        if ((b =? 92) && (u =? 117))%N then
          match r3 with
          | g1 :: g2 :: g3 :: g4 :: r4 =>
              match decode_uXXXX g1 g2 g3 g4 with
              | None => PErr "Invalid \uXXXX escape"
              | Some uni2 =>
                  if is_low uni2
                  then pcons (join_surrogates uni uni2) (scanstring r4)
                  else pcons uni (scanstring r2)
              end
          | _ => PErr "Invalid \uXXXX escape"
          end
        else pcons uni (scanstring r2)
    | _ => pcons uni (scanstring r2)
    end
  else pcons uni (scanstring r2).

(** How one code point is written, and how the next one starts. *)
Inductive esc_shape (c : N) : str -> Prop :=
| ES_simple e : e <> 117 -> backslash e = Some c -> esc_shape c [92; e]
| ES_plain : c <> 34 -> c <> 92 -> 32 <= c -> esc_shape c [c]
| ES_u : c < 0x10000 -> esc_shape c (u_escape c)
| ES_pair : 0x10000 <= c < 0x110000 ->
    esc_shape c (u_escape (0xd800 + (c - 0x10000) / 1024)
                 ++ u_escape (0xdc00 + (c - 0x10000) mod 1024)).

Definition item_sep : str := lit "," ++ newline_indent 1.

(** What a run of [scanstring] on [s] may give: on success [s] is a string
    body, the closing quote and the rest; the budget is never the issue. *)
Definition string_res (s : str) (r : pres (str * str)) : Prop :=
  match r with
  | POk (_, rest) => exists b, s = b ++ 34 :: rest /\ chars b
  | PErr _ => True
  | PFuel => False
  end.

(** The same for [scan_once] and for the loops of [JSONArray] and
    [JSONObject]: what was consumed is a value, a list of elements up to the
    closing bracket, a list of members up to the closing brace. *)
Definition value_res (s : str) (r : pres (pyval * str)) : Prop :=
  match r with
  | POk (_, rest) => exists pre, s = pre ++ rest /\ value true pre
  | PErr _ => True
  | PFuel => False
  end.

Definition array_res (s : str) (r : pres (list pyval * str)) : Prop :=
  match r with
  | POk (_, rest) => exists es, s = es ++ 93 :: rest /\ elements true es
  | PErr _ => True
  | PFuel => False
  end.

Definition object_res (s : str) (r : pres (list (str * pyval) * str)) : Prop :=
  match r with
  | POk (_, rest) => exists ms, 34 :: s = ms ++ 125 :: rest /\ members true ms
  | PErr _ => True
  | PFuel => False
  end.

Definition text_res (s : str) (r : pres pyval) : Prop :=
  match r with
  | POk _ => json_text true s
  | PErr _ => True
  | PFuel => False
  end.

(** Without the extension a JSON value starts with one of
    [n t f - 0..9 quote bracket brace]. *)
Definition value_start (c : N) : bool :=
  (c =? 110) || (c =? 116) || (c =? 102) || (c =? 45) || is_digit c
  || (c =? 34) || (c =? 91) || (c =? 123).

End devices.

(** ** The store and the list *)

(** The file is in step with the list: it holds the encoding of the list, or
    neither has changed since [tasks0] and [file0]. *)
Definition in_step (tasks0 : list Task) (file0 : option str)
    (tasks : list Task) (file : option str) : Prop :=
  file = Some (dumps_tasks tasks) \/ (tasks = tasks0 /\ file = file0).

(** ** What the file gives back *)

(** What [json.load] reads where [json.dump] wrote the string [s]: a high
    surrogate directly followed by a low surrogate comes back as the one
    code point that the two encode. *)
Fixpoint read_back (s : str) : str :=
  match s with
  | a :: s' =>
      match s' with
      | b :: r =>
          if is_high a && is_low b then join_surrogates a b :: read_back r
          else a :: read_back s'
      | [] => [a]
      end
  | [] => []
  end.

Definition read_back_task (t : Task) : Task := mkTask (read_back (desc t)) (done t).

(** A character of a text file that every ASCII-compatible encoding writes
    as itself: the line feed, or a printable ASCII character. *)
Definition plain_ascii (c : N) : Prop := c = 10%N \/ (32 <= c <= 126)%N.

(** ** Stores of the program *)

Definition valid_tasks (tasks : list Task) : Prop :=
  Forall (fun t => valid_str (desc t)) tasks.

(** A store as the program leaves it: no file, or the encoding of a list. *)
Definition program_store (f : option str) : Prop :=
  f = None \/ exists saved, valid_tasks saved /\ f = Some (dumps_tasks saved).

(** The list that the program finds in such a store. *)
Definition found_in (f : option str) (tasks : list Task) : Prop :=
  (f = None /\ tasks = [])
  \/ exists saved, valid_tasks saved /\ f = Some (dumps_tasks saved)
                   /\ tasks = read_back_task <$> saved.


(** A command that leaves the store as the program does, whether it
    returns a list or ends with [OverflowError]. *)
Definition keeps_store (m : M (list Task)) : Prop :=
  forall w, program_store (file w) ->
    exists r w',
      m w = (r, w') /\ program_store (file w')
      /\ match r with
         | inr tasks' => valid_tasks tasks'
         | inl e => e = OverflowError
         end.

(** How a run of [main] ends on a store of the program: normally, or with
    [ValueError] from [int], [OverflowError] from [tasks.pop], or
    [UnicodeEncodeError] from [print]. *)
Definition main_result (r : cexn + unit) : Prop :=
  r = inr tt \/ r = inl ValueError \/ r = inl (Raised OverflowError)
  \/ r = inl (Raised UnicodeEncodeError).

(** A run that wrote nothing: the file is the one of before, and lines
    were printed, nothing else. *)
Definition only_lines (c c' : Console) : Prop :=
  cfile c' = cfile c
  /\ exists ls, clog c' = clog c ++ ((fun l => Engine (Printed l)) <$> ls).

(** A run that read nothing from standard input: what it added to the log
    are events of the command engine, no prompt of [input]. *)
Definition engine_only (c c' : Console) : Prop :=
  exists evs, clog c' = clog c ++ (Engine <$> evs).

(** ** Sessions *)

(** An interpreter of which nothing but the ASCII behaviour is fixed, without
    a digit limit: the one of the examples. *)
Definition ascii_only : Runtime :=
  mkRuntime (fun s => s) (fun _ => false) (fun _ => None) None.

Definition goodbye : cevent := Engine (Printed [Text (lit "Goodbye!")]).

(** The texts that a session hands to [int] come from the lines read: [a]
    is a word of a line, or a whole line, stripped. *)
Definition number_read (stdin : list str) (a : str) : Prop :=
  exists l, l ∈ stdin /\ (a ∈ split (strip l) \/ a = strip l).

(** [int] refused a text that [isdigit] had accepted. *)
Definition digits_refused (py : Runtime) (stdin : list str) : Prop :=
  exists a, number_read stdin a /\ isdigit py a = true /\ int py a = None.

(** What a numbered command comes to at the console: a list with which the
    file is in step, or [OverflowError] with the file as it was. *)
Definition command_outcome (tasks : list Task) (idx : Z) (c : Console)
    (r : (cexn + list Task) * Console) : Prop :=
  (exists tasks' c', r = (inr tasks', c') /\ in_step tasks (cfile c) tasks' (cfile c'))
  \/ (exists c', r = (inl (Raised OverflowError), c') /\ cfile c' = cfile c
                 /\ fits_ssize_t (idx - 1) = false).

(** [int] accepted a text that was read, and its value less one does not
    fit a machine word. *)
Definition index_too_far (py : Runtime) (stdin : list str) : Prop :=
  exists a idx, number_read stdin a /\ int py a = Some idx /\ fits_ssize_t (idx - 1) = false.

(** The exceptions that leave a session: [EOFError] from [input] at the end
    of the input, [ValueError] from [int], [OverflowError] from [tasks.pop],
    [UnicodeEncodeError] from [print]. *)
Definition session_exception (py : Runtime) (stdin : list str) (e : cexn) : Prop :=
  e = EOFError
  \/ (e = ValueError /\ digits_refused py stdin)
  \/ (e = Raised OverflowError /\ index_too_far py stdin)
  \/ e = Raised UnicodeEncodeError.

(** What one turn of the loop comes to. *)
Inductive turn_outcome (py : Runtime) (continue : list Task -> list str -> C (list Task))
    (tasks : list Task) (stdin : list str) (c : Console)
  : (cexn + list Task) * Console -> Prop :=
| turn_raises e c' :
    session_exception py stdin e ->
    cfile c' = cfile c ->
    turn_outcome py continue tasks stdin c (inl e, c')
| turn_goes_on tasks' read stdin' c' :
    read <> [] -> stdin = read ++ stdin' ->
    in_step tasks (cfile c) tasks' (cfile c') ->
    turn_outcome py continue tasks stdin c (continue tasks' stdin' c')
| turn_exits c' log :
    cfile c' = cfile c -> clog c' = log ++ [goodbye] ->
    turn_outcome py continue tasks stdin c (inr tasks, c').

(** What a session comes to. *)
Definition session_outcome (py : Runtime) (tasks : list Task) (stdin : list str)
    (c : Console) (r : (cexn + list Task) * Console) : Prop :=
  match r with
  | (inr tasks', c') =>
      in_step tasks (cfile c) tasks' (cfile c') /\ exists log, clog c' = log ++ [goodbye]
  | (inl e, c') => session_exception py stdin e
  end.

(** ** Lines of the text box *)

(** A description that is one line of the text box as it stands: not empty,
    without a line break, and with no whitespace at either end. *)
Definition one_line (d : str) : Prop :=
  d <> [] /\ starts_visible d /\ ends_visible d
  /\ Forall (fun c => islinebreak c = false) d.

(** * Properties *)

(** ** The model at work *)

Example str_of_int_12 : str_of_int 12 = lit "12" /\ str_of_int (-5) = lit "-5".
Proof. split; reflexivity. Qed.

(** The file that [save_tasks] writes for one completed task: the layout of
    [indent=2], with the code point 34 for each double quote. *)
Example dumps_one_task :
  dumps_tasks [mkTask (lit "a") true] =
  (lit "[" ++ [10] ++ lit "  {" ++ [10]
   ++ lit "    " ++ [34] ++ lit "desc" ++ [34] ++ lit ": " ++ [34] ++ lit "a" ++ [34]
   ++ lit "," ++ [10]
   ++ lit "    " ++ [34] ++ lit "done" ++ [34] ++ lit ": true" ++ [10]
   ++ lit "  }" ++ [10] ++ lit "]")%N.
Proof. reflexivity. Qed.

(** A line feed and a code point outside ASCII, as the encoder writes them. *)
Example escape_body_newline_e_acute :
  escape_body [10; 233]%N = ([92] ++ lit "n" ++ [92] ++ lit "u00e9")%N.
Proof. reflexivity. Qed.

(** Texts that the decoder refuses, and one that it takes. *)
Example loads_refuses :
  loads [] = PErr "Expecting value"
  /\ loads (lit "[") = PErr "Expecting value"
  /\ loads (lit "[1,]") = PErr "Expecting value"
  /\ loads (lit "[1 2]") = PErr "Expecting ',' delimiter"
  /\ loads (lit "[] []") = PErr "Extra data"
  /\ loads (lit "{'desc': 1}") = PErr "Expecting property name enclosed in double quotes"
  /\ loads (lit "01") = PErr "Extra data"
  /\ loads (lit "nul") = PErr "Expecting value".
Proof. repeat split; reflexivity. Qed.

Example loads_takes :
  loads (lit " [1, -2.5e3, true, null, [], {}] ")
  = POk (PList [PInt 1; PFloat (lit "-2.5e3"); PBool true; PNone; PList []; PDict []]).
Proof. reflexivity. Qed.

(** The lines of a text, blank ones included. *)
Example splitlines_blank_lines :
  splitlines (lit "a" ++ [13; 10] ++ lit " b " ++ [10; 10] ++ lit "c" ++ [10])%N
  = [lit "a"; lit " b "; []; lit "c"].
Proof. reflexivity. Qed.

(** ** The encoder and the decoder *)

Section json_facts.
#[local] Open Scope N_scope.

(** *** Hexadecimal digits and surrogate pairs *)

Lemma hexval_hexdigit (d : N) : d < 16 -> hexval (hexdigit d) = Some d.
Proof.
  intros H. unfold hexval, hexdigit.
  destruct (N.ltb_spec d 10).
  - replace ((48 <=? 48 + d) && (48 + d <=? 57)) with true.
    + f_equal. lia.
    + symmetry. apply andb_true_iff. split; apply N.leb_le; lia.
  - replace ((48 <=? 87 + d) && (87 + d <=? 57)) with false.
    + replace ((97 <=? 87 + d) && (87 + d <=? 102)) with true.
      * f_equal. lia.
      * symmetry. apply andb_true_iff. split; apply N.leb_le; lia.
    + symmetry. apply andb_false_iff. right. apply N.leb_gt. lia.
Qed.

Lemma decode_hex4 (n : N) :
  n < 0x10000 ->
  decode_uXXXX (hexdigit (n / 4096 mod 16)) (hexdigit (n / 256 mod 16))
    (hexdigit (n / 16 mod 16)) (hexdigit (n mod 16)) = Some n.
Proof.
  intros H. unfold decode_uXXXX.
  rewrite !hexval_hexdigit by (apply N.mod_lt; lia).
  f_equal.
  replace (n / 4096) with (n / 16 / 16 / 16) by (rewrite !N.Div0.div_div; reflexivity).
  replace (n / 256) with (n / 16 / 16) by (rewrite !N.Div0.div_div; reflexivity).
  assert (H3 : n / 16 / 16 / 16 < 16).
  { rewrite !N.Div0.div_div. apply N.Div0.div_lt_upper_bound. simpl. lia. }
  rewrite (N.mod_small _ _ H3).
  pose proof (N.div_mod n 16 ltac:(lia)) as E0.
  pose proof (N.div_mod (n / 16) 16 ltac:(lia)) as E1.
  pose proof (N.div_mod (n / 16 / 16) 16 ltac:(lia)) as E2.
  lia.
Qed.

Lemma lor_disjoint (a b : N) (k : N) : b < 2 ^ k -> N.lor (a * 2 ^ k) b = a * 2 ^ k + b.
Proof.
  intros Hb.
  assert (Hl : N.land (a * 2 ^ k) b = 0).
  { apply N.bits_inj_0. intros i. rewrite N.land_spec.
    destruct (N.lt_ge_cases i k) as [Hi|Hi].
    - rewrite N.mul_pow2_bits_low by done. reflexivity.
    - rewrite (N.testbit_eqb b i).
      rewrite N.div_small. { rewrite andb_false_r. reflexivity. }
      eapply N.lt_le_trans; [exact Hb|]. apply N.pow_le_mono_r; lia. }
  rewrite <- N.lxor_lor by exact Hl. symmetry. by apply N.add_nocarry_lxor.
Qed.

Lemma surrogate_split (c : N) :
  0x10000 <= c < 0x110000 ->
  let n := c - 0x10000 in
  let hi := N.lor 0xd800 (N.land (N.shiftr n 10) 0x3ff) in
  let lo := N.lor 0xdc00 (N.land n 0x3ff) in
  hi = 0xd800 + n / 1024 /\ lo = 0xdc00 + n mod 1024.
Proof.
  intros Hc n hi lo. subst hi lo.
  change 0x3ff with (N.ones 10). rewrite !N.land_ones, N.shiftr_div_pow2.
  change (2 ^ 10) with 1024.
  assert (Hn : n / 1024 < 1024).
  { apply N.Div0.div_lt_upper_bound. subst n. lia. }
  rewrite (N.mod_small (n / 1024)) by exact Hn.
  change 0xd800 with (54 * 2 ^ 10). change 0xdc00 with (55 * 2 ^ 10).
  rewrite !lor_disjoint; [done| |done].
  apply N.mod_lt. done.
Qed.

Lemma surrogate_join (c : N) :
  0x10000 <= c < 0x110000 ->
  let n := c - 0x10000 in
  join_surrogates (0xd800 + n / 1024) (0xdc00 + n mod 1024) = c.
Proof.
  intros Hc n. unfold join_surrogates.
  rewrite (N.add_comm 0xd800), (N.add_comm 0xdc00), !N.add_sub.
  rewrite N.shiftl_mul_pow2. rewrite lor_disjoint by (apply N.mod_lt; done).
  change (2 ^ 10) with 1024.
  pose proof (N.div_mod n 1024). subst n. lia.
Qed.

(** *** [scanstring], case by case *)

Lemma scanstring_quote r : scanstring (34 :: r) = POk ([], r).
Proof. reflexivity. Qed.

Lemma scanstring_plain c r :
  c <> 34 -> c <> 92 -> 32 <= c -> scanstring (c :: r) = pcons c (scanstring r).
Proof.
  intros H1 H2 H3. cbn [scanstring].
  rewrite (proj2 (N.eqb_neq c 34) H1), (proj2 (N.eqb_neq c 92) H2).
  rewrite (proj2 (N.ltb_ge c 32) H3). reflexivity.
Qed.

Lemma scanstring_simple e ch r :
  e <> 117 -> backslash e = Some ch ->
  scanstring (92 :: e :: r) = pcons ch (scanstring r).
Proof.
  intros H1 H2. cbn [scanstring].
  change (92 =? 34) with false. change (92 =? 92) with true. cbv iota.
  rewrite (proj2 (N.eqb_neq e 117) H1), H2. reflexivity.
Qed.

Lemma scanstring_u h1 h2 h3 h4 uni r2 :
  decode_uXXXX h1 h2 h3 h4 = Some uni ->
  scanstring (92 :: 117 :: h1 :: h2 :: h3 :: h4 :: r2) = after_u uni r2.
Proof.
  intros H. cbn [scanstring].
  change (92 =? 34) with false. change (92 =? 92) with true.
  change (117 =? 117) with true. cbv iota.
  rewrite H. reflexivity.
Qed.

Lemma scanstring_u_escape n r2 :
  n < 0x10000 -> scanstring (u_escape n ++ r2) = after_u n r2.
Proof. intros H. unfold u_escape, hex4. simpl app. apply scanstring_u. by apply decode_hex4. Qed.

Lemma after_u_not_high uni r2 : is_high uni = false -> after_u uni r2 = pcons uni (scanstring r2).
Proof. intros H. unfold after_u. by rewrite H. Qed.

Lemma after_u_join uni n2 r4 :
  is_high uni = true -> n2 < 0x10000 -> is_low n2 = true ->
  after_u uni (u_escape n2 ++ r4) = pcons (join_surrogates uni n2) (scanstring r4).
Proof.
  intros H1 H2 H3. unfold after_u, u_escape, hex4. rewrite H1. simpl app.
  change (92 =? 92) with true. change (117 =? 117) with true. cbv iota. simpl andb. cbv iota.
  rewrite decode_hex4 by done. by rewrite H3.
Qed.

Lemma after_u_not_low uni n2 r4 :
  n2 < 0x10000 -> is_low n2 = false ->
  after_u uni (u_escape n2 ++ r4) = pcons uni (scanstring (u_escape n2 ++ r4)).
Proof.
  intros H2 H3. unfold after_u. destruct (is_high uni); [|done].
  unfold u_escape, hex4. simpl app.
  change (92 =? 92) with true. change (117 =? 117) with true. simpl andb. cbv iota.
  rewrite decode_hex4 by done. by rewrite H3.
Qed.

Lemma after_u_other uni b r :
  b <> 92 -> after_u uni (b :: r) = pcons uni (scanstring (b :: r)).
Proof.
  intros H. unfold after_u. destruct (is_high uni); [|done].
  destruct r as [|u r3]; [done|].
  by rewrite (proj2 (N.eqb_neq b 92) H).
Qed.

Lemma after_u_simple uni e r :
  e <> 117 -> after_u uni (92 :: e :: r) = pcons uni (scanstring (92 :: e :: r)).
Proof.
  intros H. unfold after_u. destruct (is_high uni); [|done].
  rewrite (proj2 (N.eqb_neq e 117) H). by rewrite andb_false_r.
Qed.

(** *** A string written by the encoder is read back *)

Lemma escape_char_shape c : c < max_codepoint -> esc_shape c (escape_char c).
Proof.
  intros Hc. unfold escape_char.
  destruct (N.eqb_spec c 92) as [->|H92]; [by apply (ES_simple _ 92)|].
  destruct (N.eqb_spec c 34) as [->|H34]; [by apply (ES_simple _ 34)|].
  destruct (N.eqb_spec c 8) as [->|H8]; [by apply (ES_simple _ 98)|].
  destruct (N.eqb_spec c 12) as [->|H12]; [by apply (ES_simple _ 102)|].
  destruct (N.eqb_spec c 10) as [->|H10]; [by apply (ES_simple _ 110)|].
  destruct (N.eqb_spec c 13) as [->|H13]; [by apply (ES_simple _ 114)|].
  destruct (N.eqb_spec c 9) as [->|H9]; [by apply (ES_simple _ 116)|].
  destruct (N.leb_spec 32 c) as [H32|H32]; simpl.
  - destruct (N.leb_spec c 126) as [H126|H126]; simpl.
    + by apply ES_plain.
    + destruct (N.ltb_spec c 0x10000) as [Hb|Hb].
      * by apply ES_u.
      * destruct (surrogate_split c) as [-> ->]; [unfold max_codepoint in Hc; lia|].
        apply ES_pair. unfold max_codepoint in Hc. lia.
  - destruct (N.ltb_spec c 0x10000) as [Hb|Hb]; [by apply ES_u|lia].
Qed.

Lemma high_surrogate_of c :
  0x10000 <= c < 0x110000 ->
  let h := 0xd800 + (c - 0x10000) / 1024 in
  h < 0x10000 /\ is_high h = true /\ is_low h = false.
Proof.
  intros Hc.
  assert (Hn : (c - 0x10000) / 1024 < 1024) by (apply N.Div0.div_lt_upper_bound; lia).
  cbv zeta. generalize dependent ((c - 0x10000) / 1024). intros q Hq. unfold is_high, is_low. split; [lia|]. split.
  - apply andb_true_iff. split; apply N.leb_le; lia.
  - apply andb_false_iff. left. apply N.leb_gt. lia.
Qed.

Lemma low_surrogate_of c :
  let l := 0xdc00 + (c - 0x10000) mod 1024 in
  l < 0x10000 /\ is_low l = true.
Proof.
  pose proof (N.mod_lt (c - 0x10000) 1024 ltac:(done)) as Hn.
  cbv zeta. generalize dependent ((c - 0x10000) mod 1024). intros q Hq. unfold is_low. split; [lia|].
  apply andb_true_iff. split; apply N.leb_le; lia.
Qed.

(** After a [\uXXXX] escape, the text of a string whose first code point is
    no low surrogate never completes a pair. *)
Lemma after_u_body uni s rest :
  valid_str s ->
  match s with d :: _ => is_high uni && is_low d = false | [] => True end ->
  after_u uni (escape_body s ++ 34 :: rest)
  = pcons uni (scanstring (escape_body s ++ 34 :: rest)).
Proof.
  intros Hv Hd. destruct s as [|d s].
  - simpl. by apply after_u_other.
  - apply Forall_cons in Hv as [Hdv Hv].
    unfold escape_body. simpl flat_map. rewrite <- app_assoc.
    destruct (escape_char_shape d Hdv) as [e He Hb|H34 H92 H32|Hlt|Hge].
    + simpl. by apply after_u_simple.
    + simpl. by apply after_u_other.
    + destruct (is_high uni) eqn:Eh.
      * simpl in Hd. by apply after_u_not_low.
      * by rewrite !after_u_not_high.
    + rewrite <- app_assoc. destruct (high_surrogate_of d Hge) as (H1 & H2 & H3).
      by apply after_u_not_low.
Qed.

Lemma scanstring_escape_body s rest :
  valid_str s -> no_split_pair s = true ->
  scanstring (escape_body s ++ 34 :: rest) = POk (s, rest).
Proof.
  induction s as [|c s IH]; intros Hv Hp.
  - reflexivity.
  - apply Forall_cons in Hv as [Hcv Hv].
    assert (Hp' : no_split_pair s = true).
    { simpl in Hp. destruct s; [done|]. by apply andb_true_iff in Hp as [_ Hp]. }
    assert (Hnext : match s with d :: _ => is_high c && is_low d = false | [] => True end).
    { simpl in Hp. destruct s; [done|]. apply andb_true_iff in Hp as [Hp _].
      by apply negb_true_iff in Hp. }
    specialize (IH Hv Hp').
    unfold escape_body. simpl flat_map. rewrite <- app_assoc.
    fold (escape_body s).
    destruct (escape_char_shape c Hcv) as [e He Hb|H34 H92 H32|Hlt|Hge].
    + simpl app. rewrite (scanstring_simple e c) by done. by rewrite IH.
    + simpl app. rewrite scanstring_plain by done. by rewrite IH.
    + rewrite scanstring_u_escape by done.
      rewrite after_u_body by done. by rewrite IH.
    + rewrite <- app_assoc.
      destruct (high_surrogate_of c Hge) as (H1 & H2 & H3).
      destruct (low_surrogate_of c) as (L1 & L2).
      rewrite scanstring_u_escape by done.
      rewrite after_u_join by done.
      rewrite IH. unfold pcons. simpl. by rewrite surrogate_join.
Qed.

(** Steps of the decoder, each from the results of its parts. *)

Lemma scan_once_str f r s rest :
  scanstring r = POk (s, rest) -> scan_once (S f) (34 :: r) = POk (PStr s, rest).
Proof. intros H. cbn [scan_once]. change (34 =? 34) with true. cbv iota. by rewrite H. Qed.

Lemma scan_once_bool f b rest :
  scan_once (S f) (encode_bool b ++ rest) = POk (PBool b, rest).
Proof. destruct b; reflexivity. Qed.

Lemma scan_once_object f r v rest :
  JSONObject (scan_once f) f r = POk (v, rest) -> scan_once (S f) (123 :: r) = POk (v, rest).
Proof. intros H. cbn [scan_once]. exact H. Qed.

Lemma scan_once_array f r v rest :
  JSONArray (scan_once f) f r = POk (v, rest) -> scan_once (S f) (91 :: r) = POk (v, rest).
Proof. intros H. cbn [scan_once]. exact H. Qed.

Lemma object_loop_last scan n s key s1 s2 v s3 s4 :
  scanstring s = POk (key, s1) -> skip_ws s1 = 58 :: s2 ->
  scan (skip_ws s2) = POk (v, s3) -> skip_ws s3 = 125 :: s4 ->
  object_loop scan (S n) s = POk ([(key, v)], s4).
Proof.
  intros H1 H2 H3 H4. cbn [object_loop]. rewrite H1. cbn [pbind fst snd].
  rewrite H2. change (58 =? 58) with true. cbv iota.
  rewrite H3. cbn [pbind fst snd]. rewrite H4. reflexivity.
Qed.

Lemma object_loop_more scan n s key s1 s2 v s3 s4 s5 ps rest :
  scanstring s = POk (key, s1) -> skip_ws s1 = 58 :: s2 ->
  scan (skip_ws s2) = POk (v, s3) -> skip_ws s3 = 44 :: s4 ->
  skip_ws s4 = 34 :: s5 -> object_loop scan n s5 = POk (ps, rest) ->
  object_loop scan (S n) s = POk ((key, v) :: ps, rest).
Proof.
  intros H1 H2 H3 H4 H5 H6. cbn [object_loop]. rewrite H1. cbn [pbind fst snd].
  rewrite H2. change (58 =? 58) with true. cbv iota.
  rewrite H3. cbn [pbind fst snd]. rewrite H4.
  change (44 =? 125) with false. change (44 =? 44) with true. cbv iota.
  rewrite H5. change (34 =? 34) with true. cbv iota. rewrite H6. reflexivity.
Qed.

Lemma JSONObject_pairs scan n s s1 ps rest :
  skip_ws s = 34 :: s1 -> object_loop scan n s1 = POk (ps, rest) ->
  JSONObject scan n s = POk (PDict (dict_of_pairs ps), rest).
Proof.
  intros H1 H2. unfold JSONObject. rewrite H1.
  change (34 =? 125) with false. change (34 =? 34) with true. cbv iota.
  by rewrite H2.
Qed.

Lemma array_loop_last scan n s v s1 s2 :
  scan s = POk (v, s1) -> skip_ws s1 = 93 :: s2 ->
  array_loop scan (S n) s = POk ([v], s2).
Proof.
  intros H1 H2. cbn [array_loop]. rewrite H1. cbn [pbind fst snd]. rewrite H2.
  reflexivity.
Qed.

Lemma array_loop_more scan n s v s1 s2 vs rest :
  scan s = POk (v, s1) -> skip_ws s1 = 44 :: s2 ->
  array_loop scan n (skip_ws s2) = POk (vs, rest) ->
  array_loop scan (S n) s = POk (v :: vs, rest).
Proof.
  intros H1 H2 H3. cbn [array_loop]. rewrite H1. cbn [pbind fst snd]. rewrite H2.
  change (44 =? 93) with false. change (44 =? 44) with true. cbv iota.
  by rewrite H3.
Qed.

Lemma JSONArray_items scan n s c s1 vs rest :
  skip_ws s = c :: s1 -> c <> 93 -> array_loop scan n (c :: s1) = POk (vs, rest) ->
  JSONArray scan n s = POk (PList vs, rest).
Proof.
  intros H1 H2 H3. unfold JSONArray. rewrite H1.
  rewrite (proj2 (N.eqb_neq c 93) H2). by rewrite H3.
Qed.

(** The text of one task at depth 1, character by character. *)
Lemma encode_task_text t rest :
  encode_task 1 t ++ rest =
  123 :: 10 :: 32 :: 32 :: 32 :: 32 :: 34 :: 100 :: 101 :: 115 :: 99 :: 34 :: 58 :: 32
  :: 34 :: escape_body (desc t)
  ++ 34 :: 44 :: 10 :: 32 :: 32 :: 32 :: 32 :: 34 :: 100 :: 111 :: 110 :: 101 :: 34
  :: 58 :: 32 :: encode_bool (done t) ++ 10 :: 32 :: 32 :: 125 :: rest.
Proof.
  unfold encode_task, iterencode_dict.
  cbn [fmap list_fmap join_items fst snd].
  change (encode_basestring_ascii (lit "desc")) with [34; 100; 101; 115; 99; 34].
  change (encode_basestring_ascii (lit "done")) with [34; 100; 111; 110; 101; 34].
  change (lit "{") with [123]. change (lit "}") with [125].
  change (lit ": ") with [58; 32]. change (lit ",") with [44].
  change (newline_indent 2) with [10; 32; 32; 32; 32].
  change (newline_indent 1) with [10; 32; 32].
  unfold encode_basestring_ascii.
  rewrite <- !app_assoc. cbn [app]. rewrite <- !app_assoc. reflexivity.
Qed.

Lemma scan_once_task f t rest :
  text_ok (desc t) ->
  scan_once (S (S (S f))) (encode_task 1 t ++ rest) = POk (task_value t, rest).
Proof.
  intros [Hv Hp]. rewrite encode_task_text.
  apply scan_once_object.
  change (task_value t) with
    (PDict (dict_of_pairs [(lit "desc", PStr (desc t)); (lit "done", PBool (done t))])).
  eapply JSONObject_pairs; [reflexivity|].
  eapply object_loop_more.
  - reflexivity.
  - reflexivity.
  - apply scan_once_str. by apply scanstring_escape_body.
  - reflexivity.
  - reflexivity.
  - eapply object_loop_last.
    + reflexivity.
    + reflexivity.
    + replace (skip_ws (32 :: encode_bool (done t) ++ 10 :: 32 :: 32 :: 125 :: rest))
        with (encode_bool (done t) ++ 10 :: 32 :: 32 :: 125 :: rest)
        by (destruct (done t); reflexivity).
      apply scan_once_bool.
    + reflexivity.
Qed.

Lemma skip_ws_task t rest : skip_ws (encode_task 1 t ++ rest) = encode_task 1 t ++ rest.
Proof. rewrite encode_task_text. reflexivity. Qed.

Lemma skip_ws_join t ts rest :
  skip_ws (join_items item_sep (encode_task 1 <$> t :: ts) ++ rest)
  = join_items item_sep (encode_task 1 <$> t :: ts) ++ rest.
Proof.
  destruct ts as [|t' ts]; cbn [fmap list_fmap join_items].
  - apply skip_ws_task.
  - rewrite <- app_assoc. apply skip_ws_task.
Qed.

Lemma join_head t ts rest :
  exists r, join_items item_sep (encode_task 1 <$> t :: ts) ++ rest = 123 :: r.
Proof.
  destruct ts; cbn [fmap list_fmap join_items]; [|rewrite <- app_assoc];
    rewrite encode_task_text; eauto.
Qed.

Lemma array_loop_tasks f ts :
  forall n rest,
    ts <> [] -> Forall (fun t => text_ok (desc t)) ts -> (length ts <= n)%nat ->
    array_loop (scan_once (S (S (S f)))) n
      (join_items item_sep (encode_task 1 <$> ts) ++ 10 :: 93 :: rest)
    = POk (task_value <$> ts, rest).
Proof.
  induction ts as [|t ts IH]; intros n rest Hne Hok Hn; [done|].
  apply Forall_cons in Hok as [Ht Hok].
  destruct n as [|n]; [simpl in Hn; lia|].
  destruct ts as [|t' ts].
  - cbn [fmap list_fmap join_items].
    eapply array_loop_last; [by apply scan_once_task|reflexivity].
  - change (join_items item_sep (encode_task 1 <$> t :: t' :: ts))
      with (encode_task 1 t ++ item_sep ++ join_items item_sep (encode_task 1 <$> t' :: ts)).
    rewrite <- !app_assoc.
    change (item_sep ++ ?x) with (44 :: 10 :: 32 :: 32 :: x).
    rewrite (fmap_cons task_value).
    eapply array_loop_more; [by apply scan_once_task|reflexivity|].
    change (skip_ws (10 :: 32 :: 32 :: ?x)) with (skip_ws x).
    rewrite skip_ws_join. apply IH; [done|done|simpl in Hn |- *; lia].
Qed.

Lemma length_join_items sep chunks :
  Forall (fun c => c <> []) chunks -> (length chunks <= length (join_items sep chunks))%nat.
Proof.
  induction 1 as [|c chunks Hc _ IH]; [done|].
  destruct chunks as [|c' chunks].
  - simpl. destruct c; [done|simpl; lia].
  - change (join_items sep (c :: c' :: chunks))
      with (c ++ sep ++ join_items sep (c' :: chunks)).
    rewrite !length_app. destruct c; [done|]. simpl in *. lia.
Qed.

Lemma encode_task_nonempty t : encode_task 1 t <> [].
Proof.
  intros H. pose proof (encode_task_text t []) as E. rewrite H in E. discriminate.
Qed.

Lemma loads_dumps_tasks ts :
  Forall (fun t => text_ok (desc t)) ts ->
  loads (dumps_tasks ts) = POk (tasks_value ts).
Proof.
  intros Hok. destruct ts as [|t ts]; [reflexivity|].
  unfold dumps_tasks, iterencode_list.
  change (lit "," ++ newline_indent 1) with item_sep.
  change (lit "[" ++ newline_indent 1 ++ ?j ++ newline_indent 0 ++ lit "]")
    with (91 :: 10 :: 32 :: 32 :: j ++ [10; 93]).
  set (J := join_items item_sep (encode_task 1 <$> t :: ts)).
  assert (HJ : (length (t :: ts) <= length J)%nat).
  { subst J. etransitivity; [|apply length_join_items].
    - by rewrite length_fmap.
    - apply Forall_fmap, Forall_true. intros x. apply encode_task_nonempty. }
  unfold loads. change (91 =? 65279) with false. cbv iota.
  unfold decode. change (skip_ws (91 :: ?x)) with (91 :: x).
  remember (length (91 :: 10 :: 32 :: 32 :: J ++ [10; 93])) as L eqn:HL.
  assert (HL' : (length (t :: ts) + 3 <= L)%nat).
  { subst L. simpl. rewrite length_app. simpl in *. lia. }
  destruct L as [|[|[|f]]]; [simpl in HL'; lia..|].
  destruct (join_head t ts [10; 93]) as [r Hr]. fold J in Hr.
  erewrite scan_once_array.
  2:{ eapply (JSONArray_items _ _ _ 123 r).
      - change (skip_ws (10 :: 32 :: 32 :: ?x)) with (skip_ws x).
        subst J. by rewrite skip_ws_join.
      - done.
      - rewrite <- Hr. apply (array_loop_tasks f (t :: ts)); [done|done|lia]. }
  reflexivity.
Qed.

(** *** What the decoder accepts is JSON *)

Lemma skip_ws_split s : exists w, ws w /\ s = w ++ skip_ws s.
Proof.
  induction s as [|c s (w & Hw & IH)].
  - exists []. split; [constructor|done].
  - simpl. destruct (is_ws c) eqn:E.
    + exists (c :: w). split; [by constructor|]. simpl. by f_equal.
    + exists []. split; [constructor|done].
Qed.

Lemma skip_ws_length s : (length (skip_ws s) <= length s)%nat.
Proof.
  destruct (skip_ws_split s) as (w & _ & E). rewrite E at 2. rewrite length_app. lia.
Qed.

Lemma ws_app w1 w2 : ws w1 -> ws w2 -> ws (w1 ++ w2).
Proof. apply Forall_app_2. Qed.

Lemma strip_prefix_split p s rest : strip_prefix p s = Some rest -> s = p ++ rest.
Proof.
  revert s. induction p as [|a p IH]; intros s H; simpl in H.
  - by injection H as ->.
  - destruct s as [|b s]; [done|].
    destruct (N.eqb_spec a b) as [->|]; [|done]. simpl. f_equal. by apply IH.
Qed.

Lemma span_digits_split s ds r : span_digits s = (ds, r) -> s = ds ++ r /\ digits ds.
Proof.
  revert ds r. induction s as [|c s IH]; intros ds r H; simpl in H.
  - injection H as <- <-. split; [done|constructor].
  - destruct (is_digit c) eqn:E.
    + destruct (span_digits s) as [ds' r'] eqn:E'. injection H as <- <-.
      destruct (IH ds' r' eq_refl) as [-> Hd]. split; [done|by constructor].
    + injection H as <- <-. split; [done|constructor].
Qed.

Lemma pcons_res c p s r :
  string_res s r -> (forall b, chars b -> chars (p ++ b)) ->
  string_res (p ++ s) (pcons c r).
Proof.
  intros Hr Hp. destruct r as [[x rest]| |]; simpl in *; [|done|done].
  destruct Hr as (b & -> & Hb). exists (p ++ b). split; [by rewrite <- app_assoc|auto].
Qed.

Lemma decode_uXXXX_hex h1 h2 h3 h4 u :
  decode_uXXXX h1 h2 h3 h4 = Some u -> is_hex h1 /\ is_hex h2 /\ is_hex h3 /\ is_hex h4.
Proof.
  unfold decode_uXXXX, is_hex.
  destruct (hexval h1), (hexval h2), (hexval h3), (hexval h4); done.
Qed.

Lemma scanstring_res_bounded (n : nat) :
  forall s, (length s <= n)%nat -> string_res s (scanstring s).
Proof.
  induction n as [|n IH]; intros s Hn.
  { destruct s; [exact I|simpl in Hn; lia]. }
  destruct s as [|c r]; [exact I|]. simpl in Hn. cbn [scanstring].
  destruct (N.eqb_spec c 34) as [->|H34].
  { exists []. split; [done|constructor]. }
  destruct (N.eqb_spec c 92) as [->|H92].
  - destruct r as [|e r1]; [exact I|]. simpl in Hn.
    destruct (N.eqb_spec e 117) as [->|H117].
    + destruct r1 as [|h1 [|h2 [|h3 [|h4 r2]]]]; try exact I. simpl in Hn.
      destruct (decode_uXXXX h1 h2 h3 h4) as [uni|] eqn:Eu; [|exact I].
      apply decode_uXXXX_hex in Eu as (X1 & X2 & X3 & X4).
      assert (Hplain : string_res (92 :: 117 :: h1 :: h2 :: h3 :: h4 :: r2)
                         (pcons uni (scanstring r2))).
      { apply (pcons_res uni [92; 117; h1; h2; h3; h4]); [apply IH; lia|].
        intros b Hb. by apply chars_u. }
      destruct (is_high uni); [|exact Hplain].
      destruct r2 as [|b [|u r3]]; [exact Hplain..|].
      destruct ((b =? 92) && (u =? 117)) eqn:Ebu; [|exact Hplain].
      apply andb_true_iff in Ebu as [->%N.eqb_eq ->%N.eqb_eq].
      destruct r3 as [|g1 [|g2 [|g3 [|g4 r4]]]]; try exact I. simpl in Hn.
      destruct (decode_uXXXX g1 g2 g3 g4) as [uni2|] eqn:Eu2; [|exact I].
      apply decode_uXXXX_hex in Eu2 as (Y1 & Y2 & Y3 & Y4).
      destruct (is_low uni2); [|exact Hplain].
      apply (pcons_res _ [92; 117; h1; h2; h3; h4; 92; 117; g1; g2; g3; g4]);
        [apply IH; lia|].
      intros b Hb. apply chars_u; [done..|]. by apply chars_u.
    + destruct (backslash e) as [ch|] eqn:Eb; [|exact I].
      apply (pcons_res ch [92; e]); [apply IH; lia|].
      intros b Hb. apply chars_escape; [congruence|done].
  - destruct (N.ltb_spec c 32) as [H32|H32]; [exact I|].
    apply (pcons_res c [c]); [apply IH; lia|].
    intros b Hb. by apply chars_plain.
Qed.

Lemma scanstring_res s : string_res s (scanstring s).
Proof. by apply (scanstring_res_bounded (length s)). Qed.

Lemma match_int_split s i r :
  match_int s = Some (i, r) ->
  exists sg ip, i = sg ++ ip /\ (sg = [] \/ sg = [45]) /\ int_part ip /\ s = i ++ r.
Proof.
  unfold match_int. intros H.
  assert (Hgen : forall sg s1,
             (sg = [] \/ sg = [45]) ->
             match s1 with
             | [] => None
             | d :: r0 =>
                 if d =? 48 then Some (sg ++ [48], r0)
                 else if is_digit d
                      then let '(ds, r') := span_digits r0 in Some (sg ++ d :: ds, r')
                      else None
             end = Some (i, r) ->
             exists ip, i = sg ++ ip /\ int_part ip /\ sg ++ s1 = i ++ r).
  { intros sg s1 Hsg H1. destruct s1 as [|d r0]; [done|].
    destruct (N.eqb_spec d 48) as [->|H48].
    - injection H1 as <- <-. exists [48]. split; [done|]. split; [constructor|].
      by rewrite <- app_assoc.
    - destruct (is_digit d) eqn:Ed; [|done].
      destruct (span_digits r0) as [ds r'] eqn:Es. injection H1 as <- <-.
      apply span_digits_split in Es as [-> Hds].
      exists (d :: ds). split; [done|]. split; [by constructor|].
      by rewrite <- app_assoc. }
  destruct s as [|c r0].
  - destruct (Hgen [] [] (or_introl eq_refl) H) as (ip & -> & Hip & E).
    exists [], ip. auto.
  - destruct (N.eqb_spec c 45) as [->|H45].
    + destruct (Hgen [45] r0 (or_intror eq_refl) H) as (ip & -> & Hip & E).
      exists [45], ip. auto.
    + destruct (Hgen [] (c :: r0) (or_introl eq_refl) H) as (ip & -> & Hip & E).
      exists [], ip. auto.
Qed.

Lemma match_frac_split s f r :
  match_frac s = Some (f, r) -> frac_part f /\ s = f ++ r.
Proof.
  unfold match_frac. intros H. destruct s as [|c r0]; [done|].
  destruct (N.eqb_spec c 46) as [->|]; [|done].
  destruct (span_digits r0) as [ds r'] eqn:Es.
  apply span_digits_split in Es as [-> Hds].
  destruct ds as [|d ds]; [done|]. injection H as <- <-.
  split; [by constructor|done].
Qed.

Lemma match_exp_split s e r :
  match_exp s = Some (e, r) -> exp_part e /\ s = e ++ r.
Proof.
  unfold match_exp. intros H. destruct s as [|c r0]; [done|].
  destruct ((c =? 101) || (c =? 69)) eqn:Ec; [|done].
  assert (Hc : c = 101 \/ c = 69).
  { apply orb_true_iff in Ec as [?%N.eqb_eq|?%N.eqb_eq]; auto. }
  assert (Hgen : forall sg r1,
             (sg = [] \/ sg = [45] \/ sg = [43]) ->
             (let '(ds, r2) := span_digits r1 in
              match ds with [] => None | _ :: _ => Some (c :: sg ++ ds, r2) end)
             = Some (e, r) ->
             exp_part e /\ c :: sg ++ r1 = e ++ r).
  { intros sg r1 Hsg H1. destruct (span_digits r1) as [ds r2] eqn:Es.
    apply span_digits_split in Es as [-> Hds].
    destruct ds as [|d ds]; [done|]. injection H1 as <- <-.
    split; [by constructor|]. simpl. f_equal. by rewrite <- app_assoc. }
  destruct r0 as [|s0 r1].
  - by apply (Hgen [] []); [left|].
  - destruct ((s0 =? 45) || (s0 =? 43)) eqn:Es0.
    + apply (Hgen [s0] r1); [|done].
      apply orb_true_iff in Es0 as [->%N.eqb_eq| ->%N.eqb_eq]; auto.
    + by apply (Hgen [] (s0 :: r1)); [left|].
Qed.

Lemma match_number_split s v r :
  match_number s = Some (v, r) -> exists pre, s = pre ++ r /\ number pre.
Proof.
  unfold match_number. intros H.
  destruct (match_int s) as [[i s1]|] eqn:Ei; [|done].
  apply match_int_split in Ei as (sg & ip & -> & Hsg & Hip & ->).
  assert (Hfin : forall f e s3 res,
             frac_part f -> exp_part e ->
             match f, e with
             | [], [] => Some (PInt (int_of_lexeme (sg ++ ip)), s3)
             | _, _ => Some (PFloat ((sg ++ ip) ++ f ++ e), s3)
             end = Some (v, r) ->
             res = f ++ e ++ s3 ->
             exists pre, (sg ++ ip) ++ res = pre ++ r /\ number pre).
  { intros f e s3 res Hf He Hv ->. exists (sg ++ ip ++ f ++ e). split.
    - assert (r = s3) as -> by (destruct f, e; by injection Hv).
      by rewrite <- !app_assoc.
    - by constructor. }
  destruct (match_frac s1) as [[f s2]|] eqn:Ef;
    [apply match_frac_split in Ef as [Hf ->]|];
    cbv beta iota in H.
  - destruct (match_exp s2) as [[e s3]|] eqn:Ee;
      [apply match_exp_split in Ee as [He ->]|]; cbv beta iota in H.
    + by apply (Hfin f e s3).
    + apply (Hfin f [] s2); [done|constructor|done|done].
  - destruct (match_exp s1) as [[e s3]|] eqn:Ee;
      [apply match_exp_split in Ee as [He ->]|]; cbv beta iota in H.
    + apply (Hfin [] e s3); [constructor|done|done|done].
    + apply (Hfin [] [] s1); [constructor|constructor|done|done].
Qed.

Lemma int_part_nonempty i : int_part i -> i <> [].
Proof. by destruct 1. Qed.

Lemma number_nonempty n : number n -> n <> [].
Proof.
  destruct 1 as [sg i f e _ Hi _ _]. apply int_part_nonempty in Hi.
  destruct sg, i; done.
Qed.

Lemma value_nonempty ext v : value ext v -> v <> [].
Proof. destruct 1; try done. by apply number_nonempty. Qed.

Lemma elements_ws ext w es : ws w -> elements ext es -> elements ext (w ++ es).
Proof.
  intros Hw [w1 v w2 H1 Hv H2|w1 v w2 es' H1 Hv H2 Hes]; rewrite app_assoc.
  - apply elements_one; [by apply ws_app|done..].
  - apply elements_more; [by apply ws_app|done..].
Qed.

Lemma members_ws ext w ms : ws w -> members ext ms -> members ext (w ++ ms).
Proof.
  intros Hw [w1 k w2 w3 v w4 H1 Hk H2 H3 Hv H4|w1 k w2 w3 v w4 ms' H1 Hk H2 H3 Hv H4 Hms];
    rewrite app_assoc.
  - apply members_one; [by apply ws_app|done..].
  - apply members_more; [by apply ws_app|done..].
Qed.

Lemma value_res_length s v rest :
  value_res s (POk (v, rest)) -> (length rest < length s)%nat.
Proof.
  intros (pre & -> & Hv). apply value_nonempty in Hv.
  rewrite length_app. destruct pre; [done|simpl; lia].
Qed.

Lemma string_res_length s x rest :
  string_res s (POk (x, rest)) -> (length rest < length s)%nat.
Proof. intros (b & -> & _). rewrite length_app. simpl. lia. Qed.

Lemma skip_ws_cons s c r :
  skip_ws s = c :: r -> exists w, ws w /\ s = w ++ c :: r.
Proof. intros H. destruct (skip_ws_split s) as (w & Hw & E). rewrite H in E. eauto. Qed.

Section loops.
Context (scan : str -> pres (pyval * str)).

Lemma array_loop_res (n : nat) :
  forall s,
    (forall s', (length s' <= length s)%nat -> value_res s' (scan s')) ->
    (length s < n)%nat ->
    array_res s (array_loop scan n s).
Proof.
  induction n as [|n IH]; intros s Hscan Hn; [lia|].
  cbn [array_loop].
  pose proof (Hscan s (le_n _)) as Hv.
  destruct (scan s) as [[v s1]| |]; [|exact I|done].
  pose proof (value_res_length _ _ _ Hv) as Hl.
  destruct Hv as (pre & -> & Hpre).
  cbn [pbind fst snd].
  destruct (skip_ws s1) as [|c s2] eqn:Ews; [exact I|].
  apply skip_ws_cons in Ews as (w & Hw & ->).
  destruct (N.eqb_spec c 93) as [->|H93].
  { exists (pre ++ w). split; [by rewrite <- app_assoc|].
    by apply (elements_one _ [] pre w); [constructor|..]. }
  destruct (N.eqb_spec c 44) as [->|H44]; [|exact I].
  destruct (skip_ws_split s2) as (w' & Hw' & Es2).
  rewrite length_app in Hl. simpl in Hl.
  assert (Hlen : (length (skip_ws s2) <= length s2)%nat) by apply skip_ws_length.
  specialize (IH (skip_ws s2)).
  destruct (array_loop scan n (skip_ws s2)) as [[vs rest]| |].
  - destruct IH as (es & Ees & Hes).
    { intros s' Hs'. apply Hscan. rewrite !length_app. simpl. lia. }
    { rewrite !length_app in Hn. simpl in Hn. lia. }
    cbn [pbind fst snd].
    exists (pre ++ w ++ 44 :: w' ++ es). split.
    + rewrite Es2, Ees. rewrite <- !app_assoc. simpl. by rewrite <- !app_assoc.
    + apply (elements_more _ [] pre w); [constructor|done|done|].
      by apply elements_ws.
  - exact I.
  - apply IH.
    + intros s' Hs'. apply Hscan. rewrite !length_app. simpl. lia.
    + rewrite !length_app in Hn. simpl in Hn. lia.
Qed.

Lemma object_loop_res (n : nat) :
  forall s,
    (forall s', (length s' <= length s)%nat -> value_res s' (scan s')) ->
    (length s < n)%nat ->
    object_res s (object_loop scan n s).
Proof.
  induction n as [|n IH]; intros s Hscan Hn; [lia|].
  cbn [object_loop].
  pose proof (scanstring_res s) as Hk.
  destruct (scanstring s) as [[k s1]| |]; [|exact I|done].
  pose proof (string_res_length _ _ _ Hk) as Hl1.
  destruct Hk as (kb & -> & Hkb). cbn [pbind fst snd].
  destruct (skip_ws s1) as [|c s2] eqn:Ews; [exact I|].
  apply skip_ws_cons in Ews as (w2 & Hw2 & ->).
  destruct (N.eqb_spec c 58) as [->|]; [|exact I].
  destruct (skip_ws_split s2) as (w3 & Hw3 & Es2).
  pose proof (skip_ws_length s2) as Hl2.
  rewrite !length_app in Hscan, Hn. simpl in Hscan, Hn.
  rewrite !length_app in Hscan, Hn. simpl in Hscan, Hn.
  pose proof (Hscan (skip_ws s2) ltac:(lia)) as Hv.
  destruct (scan (skip_ws s2)) as [[v s3]| |]; [|exact I|done].
  pose proof (value_res_length _ _ _ Hv) as Hl3.
  destruct Hv as (pre & Epre & Hpre). cbn [pbind fst snd].
  destruct (skip_ws s3) as [|d s4] eqn:Ews; [exact I|].
  apply skip_ws_cons in Ews as (w4 & Hw4 & ->).
  rewrite length_app in Hl3. simpl in Hl3.
  destruct (N.eqb_spec d 125) as [->|].
  { exists (34 :: kb ++ 34 :: w2 ++ 58 :: w3 ++ pre ++ w4). split.
    - rewrite Es2, Epre. simpl. f_equal. rewrite <- !app_assoc. simpl.
      do 2 f_equal. rewrite <- !app_assoc. simpl. by rewrite <- !app_assoc.
    - by apply (members_one _ [] kb w2 w3 pre w4); [constructor|..]. }
  destruct (N.eqb_spec d 44) as [->|]; [|exact I].
  destruct (skip_ws s4) as [|q s5] eqn:Ews; [exact I|].
  apply skip_ws_cons in Ews as (w1 & Hw1 & E4).
  destruct (N.eqb_spec q 34) as [->|]; [|exact I].
  assert (Hl5 : (length s5 < length s4)%nat).
  { rewrite E4, length_app. simpl. lia. }
  specialize (IH s5).
  destruct (object_loop scan n s5) as [[ps rest]| |].
  - destruct IH as (ms & Ems & Hms).
    { intros s' Hs'. apply Hscan. lia. }
    { lia. }
    cbn [pbind fst snd].
    exists (34 :: kb ++ 34 :: w2 ++ 58 :: w3 ++ pre ++ w4 ++ 44 :: w1 ++ ms). split.
    + rewrite Es2, Epre, E4, Ems. simpl. f_equal. rewrite <- !app_assoc. simpl.
      do 2 f_equal. rewrite <- !app_assoc. simpl. rewrite <- !app_assoc. simpl.
      by rewrite <- !app_assoc.
    + apply (members_more _ [] kb w2 w3 pre w4); [constructor|done..|].
      by apply members_ws.
  - exact I.
  - apply IH; [intros s' Hs'; apply Hscan; lia|lia].
Qed.
End loops.

Lemma JSONArray_res scan n r :
  (forall s', (length s' <= length r)%nat -> value_res s' (scan s')) ->
  (length r < n)%nat ->
  value_res (91 :: r) (JSONArray scan n r).
Proof.
  intros Hscan Hn. unfold JSONArray.
  destruct (skip_ws_split r) as (w & Hw & Er).
  pose proof (skip_ws_length r) as Hl.
  pose proof (array_loop_res scan n (skip_ws r)) as Hloop.
  assert (Hgen : value_res (91 :: r)
            (pbind (array_loop scan n (skip_ws r)) (fun ir => POk (PList ir.1, ir.2)))).
  { destruct (array_loop scan n (skip_ws r)) as [[vs rest]| |]; [|exact I|].
    - destruct Hloop as (es & Ees & Hes); [intros; apply Hscan; lia|lia|].
      exists (91 :: (w ++ es) ++ [93]). split.
      + rewrite Er, Ees. simpl. f_equal. rewrite <- !app_assoc. done.
      + apply value_array. by apply elements_ws.
    - apply Hloop; [intros; apply Hscan; lia|lia]. }
  destruct (skip_ws r) as [|c r'] eqn:E; [exact Hgen|].
  destruct (N.eqb_spec c 93) as [->|]; [|exact Hgen].
  exists (91 :: w ++ [93]). split.
  - rewrite Er. simpl. f_equal. by rewrite <- app_assoc.
  - by apply value_array_empty.
Qed.

Lemma JSONObject_res scan n r :
  (forall s', (length s' <= length r)%nat -> value_res s' (scan s')) ->
  (length r < n)%nat ->
  value_res (123 :: r) (JSONObject scan n r).
Proof.
  intros Hscan Hn. unfold JSONObject.
  destruct (skip_ws r) as [|c r'] eqn:E; [exact I|].
  apply skip_ws_cons in E as (w & Hw & ->).
  destruct (N.eqb_spec c 125) as [->|].
  { exists (123 :: w ++ [125]). split.
    - simpl. f_equal. by rewrite <- app_assoc.
    - by apply value_object_empty. }
  destruct (N.eqb_spec c 34) as [->|]; [|exact I].
  rewrite length_app in Hscan, Hn. simpl in Hscan, Hn.
  pose proof (object_loop_res scan n r') as Hloop.
  destruct (object_loop scan n r') as [[ps rest]| |]; [|exact I|].
  - destruct Hloop as (ms & Ems & Hms); [intros; apply Hscan; lia|lia|].
    exists (123 :: (w ++ ms) ++ [125]). split.
    + rewrite Ems. simpl. f_equal. by rewrite <- !app_assoc.
    + apply value_object. by apply members_ws.
  - apply Hloop; [intros; apply Hscan; lia|lia].
Qed.

Lemma literal_res (p : str) (v : pyval) s rest :
  value true p -> strip_prefix p s = Some rest -> value_res s (POk (v, rest)).
Proof. intros Hp H. apply strip_prefix_split in H as ->. by exists p. Qed.

(** Soundness of [scan_once], and its budget: on a text shorter than the
    budget it stops with a value or with an error. *)
Lemma scan_once_res (f : nat) :
  forall s, (length s < f)%nat -> value_res s (scan_once f s).
Proof.
  induction f as [|f IH]; intros s Hf; [lia|].
  cbn [scan_once]. destruct s as [|c r]; [exact I|]. simpl in Hf.
  destruct (N.eqb_spec c 34) as [->|].
  { pose proof (scanstring_res r) as Hs.
    destruct (scanstring r) as [[x rest]| |]; [|exact I|done].
    destruct Hs as (b & -> & Hb). cbn [pbind fst snd].
    exists (34 :: b ++ [34]). split; [simpl; by rewrite <- app_assoc|by constructor]. }
  destruct (N.eqb_spec c 123) as [->|].
  { apply JSONObject_res; [intros; apply IH; lia|lia]. }
  destruct (N.eqb_spec c 91) as [->|].
  { apply JSONArray_res; [intros; apply IH; lia|lia]. }
  destruct (strip_prefix (lit "null") (c :: r)) eqn:E1.
  { eapply literal_res; [|done]. constructor. }
  destruct (strip_prefix (lit "true") (c :: r)) eqn:E2.
  { eapply literal_res; [|done]. constructor. }
  destruct (strip_prefix (lit "false") (c :: r)) eqn:E3.
  { eapply literal_res; [|done]. constructor. }
  destruct (match_number (c :: r)) as [[v rest]|] eqn:E4.
  { apply match_number_split in E4 as (pre & -> & Hn).
    exists pre. split; [done|by constructor]. }
  destruct (strip_prefix (lit "NaN") (c :: r)) eqn:E5.
  { eapply literal_res; [|done]. by constructor. }
  destruct (strip_prefix (lit "Infinity") (c :: r)) eqn:E6.
  { eapply literal_res; [|done]. by constructor. }
  destruct (strip_prefix (lit "-Infinity") (c :: r)) eqn:E7.
  { eapply literal_res; [|done]. by constructor. }
  exact I.
Qed.

Lemma decode_res s : text_res s (decode s).
Proof.
  unfold decode.
  destruct (skip_ws_split s) as (w1 & Hw1 & Es).
  pose proof (skip_ws_length s) as Hl.
  pose proof (scan_once_res (S (length s)) (skip_ws s) ltac:(lia)) as Hv.
  destruct (scan_once (S (length s)) (skip_ws s)) as [[v rest]| |]; [|exact I|done].
  destruct Hv as (pre & Epre & Hpre). cbn [pbind fst snd].
  destruct (skip_ws_split rest) as (w2 & Hw2 & Er).
  destruct (skip_ws rest); [|exact I].
  exists w1, pre, w2. rewrite app_nil_r in Er. subst rest.
  by rewrite Es at 1; rewrite Epre.
Qed.

Lemma loads_res s : text_res s (loads s).
Proof.
  unfold loads. destruct s as [|c r]; [apply decode_res|].
  destruct (c =? 65279); [exact I|apply decode_res].
Qed.

Lemma number_head n :
  number n -> exists c r, n = c :: r /\ (c = 45 \/ is_digit c = true).
Proof.
  destruct 1 as [sg i f e Hsg Hi _ _].
  destruct Hsg as [->| ->]; [|by exists 45, (i ++ f ++ e); auto].
  destruct Hi as [|d ds Hd _ _]; simpl; eauto.
Qed.

Lemma value_head v : value false v -> exists c r, v = c :: r /\ value_start c = true.
Proof.
  destruct 1 as [| | |n Hn|b _|w _|es _|w _|ms _|E|E|E]; try discriminate E;
    try (eexists _, _; split; [reflexivity|reflexivity]).
  destruct (number_head n Hn) as (c & r & -> & [->|Hc]); eexists _, _;
    (split; [reflexivity|]); [reflexivity|].
  unfold value_start. rewrite Hc. by rewrite !orb_true_r.
Qed.

Lemma NaN_not_json : ~ json_text false (lit "NaN").
Proof.
  intros (w1 & v & w2 & Hw1 & Hv & _ & E).
  destruct (value_head v Hv) as (c & r & -> & Hc).
  destruct w1 as [|c1 w1].
  - injection E as <- _. discriminate Hc.
  - injection E as <- _. apply Forall_cons in Hw1 as [H _]. discriminate H.
Qed.

Lemma tasks_value_inj ts ts' : tasks_value ts = tasks_value ts' -> ts = ts'.
Proof.
  unfold tasks_value. intros H. injection H as H. revert ts' H.
  induction ts as [|[d b] ts IH]; intros [|[d' b'] ts'] H; try discriminate; [done|].
  injection H as -> -> H. f_equal. by apply IH.
Qed.

End json_facts.

#[local] Open Scope Z_scope.

(** ** The command engine *)

(** ** Indexing *)

Lemma norm_index_in_range (len : nat) (idx : Z) :
  1 <= idx <= Z.of_nat len ->
  norm_index len (idx - 1) = Some (Z.to_nat (idx - 1)).
Proof.
  intros H. unfold norm_index.
  destruct (Z.ltb_spec (idx - 1) 0) as [Hn|Hn]; [lia|].
  destruct (Z.ltb_spec (idx - 1) 0); [lia|].
  destruct (Z.leb_spec (Z.of_nat len) (idx - 1)); [lia|]. reflexivity.
Qed.

Lemma norm_index_from_end (len : nat) (idx : Z) :
  1 - Z.of_nat len <= idx <= 0 ->
  norm_index len (idx - 1) = Some (Z.to_nat (Z.of_nat len + idx - 1)).
Proof.
  intros H. unfold norm_index.
  destruct (Z.ltb_spec (idx - 1) 0) as [Hn|Hn]; [|lia].
  destruct (Z.ltb_spec (idx - 1 + Z.of_nat len) 0); [lia|].
  destruct (Z.leb_spec (Z.of_nat len) (idx - 1 + Z.of_nat len)); [lia|].
  simpl. do 2 f_equal. lia.
Qed.

Lemma norm_index_out_of_range (len : nat) (idx : Z) :
  idx <= - Z.of_nat len \/ Z.of_nat len < idx ->
  norm_index len (idx - 1) = None.
Proof.
  intros H. unfold norm_index.
  destruct (Z.ltb_spec (idx - 1) 0) as [Hn|Hn].
  - destruct (Z.ltb_spec (idx - 1 + Z.of_nat len) 0); [reflexivity|lia].
  - destruct (Z.ltb_spec (idx - 1) 0); [lia|].
    destruct (Z.leb_spec (Z.of_nat len) (idx - 1)); [reflexivity|lia].
Qed.

(** ** Lines that standard output takes *)

Lemma no_surrogate_app (s1 s2 : str) :
  no_surrogate (s1 ++ s2) = no_surrogate s1 && no_surrogate s2.
Proof. unfold no_surrogate. apply forallb_app. Qed.

Lemma uint_str_no_surrogate (u : Decimal.uint) : no_surrogate (uint_str u) = true.
Proof. induction u as [|u IH|u IH|u IH|u IH|u IH|u IH|u IH|u IH|u IH|u IH]; [done|exact IH..]. Qed.

Lemma str_of_int_no_surrogate (z : Z) : no_surrogate (str_of_int z) = true.
Proof. unfold str_of_int. destruct (z <? 0); apply uint_str_no_surrogate. Qed.

Lemma print_encodable (l : line) (w : World) :
  encodable l = true -> print l w = (inr tt, mkWorld (file w) (trace w ++ [Printed l])).
Proof. intros H. unfold print. by rewrite H. Qed.

Lemma print_refused (l : line) (w : World) :
  encodable l = false -> print l w = (inl UnicodeEncodeError, w).
Proof. intros H. unfold print. by rewrite H. Qed.

Lemma encodable_completed_line (idx : Z) : encodable (completed_line idx) = true.
Proof.
  unfold completed_line, encodable. cbn [forallb].
  by rewrite no_surrogate_app, str_of_int_no_surrogate.
Qed.

Lemma encodable_no_task_line (idx : Z) : encodable (no_task_line idx) = true.
Proof.
  unfold no_task_line, encodable. cbn [forallb].
  by rewrite no_surrogate_app, str_of_int_no_surrogate.
Qed.

Lemma encodable_removed_line (t : Task) : encodable (removed_line t) = true.
Proof. reflexivity. Qed.

(** ** [complete_task] and [remove_task], by the position that the index
    normalises to *)

Lemma complete_task_at (tasks : list Task) (idx : Z) (n : nat) (w : World) :
  norm_index (length tasks) (idx - 1) = Some n ->
  complete_task tasks idx w =
    (inr (alter (set_done true) n tasks),
     saved_and_printed (alter (set_done true) n tasks) (completed_line idx) w).
Proof.
  intros Hn. unfold complete_task, try_except_IndexError, bind, list_index.
  rewrite Hn. cbn [ret save_tasks write_file]. fold (completed_line idx).
  rewrite print_encodable by apply encodable_completed_line.
  unfold saved_and_printed. cbn [file trace]. by rewrite <- app_assoc.
Qed.

Lemma complete_task_refused (tasks : list Task) (idx : Z) (w : World) :
  norm_index (length tasks) (idx - 1) = None ->
  complete_task tasks idx w = (inr tasks, only_printed (no_task_line idx) w).
Proof.
  intros Hn. unfold complete_task, try_except_IndexError, bind, list_index.
  rewrite Hn. cbn [raise]. fold (no_task_line idx).
  by rewrite print_encodable by apply encodable_no_task_line.
Qed.

Lemma norm_index_lt (len : nat) (i : Z) (n : nat) :
  norm_index len i = Some n -> (n < len)%nat.
Proof.
  unfold norm_index. intros H.
  destruct (_ || _) eqn:E; [discriminate|].
  apply orb_false_iff in E as [E1 E2].
  apply Z.ltb_ge in E1. apply Z.leb_gt in E2.
  injection H as <-. lia.
Qed.

Lemma remove_task_at (tasks : list Task) (idx : Z) (n : nat) (t : Task) (w : World) :
  norm_index (length tasks) (idx - 1) = Some n ->
  tasks !! n = Some t ->
  remove_task tasks idx w =
    (inr (delete n tasks), saved_and_printed (delete n tasks) (removed_line t) w).
Proof.
  intros Hn Ht. unfold remove_task, try_except_IndexError, bind, list_pop.
  rewrite Hn, Ht. cbn [ret save_tasks write_file]. fold (removed_line t).
  rewrite print_encodable by apply encodable_removed_line.
  unfold saved_and_printed. cbn [file trace]. by rewrite <- app_assoc.
Qed.

(** An index that is out of range and fits a [Py_ssize_t] is refused. *)
Lemma remove_task_refused (tasks : list Task) (idx : Z) (w : World) :
  norm_index (length tasks) (idx - 1) = None ->
  fits_ssize_t (idx - 1) = true ->
  remove_task tasks idx w = (inr tasks, only_printed (no_task_line idx) w).
Proof.
  intros Hn Hfit. unfold remove_task, try_except_IndexError, bind, list_pop.
  rewrite Hn, Hfit. cbn [raise]. fold (no_task_line idx).
  by rewrite print_encodable by apply encodable_no_task_line.
Qed.

(** An index that is out of range and does not fit a [Py_ssize_t] leaves
    [remove_task] with [OverflowError]: nothing is printed or written. *)
Lemma remove_task_overflow (tasks : list Task) (idx : Z) (w : World) :
  norm_index (length tasks) (idx - 1) = None ->
  fits_ssize_t (idx - 1) = false ->
  remove_task tasks idx w = (inl OverflowError, w).
Proof.
  intros Hn Hfit. unfold remove_task, try_except_IndexError, bind, list_pop.
  by rewrite Hn, Hfit.
Qed.

Lemma fits_ssize_t_range (i : Z) :
  PY_SSIZE_T_MIN <= i <= PY_SSIZE_T_MAX -> fits_ssize_t i = true.
Proof.
  intros [H1 H2]. unfold fits_ssize_t.
  apply andb_true_iff. split; by apply Z.leb_le.
Qed.

(** An index above the length, or at most minus the length, that a machine
    word holds ([idx - 1] fits a [Py_ssize_t]) is refused by both commands:
    the list is returned as it was, nothing is written, and the message is
    printed.  Beyond the machine word [tasks.pop] raises [OverflowError],
    and the message itself may not be printable. *)
Lemma out_of_range_refused (tasks : list Task) (idx : Z) (w : World) :
  idx <= - Z.of_nat (length tasks) \/ Z.of_nat (length tasks) < idx ->
  PY_SSIZE_T_MIN <= idx - 1 <= PY_SSIZE_T_MAX ->
  complete_task tasks idx w = (inr tasks, only_printed (no_task_line idx) w)
  /\ remove_task tasks idx w = (inr tasks, only_printed (no_task_line idx) w).
Proof.
  intros H Hfit. apply norm_index_out_of_range in H. apply fits_ssize_t_range in Hfit.
  split; [by apply complete_task_refused | by apply remove_task_refused].
Qed.

Lemma out_of_range_refused_witness :
  complete_task [mkTask (lit "a") false] 5 (mkWorld None []) =
    (inr [mkTask (lit "a") false], only_printed (no_task_line 5) (mkWorld None []))
  /\ remove_task [mkTask (lit "a") false] 5 (mkWorld None []) =
    (inr [mkTask (lit "a") false], only_printed (no_task_line 5) (mkWorld None [])).
Proof.
  apply (out_of_range_refused [mkTask (lit "a") false] 5 (mkWorld None [])).
  - right. simpl. lia.
  - unfold PY_SSIZE_T_MIN, PY_SSIZE_T_MAX. lia.
Defined.

(** C1, at the index 0 of a one-task list: [complete_task] marks the task
    done, writes the file and prints the completion message;
    [remove_task] removes the task, writes the file and prints the removal
    message.  Neither reports that there is no task with that id. *)
Theorem index_zero_not_refused :
  let tasks := [mkTask (lit "a") false] in
  let w := mkWorld (Some (dumps_tasks tasks)) [] in
  complete_task tasks 0 w =
    (inr [mkTask (lit "a") true],
     mkWorld (Some (dumps_tasks [mkTask (lit "a") true]))
       [Wrote (dumps_tasks [mkTask (lit "a") true]);
        Printed [Text (lit "Completed task #0")]])
  /\ remove_task tasks 0 w =
    (inr [],
     mkWorld (Some (lit "[]"))
       [Wrote (lit "[]"); Printed [Text (lit "Removed: "); Repr (lit "a")]]).
Proof. split; reflexivity. Qed.

(** C3: for a valid index [i] (1 <= i <= length), [remove_task] returns a
    list one shorter, in which the tasks before position [i] are where they
    were and every task after position [i] has moved down by one; the result
    is what is written to the file. *)
Theorem remove_task_valid (tasks : list Task) (i : Z) (w : World) :
  1 <= i <= Z.of_nat (length tasks) ->
  exists tasks' removed,
    tasks !! Z.to_nat (i - 1) = Some removed
    /\ remove_task tasks i w =
         (inr tasks', saved_and_printed tasks' (removed_line removed) w)
    /\ S (length tasks') = length tasks
    /\ (forall j : nat, (j < Z.to_nat (i - 1))%nat -> tasks' !! j = tasks !! j)
    /\ (forall j : nat, (Z.to_nat (i - 1) <= j)%nat -> tasks' !! j = tasks !! S j).
Proof.
  intros Hi.
  destruct (lookup_lt_is_Some_2 tasks (Z.to_nat (i - 1))) as [t Ht]; [lia|].
  exists (delete (Z.to_nat (i - 1)) tasks), t. split; [done|]. split.
  - apply remove_task_at; [by apply norm_index_in_range | done].
  - split; [|split].
    + rewrite length_delete; [|eauto]. lia.
    + intros j Hj. by apply list_lookup_delete_lt.
    + intros j Hj. by apply list_lookup_delete_ge.
Qed.

Lemma remove_task_valid_witness :
  exists tasks' removed,
    [mkTask (lit "a") false; mkTask (lit "b") true; mkTask (lit "c") false]
      !! Z.to_nat (2 - 1) = Some removed
    /\ remove_task
         [mkTask (lit "a") false; mkTask (lit "b") true; mkTask (lit "c") false]
         2 (mkWorld None []) =
         (inr tasks', saved_and_printed tasks' (removed_line removed) (mkWorld None []))
    /\ S (length tasks') = 3%nat
    /\ (forall j : nat, (j < Z.to_nat (2 - 1))%nat ->
        tasks' !! j =
        [mkTask (lit "a") false; mkTask (lit "b") true; mkTask (lit "c") false] !! j)
    /\ (forall j : nat, (Z.to_nat (2 - 1) <= j)%nat ->
        tasks' !! j =
        [mkTask (lit "a") false; mkTask (lit "b") true; mkTask (lit "c") false] !! S j).
Proof.
  apply (remove_task_valid
           [mkTask (lit "a") false; mkTask (lit "b") true; mkTask (lit "c") false]
           2 (mkWorld None [])).
  simpl. lia.
Defined.

(** C4: for a valid index [i] (1 <= i <= length), [complete_task] returns a
    list of the same length in which the task at position [i] has its
    description and [done = true], and every other position holds the task
    it held before; the result is what is written to the file. *)
Theorem complete_task_valid (tasks : list Task) (i : Z) (w : World) :
  1 <= i <= Z.of_nat (length tasks) ->
  exists tasks' t,
    tasks !! Z.to_nat (i - 1) = Some t
    /\ complete_task tasks i w =
         (inr tasks', saved_and_printed tasks' (completed_line i) w)
    /\ length tasks' = length tasks
    /\ tasks' !! Z.to_nat (i - 1) = Some (mkTask (desc t) true)
    /\ (forall j : nat, j <> Z.to_nat (i - 1) -> tasks' !! j = tasks !! j).
Proof.
  intros Hi.
  destruct (lookup_lt_is_Some_2 tasks (Z.to_nat (i - 1))) as [t Ht]; [lia|].
  exists (alter (set_done true) (Z.to_nat (i - 1)) tasks), t.
  split; [done|]. split; [|split; [|split]].
  - apply complete_task_at. by apply norm_index_in_range.
  - apply length_alter.
  - by rewrite list_lookup_alter_eq, Ht.
  - intros j Hj. by apply list_lookup_alter_ne.
Qed.

Lemma complete_task_valid_witness :
  exists tasks' t,
    [mkTask (lit "a") false; mkTask (lit "b") false] !! Z.to_nat (2 - 1) = Some t
    /\ complete_task [mkTask (lit "a") false; mkTask (lit "b") false] 2 (mkWorld None []) =
         (inr tasks', saved_and_printed tasks' (completed_line 2) (mkWorld None []))
    /\ length tasks' = 2%nat
    /\ tasks' !! Z.to_nat (2 - 1) = Some (mkTask (desc t) true)
    /\ (forall j : nat, j <> Z.to_nat (2 - 1) ->
        tasks' !! j = [mkTask (lit "a") false; mkTask (lit "b") false] !! j).
Proof.
  apply (complete_task_valid [mkTask (lit "a") false; mkTask (lit "b") false]
           2 (mkWorld None [])).
  simpl. lia.
Defined.

(** C9, at the index [- length] of a one-task list: both commands report
    that there is no task with that id and leave the list and the file as
    they were. *)
Lemma index_minus_length_refused :
  let tasks := [mkTask (lit "a") false] in
  let w := mkWorld (Some (dumps_tasks tasks)) [] in
  complete_task tasks (- Z.of_nat (length tasks)) w =
    (inr tasks, mkWorld (file w) [Printed [Text (lit "No task with ID #-1")]])
  /\ remove_task tasks (- Z.of_nat (length tasks)) w =
    (inr tasks, mkWorld (file w) [Printed [Text (lit "No task with ID #-1")]]).
Proof. split; reflexivity. Qed.

(** C9, amended: an index [idx] with [1 - length <= idx <= 0] is not refused.
    Both commands act on the task at the 0-based position
    [length + idx - 1], which for [idx = 0] is the last one:
    [complete_task] marks it done, [remove_task] takes it out, and both
    write the resulting list to the file and print the success message.
    From [- length] down to the smallest index of which [idx - 1] fits a
    machine word, both commands report that there is no task with that id
    and leave the list and the file as they were. *)
Theorem index_from_end (tasks : list Task) (idx : Z) (w : World) :
  (1 - Z.of_nat (length tasks) <= idx <= 0 ->
   let n := Z.to_nat (Z.of_nat (length tasks) + idx - 1) in
   exists t,
     tasks !! n = Some t
     /\ (idx = 0 -> last tasks = Some t)
     /\ complete_task tasks idx w =
          (inr (alter (set_done true) n tasks),
           saved_and_printed (alter (set_done true) n tasks) (completed_line idx) w)
     /\ remove_task tasks idx w =
          (inr (delete n tasks), saved_and_printed (delete n tasks) (removed_line t) w))
  /\ (PY_SSIZE_T_MIN < idx <= - Z.of_nat (length tasks) ->
      complete_task tasks idx w = (inr tasks, only_printed (no_task_line idx) w)
      /\ remove_task tasks idx w = (inr tasks, only_printed (no_task_line idx) w)).
Proof.
  split.
  - intros Hi n.
    destruct (lookup_lt_is_Some_2 tasks n) as [t Ht]; [subst n; lia|].
    exists t. split; [done|]. split; [|split].
    + intros ->. rewrite last_lookup. rewrite <- Ht. f_equal. subst n. lia.
    + apply complete_task_at. by apply norm_index_from_end.
    + apply remove_task_at; [by apply norm_index_from_end | done].
  - intros Hi.
    assert (Hout : norm_index (length tasks) (idx - 1) = None).
    { apply norm_index_out_of_range. left. lia. }
    assert (Hfit : fits_ssize_t (idx - 1) = true).
    { apply fits_ssize_t_range. unfold PY_SSIZE_T_MIN, PY_SSIZE_T_MAX in *. lia. }
    split; [by apply complete_task_refused | by apply remove_task_refused].
Qed.

Lemma index_from_end_witness :
  let tasks := [mkTask (lit "a") false; mkTask (lit "b") false] in
  let w := mkWorld None [] in
  let n := Z.to_nat (Z.of_nat (length tasks) + 0 - 1) in
  (exists t,
     tasks !! n = Some t
     /\ (0 = 0 -> last tasks = Some t)
     /\ complete_task tasks 0 w =
          (inr (alter (set_done true) n tasks),
           saved_and_printed (alter (set_done true) n tasks) (completed_line 0) w)
     /\ remove_task tasks 0 w =
          (inr (delete n tasks), saved_and_printed (delete n tasks) (removed_line t) w))
  /\ complete_task tasks (-2) w = (inr tasks, only_printed (no_task_line (-2)) w)
  /\ remove_task tasks (-2) w = (inr tasks, only_printed (no_task_line (-2)) w).
Proof.
  split.
  - apply (index_from_end [mkTask (lit "a") false; mkTask (lit "b") false] 0 (mkWorld None [])).
    simpl. lia.
  - apply (index_from_end [mkTask (lit "a") false; mkTask (lit "b") false] (-2)
             (mkWorld None [])).
    unfold PY_SSIZE_T_MIN. simpl. lia.
Defined.

(** C10: for a valid index [i], a second [complete_task] on the list that
    the first one returned returns that same list, and it succeeds: it
    writes the file again and prints the completion message. *)
Theorem complete_task_idempotent (tasks : list Task) (i : Z) (w : World) :
  1 <= i <= Z.of_nat (length tasks) ->
  exists tasks' w',
    complete_task tasks i w = (inr tasks', w')
    /\ complete_task tasks' i w' =
         (inr tasks', saved_and_printed tasks' (completed_line i) w').
Proof.
  intros Hi.
  eexists _, _. split.
  - apply complete_task_at. by apply norm_index_in_range.
  - erewrite complete_task_at;
      [|rewrite length_alter; by apply norm_index_in_range].
    rewrite list_alter_alter_eq.
    by rewrite (list_alter_ext (set_done true ∘ set_done true) (set_done true) tasks tasks).
Qed.

Lemma complete_task_idempotent_witness :
  exists tasks' w',
    complete_task [mkTask (lit "a") false] 1 (mkWorld None []) = (inr tasks', w')
    /\ complete_task tasks' 1 w' =
         (inr tasks', saved_and_printed tasks' (completed_line 1) w').
Proof.
  apply (complete_task_idempotent [mkTask (lit "a") false] 1 (mkWorld None [])).
  simpl. lia.
Defined.

(** ** Listing *)

Lemma encodable_task_line (i : Z) (t : Task) :
  encodable (task_line i t) = no_surrogate (desc t).
Proof.
  unfold task_line, encodable. cbn [forallb].
  rewrite !no_surrogate_app, str_of_int_no_surrogate.
  change (no_surrogate (lit ". [")) with true. change (no_surrogate (lit "] ")) with true.
  assert (Hs : no_surrogate (status t) = true) by (unfold status; by destruct (done t)).
  rewrite Hs. cbn [andb]. apply andb_true_r.
Qed.

Lemma print_tasks_trace (tasks : list Task) (i : Z) (w : World) :
  Forall (fun t => no_surrogate (desc t) = true) tasks ->
  print_tasks i tasks w = (inr tt, mkWorld (file w) (trace w ++ listing i tasks)).
Proof.
  intros Hok. revert i w. induction Hok as [|t tasks Ht _ IH]; intros i w.
  - simpl. unfold ret, listing. simpl. rewrite app_nil_r. by destruct w.
  - cbn [print_tasks]. unfold bind.
    rewrite print_encodable by (by rewrite encodable_task_line).
    rewrite IH. cbn [file trace]. f_equal. f_equal.
    rewrite <- app_assoc. f_equal. unfold listing. rewrite imap_cons. simpl.
    f_equal; [by rewrite Z.add_0_r|].
    apply imap_ext. intros k x _. simpl. do 2 f_equal. lia.
Qed.

(** Whatever the descriptions hold, [print_tasks] prints lines, touches
    nothing else, and ends normally or with the [UnicodeEncodeError] of the
    first description that standard output does not take. *)
Lemma print_tasks_lines (tasks : list Task) :
  forall (i : Z) (w : World),
    exists r ls,
      print_tasks i tasks w = (r, mkWorld (file w) (trace w ++ (Printed <$> ls)))
      /\ (r = inr tt \/ r = inl UnicodeEncodeError).
Proof.
  induction tasks as [|t tasks IH]; intros i w.
  - exists (inr tt), []. split; [|by left]. simpl. unfold ret. rewrite app_nil_r. by destruct w.
  - cbn [print_tasks]. unfold bind, print.
    destruct (encodable (task_line i t)).
    + destruct (IH (i + 1) (mkWorld (file w) (trace w ++ [Printed (task_line i t)])))
        as (r & ls & E & Hr).
      exists r, (task_line i t :: ls). rewrite E. cbn [file trace].
      split; [|done]. by rewrite <- app_assoc.
    + exists (inl UnicodeEncodeError), []. split; [|by right].
      simpl. rewrite app_nil_r. by destruct w.
Qed.

(** C8, on a list whose second description holds a lone surrogate: the
    first line is printed, then [list_tasks] ends with [UnicodeEncodeError];
    the second and the third task get no line. *)
Lemma surrogate_not_listed :
  list_tasks
    [mkTask (lit "a") false; mkTask [0xDC80]%N false; mkTask (lit "c") false]
    (mkWorld None [])
  = (inl UnicodeEncodeError,
     mkWorld None [Printed [Text (lit "1. [ ] a")]]).
Proof. reflexivity. Qed.

(** C8, amended: on the empty list [list_tasks] prints the placeholder and
    nothing else; on a non-empty list in which no description holds a
    surrogate code point it prints exactly one line per task, the line of
    the task at 0-based position [k] being the decimal [k + 1], the
    completion marker between brackets and the description.  The file is
    not touched. *)
Theorem list_tasks_output (tasks : list Task) (w : World) :
  list_tasks [] w = (inr tt, mkWorld (file w) (trace w ++ [Printed placeholder]))
  /\ (tasks <> [] -> Forall (fun t => no_surrogate (desc t) = true) tasks ->
      exists out,
        list_tasks tasks w = (inr tt, mkWorld (file w) (trace w ++ out))
        /\ length out = length tasks
        /\ forall (k : nat) (t : Task), tasks !! k = Some t ->
             out !! k =
             Some (Printed
                     [Text (str_of_int (Z.of_nat k + 1) ++ lit ". ["
                            ++ (if done t then [0xE2; 0x153; 0x201C]%N else lit " ")
                            ++ lit "] " ++ desc t)])).
Proof.
  split; [reflexivity|].
  intros Hne Hok. exists (listing 1 tasks). split; [|split].
  - destruct tasks; [done|]. unfold list_tasks. by apply print_tasks_trace.
  - apply length_imap.
  - intros k t Hk. unfold listing. rewrite list_lookup_imap, Hk. simpl.
    unfold task_line, status. by rewrite (Z.add_comm 1).
Qed.

Lemma list_tasks_output_witness :
  list_tasks [] (mkWorld None []) = (inr tt, mkWorld None [Printed placeholder])
  /\ exists out,
       list_tasks [mkTask (lit "a") true] (mkWorld None []) = (inr tt, mkWorld None out)
       /\ length out = 1%nat
       /\ forall (k : nat) (t : Task), [mkTask (lit "a") true] !! k = Some t ->
            out !! k =
            Some (Printed
                    [Text (str_of_int (Z.of_nat k + 1) ++ lit ". ["
                           ++ (if done t then [0xE2; 0x153; 0x201C]%N else lit " ")
                           ++ lit "] " ++ desc t)]).
Proof.
  destruct (list_tasks_output [mkTask (lit "a") true] (mkWorld None [])) as [He Hn].
  split; [exact He|]. apply Hn; [discriminate|].
  apply Forall_cons_2; [reflexivity|apply Forall_nil_2].
Defined.

(** ** Adding *)

Lemma add_task_appends (tasks : list Task) (d : str) (w : World) :
  add_task tasks d w =
    (inr (tasks ++ [mkTask d false]),
     saved_and_printed (tasks ++ [mkTask d false]) [Text (lit "Added: "); Repr d] w).
Proof.
  unfold add_task, bind, save_tasks, write_file, ret, saved_and_printed.
  rewrite print_encodable by reflexivity. cbn [file trace].
  by rewrite <- app_assoc.
Qed.

Lemma add_all_result (ds : list str) (tasks : list Task) (w : World) :
  exists w',
    add_all tasks ds w = (inr (tasks ++ ((fun d => mkTask d false) <$> ds)), w')
    /\ (ds <> [] ->
        file w' = Some (dumps_tasks (tasks ++ ((fun d => mkTask d false) <$> ds)))).
Proof.
  revert tasks w. induction ds as [|d ds IH]; intros tasks w.
  - exists w. simpl. rewrite app_nil_r. split; [done|congruence].
  - simpl. unfold bind. rewrite add_task_appends.
    destruct (IH (tasks ++ [mkTask d false])
                (saved_and_printed (tasks ++ [mkTask d false])
                   [Text (lit "Added: "); Repr d] w)) as (w' & Hrun & Hfile).
    exists w'. rewrite <- app_assoc in Hrun, Hfile. simpl in Hrun, Hfile.
    split; [exact Hrun|]. intros _.
    destruct ds as [|d' ds]; [|apply Hfile; discriminate].
    simpl in Hrun. injection Hrun as <-. reflexivity.
Qed.

(** C5, on one description that holds a lone surrogate, as [sys.argv] gives
    it for a byte that is no UTF-8: [add_task] appends and saves the task,
    and [list_tasks] on the list that [add_task] returned prints no line
    and ends with [UnicodeEncodeError]. *)
Lemma surrogate_added_not_listed :
  exists w1,
    add_task [] [0xDC80]%N (mkWorld None []) = (inr [mkTask [0xDC80]%N false], w1)
    /\ list_tasks [mkTask [0xDC80]%N false] w1 = (inl UnicodeEncodeError, w1).
Proof. eexists. split; reflexivity. Qed.

(** C5, amended: one [add_task] returns the list with a new task,
    [done = false], at the end.  So a sequence of adds, started from any
    list, returns that list followed by one undone task per description, in
    the order of the adds; and when no description of the result holds a
    surrogate code point, [list_tasks] on the result prints the task at
    0-based position [k] on the line numbered [k + 1]. *)
Theorem add_sequence_listed (tasks : list Task) (ds : list str) (w : World) :
  let final := tasks ++ ((fun d => mkTask d false) <$> ds) in
  (forall d w0,
      exists w1, add_task tasks d w0 = (inr (tasks ++ [mkTask d false]), w1)
                 /\ file w1 = Some (dumps_tasks (tasks ++ [mkTask d false])))
  /\ exists w',
      add_all tasks ds w = (inr final, w')
      /\ desc <$> final = (desc <$> tasks) ++ ds
      /\ (Forall (fun t => no_surrogate (desc t) = true) final ->
          exists out,
            list_tasks final w' = (inr tt, mkWorld (file w') (trace w' ++ out))
            /\ forall (k : nat) (t : Task), final !! k = Some t ->
                 out !! k =
                 Some (Printed
                         [Text (str_of_int (Z.of_nat k + 1) ++ lit ". [" ++ status t
                                ++ lit "] " ++ desc t)])).
Proof.
  intros final. split.
  - intros d w0. eexists. split; [apply add_task_appends|reflexivity].
  - destruct (add_all_result ds tasks w) as (w' & Hrun & _).
    exists w'. split; [exact Hrun|]. split.
    + subst final. rewrite fmap_app. f_equal.
      rewrite <- list_fmap_compose. simpl. apply list_fmap_id.
    + intros Hok. destruct final as [|t0 rest] eqn:E.
      * exists [Printed placeholder]. split; [reflexivity|].
        intros k t Hk. by rewrite lookup_nil in Hk.
      * exists (listing 1 (t0 :: rest)). split.
        -- unfold list_tasks. by apply print_tasks_trace.
        -- intros k t Hk. unfold listing. rewrite list_lookup_imap, Hk. simpl.
           unfold task_line. by rewrite (Z.add_comm 1).
Qed.

Lemma add_sequence_listed_witness :
  let tasks := [mkTask (lit "a") true] in
  let ds := [lit "b"; [233; 0x1F600]%N] in
  let final := tasks ++ ((fun d => mkTask d false) <$> ds) in
  exists w' out,
    add_all tasks ds (mkWorld None []) = (inr final, w')
    /\ list_tasks final w' = (inr tt, mkWorld (file w') (trace w' ++ out))
    /\ forall (k : nat) (t : Task), final !! k = Some t ->
         out !! k =
         Some (Printed
                 [Text (str_of_int (Z.of_nat k + 1) ++ lit ". [" ++ status t
                        ++ lit "] " ++ desc t)]).
Proof.
  destruct (add_sequence_listed [mkTask (lit "a") true] [lit "b"; [233; 0x1F600]%N]
              (mkWorld None [])) as (_ & w' & Hrun & _ & Hlist).
  destruct Hlist as (out & Hout & Hlines).
  { repeat (apply Forall_cons_2; [reflexivity|]). apply Forall_nil_2. }
  by exists w', out.
Defined.

(** ** The text box *)

Lemma lstrip_split (s : str) :
  exists p, s = p ++ lstrip s /\ Forall (fun c => isspace c = true) p.
Proof.
  induction s as [|c s (p & E & Hp)].
  - exists []. split; [done|constructor].
  - simpl. destruct (isspace c) eqn:Ec.
    + exists (c :: p). split; [simpl; by f_equal|by constructor].
    + exists []. split; [done|constructor].
Qed.

Lemma lstrip_head (s : str) (c : N) (r : str) :
  lstrip s = c :: r -> isspace c = false.
Proof.
  induction s as [|d s IH]; [done|]. simpl.
  destruct (isspace d) eqn:Ed; [done|]. by intros [= <- _].
Qed.

Lemma lstrip_nil_iff (s : str) :
  lstrip s = [] <-> Forall (fun c => isspace c = true) s.
Proof.
  split.
  - intros H. destruct (lstrip_split s) as (p & E & Hp).
    rewrite H, app_nil_r in E. by subst.
  - induction 1 as [|c s Hc _ IH]; [done|]. simpl. by rewrite Hc.
Qed.

Lemma strip_nil_iff (s : str) :
  strip s = [] <-> Forall (fun c => isspace c = true) s.
Proof.
  unfold strip, rstrip. split.
  - intros H. apply (f_equal (@rev N)) in H. rewrite rev_involutive in H. simpl in H.
    apply lstrip_nil_iff in H. apply Forall_rev in H. rewrite rev_involutive in H.
    destruct (lstrip s) as [|c r] eqn:E; [by apply lstrip_nil_iff|].
    apply lstrip_head in E. apply Forall_cons in H as [H _]. congruence.
  - intros H. apply lstrip_nil_iff in H. rewrite H. reflexivity.
Qed.

Lemma all_space_or_visible (l : str) :
  Forall (fun c => isspace c = true) l \/ Exists (fun c => isspace c = false) l.
Proof.
  induction l as [|c l [IH|IH]].
  - left. constructor.
  - destruct (isspace c) eqn:Ec; [left|right]; by constructor.
  - right. by apply Exists_cons_tl.
Qed.

Lemma nonblank_visible (l : str) :
  nonblank l = true <-> Exists (fun c => isspace c = false) l.
Proof.
  unfold nonblank. split.
  - intros H. destruct (all_space_or_visible l) as [HF|HE]; [|done].
    apply strip_nil_iff in HF. by rewrite HF in H.
  - intros H. destruct (strip l) eqn:E; [|done].
    apply strip_nil_iff in E. apply Exists_exists in H as (c & Hc & Hs).
    rewrite Forall_forall in E. specialize (E c Hc). congruence.
Qed.

Lemma splitlines_from_no_break (n : nat) :
  forall s cur,
    (length s <= n)%nat ->
    Forall (fun c => islinebreak c = false) cur ->
    Forall (Forall (fun c => islinebreak c = false)) (splitlines_from cur s).
Proof.
  induction n as [|n IH]; intros s cur Hn Hcur.
  - destruct s; [|simpl in Hn; lia]. simpl. destruct cur; [constructor|].
    constructor; [by apply Forall_rev|constructor].
  - destruct s as [|c s].
    + simpl. destruct cur; [constructor|].
      constructor; [by apply Forall_rev|constructor].
    + simpl in Hn. cbn [splitlines_from]. destruct (islinebreak c) eqn:Ec.
      * destruct s as [|d s'].
        -- constructor; [by apply Forall_rev|constructor].
        -- simpl in Hn.
           destruct ((c =? 13)%N && (d =? 10)%N);
             (constructor; [by apply Forall_rev|]);
             (apply IH; [simpl; lia|constructor]).
      * apply IH; [lia|by constructor].
Qed.

Lemma splitlines_no_break (s : str) :
  Forall (Forall (fun c => islinebreak c = false)) (splitlines s).
Proof. apply (splitlines_from_no_break (length s)); [done|constructor]. Qed.

Lemma nonblank_existsb (l : str) : nonblank l = existsb visible l.
Proof.
  destruct (nonblank l) eqn:E; symmetry.
  - apply nonblank_visible in E. apply existsb_exists.
    apply Exists_exists in E as (c & Hc & Hs). exists c. split; [by apply list_elem_of_In|].
    unfold visible. by rewrite Hs.
  - apply not_true_iff_false. intros H. apply existsb_exists in H as (c & Hc & Hs).
    assert (nonblank l = true); [|congruence].
    apply nonblank_visible, Exists_exists. exists c. split; [by apply list_elem_of_In|].
    unfold visible in Hs. by apply negb_true_iff.
Qed.

Lemma existsb_visible_space (l : str) :
  Forall (fun c => isspace c = true) l -> existsb visible l = false.
Proof.
  induction 1 as [|c l Hc _ IH]; [done|]. simpl. unfold visible at 1. by rewrite Hc.
Qed.

Lemma nonblank_space (l : str) :
  Forall (fun c => isspace c = true) l -> nonblank l = false.
Proof. intros H. rewrite nonblank_existsb. by apply existsb_visible_space. Qed.

Lemma existsb_reverse {A} (f : A -> bool) (l : list A) :
  existsb f (rev l) = existsb f l.
Proof.
  induction l as [|x l IH]; [done|]. simpl. rewrite existsb_app, IH. simpl.
  rewrite orb_false_r. apply orb_comm.
Qed.

Lemma nonblank_rev_pad (cur1 cur0 : str) :
  Forall (fun c => isspace c = true) cur0 ->
  nonblank (rev (cur1 ++ cur0)) = nonblank (rev cur1).
Proof.
  intros H. rewrite !nonblank_existsb, !existsb_reverse, existsb_app.
  rewrite (existsb_visible_space cur0 H). by rewrite orb_false_r.
Qed.

Lemma nonblank_rev_pad_front (q cur : str) :
  Forall (fun c => isspace c = true) q ->
  nonblank (rev (q ++ cur)) = nonblank (rev cur).
Proof.
  intros H. rewrite !nonblank_existsb, !existsb_reverse, existsb_app.
  by rewrite (existsb_visible_space q H).
Qed.

Lemma linebreak_isspace (c : N) : islinebreak c = true -> isspace c = true.
Proof.
  unfold islinebreak, isspace. intros H.
  repeat match type of H with
         | (_ || _) = true => apply orb_true_iff in H as [H|H]
         | (_ && _) = true => apply andb_true_iff in H as [? ?]
         end;
    repeat match goal with
           | H : (_ <=? _)%N = true |- _ => apply N.leb_le in H
           | H : (_ =? _)%N = true |- _ => apply N.eqb_eq in H; subst
           end;
    try reflexivity.
  - replace ((9 <=? c)%N && (c <=? 13)%N) with true; [done|].
    symmetry. apply andb_true_iff. split; apply N.leb_le; lia.
  - replace ((28 <=? c)%N && (c <=? 32)%N) with true; [by rewrite orb_true_r|].
    symmetry. apply andb_true_iff. split; apply N.leb_le; lia.
Qed.

Lemma nonblank_lines_cons (l : str) (ls : list str) :
  nonblank_lines (l :: ls) = ((if nonblank l then 1 else 0) + nonblank_lines ls)%nat.
Proof. unfold nonblank_lines. simpl. by destruct (nonblank l). Qed.

Lemma nonblank_lines_end (cur : str) :
  nonblank_lines (splitlines_from cur []) = if nonblank (rev cur) then 1%nat else 0%nat.
Proof.
  destruct cur as [|c cur]; [reflexivity|].
  cbn [splitlines_from]. rewrite nonblank_lines_cons. unfold nonblank_lines. simpl. lia.
Qed.

Lemma visible_not_linebreak (c : N) : isspace c = false -> islinebreak c = false.
Proof.
  intros H. destruct (islinebreak c) eqn:E; [|done].
  apply linebreak_isspace in E. congruence.
Qed.

(** Whitespace in front of a line that has a visible character does not
    change the count. *)
Lemma pad_after_visible (r : str) :
  forall cur1 cur0,
    existsb visible cur1 = true ->
    Forall (fun c => isspace c = true) cur0 ->
    nonblank_lines (splitlines_from (cur1 ++ cur0) r)
    = nonblank_lines (splitlines_from cur1 r).
Proof.
  induction r as [|c r IH]; intros cur1 cur0 Hv Hs.
  - rewrite !nonblank_lines_end. by rewrite nonblank_rev_pad.
  - cbn [splitlines_from]. destruct (islinebreak c).
    + destruct r as [|d r'].
      * rewrite !nonblank_lines_cons. by rewrite nonblank_rev_pad.
      * destruct ((c =? 13)%N && (d =? 10)%N);
          rewrite !nonblank_lines_cons; by rewrite nonblank_rev_pad.
    + apply (IH (c :: cur1) cur0); [|done]. simpl. by rewrite Hv, orb_true_r.
Qed.

Lemma leading_space_start (s cur : str) :
  Forall (fun c => isspace c = true) cur -> starts_visible s ->
  nonblank_lines (splitlines_from cur s) = nonblank_lines (splitlines_from [] s).
Proof.
  intros Hcur Hs. destruct s as [|c r].
  - rewrite !nonblank_lines_end. rewrite nonblank_space; [done|].
    by apply Forall_rev.
  - simpl in Hs. cbn [splitlines_from]. rewrite (visible_not_linebreak c Hs).
    apply (pad_after_visible r [c] cur); [|done].
    simpl. unfold visible. by rewrite Hs.
Qed.

Lemma leading_space (n : nat) :
  forall p s cur,
    (length p <= n)%nat ->
    Forall (fun c => isspace c = true) p ->
    Forall (fun c => isspace c = true) cur ->
    starts_visible s ->
    nonblank_lines (splitlines_from cur (p ++ s))
    = nonblank_lines (splitlines_from [] s).
Proof.
  induction n as [|n IH]; intros p s cur Hn Hp Hcur Hs.
  { destruct p; [|simpl in Hn; lia]. by apply leading_space_start. }
  destruct p as [|c p]; [by apply leading_space_start|].
  apply Forall_cons in Hp as [Hc Hp]. simpl in Hn.
  assert (Hblank : nonblank (rev cur) = false) by (apply nonblank_space; by apply Forall_rev).
  simpl app. cbn [splitlines_from]. destruct (islinebreak c).
  - destruct p as [|d p'].
    + simpl app. destruct s as [|d s'].
      * rewrite nonblank_lines_cons, Hblank. reflexivity.
      * simpl in Hs.
        assert (Hd : (d =? 10)%N = false).
        { apply N.eqb_neq. intros ->. discriminate Hs. }
        rewrite Hd, andb_false_r. by rewrite nonblank_lines_cons, Hblank.
    + simpl app. apply Forall_cons in Hp as [Hd Hp']. simpl in Hn.
      destruct ((c =? 13)%N && (d =? 10)%N); rewrite nonblank_lines_cons, Hblank;
        cbn [Nat.add].
      * apply IH; [lia|done|constructor|done].
      * apply (IH (d :: p')); [simpl; lia|by constructor|constructor|done].
  - apply IH; [lia|done|by constructor|done].
Qed.

Lemma trailing_space_end (n : nat) :
  forall q cur,
    (length q <= n)%nat ->
    Forall (fun c => isspace c = true) q ->
    nonblank_lines (splitlines_from cur q) = nonblank_lines (splitlines_from cur []).
Proof.
  induction n as [|n IH]; intros q cur Hn Hq.
  { destruct q; [done|simpl in Hn; lia]. }
  destruct q as [|c q]; [done|].
  apply Forall_cons in Hq as [Hc Hq]. simpl in Hn.
  rewrite nonblank_lines_end. cbn [splitlines_from]. destruct (islinebreak c).
  - destruct q as [|d q'].
    + rewrite nonblank_lines_cons. unfold nonblank_lines. simpl. lia.
    + apply Forall_cons in Hq as [Hd Hq']. simpl in Hn.
      destruct ((c =? 13)%N && (d =? 10)%N); rewrite nonblank_lines_cons.
      * rewrite (IH q' []); [|lia|done]. unfold nonblank_lines. simpl. lia.
      * rewrite (IH (d :: q') []); [|simpl; lia|by constructor].
        unfold nonblank_lines. simpl. lia.
  - rewrite (IH q (c :: cur)); [|lia|done]. rewrite nonblank_lines_end.
    change (c :: cur) with ([c] ++ cur).
    rewrite nonblank_rev_pad_front; [done|]. by constructor.
Qed.

Lemma ends_visible_tail (c : N) (t : str) : ends_visible (c :: t) -> ends_visible t.
Proof. unfold ends_visible. destruct t; [done|]. by rewrite last_cons_cons. Qed.

Lemma trailing_space (n : nat) :
  forall t q cur,
    (length t <= n)%nat ->
    Forall (fun c => isspace c = true) q ->
    ends_visible t ->
    nonblank_lines (splitlines_from cur (t ++ q))
    = nonblank_lines (splitlines_from cur t).
Proof.
  induction n as [|n IH]; intros t q cur Hn Hq Ht.
  { destruct t; [|simpl in Hn; lia]. by apply (trailing_space_end (length q)). }
  destruct t as [|c t]; [by apply (trailing_space_end (length q))|].
  simpl in Hn. simpl app. cbn [splitlines_from].
  destruct (islinebreak c) eqn:Ec.
  - destruct t as [|d t'].
    + apply linebreak_isspace in Ec. unfold ends_visible in Ht. simpl in Ht. congruence.
    + simpl app. cbv beta iota. simpl in Hn. apply ends_visible_tail in Ht.
      destruct ((c =? 13)%N && (d =? 10)%N); rewrite !nonblank_lines_cons; f_equal.
      * apply IH; [lia|done|by apply ends_visible_tail in Ht].
      * by apply (IH (d :: t')); [simpl; lia|..].
  - apply IH; [lia|done|by apply ends_visible_tail in Ht].
Qed.

Lemma rstrip_split (s : str) :
  exists q, s = rstrip s ++ q /\ Forall (fun c => isspace c = true) q
            /\ ends_visible (rstrip s).
Proof.
  unfold rstrip. destruct (lstrip_split (rev s)) as (p & E & Hp).
  exists (rev p). split; [|split].
  - rewrite <- rev_app_distr, <- E. by rewrite rev_involutive.
  - by apply Forall_rev.
  - unfold ends_visible. destruct (lstrip (rev s)) as [|c r] eqn:El; [done|].
    simpl. rewrite last_snoc. by apply lstrip_head in El.
Qed.

(** [strip] removes no non-blank line and adds none. *)
Lemma strip_keeps_nonblank_lines (s : str) :
  nonblank_lines (splitlines (strip s)) = nonblank_lines (splitlines s).
Proof.
  unfold splitlines, strip.
  destruct (lstrip_split s) as (p & Es & Hp).
  destruct (rstrip_split (lstrip s)) as (q & Eq & Hq & Hend).
  assert (Hstart : starts_visible (lstrip s)).
  { unfold starts_visible. destruct (lstrip s) eqn:E; [done|]. by apply lstrip_head in E. }
  rewrite Es at 2.
  rewrite (leading_space (length p) p (lstrip s) []); [|done|done|constructor|done].
  rewrite Eq at 2.
  by rewrite (trailing_space (length (rstrip (lstrip s)))).
Qed.

(** C7: whatever the list held, [save_text] returns one task per non-blank
    line of the text, in order and each with [done = false], and writes
    exactly that list to the file.  The descriptions are the non-blank lines
    of the stripped text: each has a visible character and no line break.
    No [done = true] survives, since the result does not depend on the
    list that was there. *)
Theorem save_text_resync (content : str) (tasks : list Task) (w : World) :
  exists tasks',
    save_text content tasks w =
      (inr tasks',
       mkWorld (Some (dumps_tasks tasks')) (trace w ++ [Wrote (dumps_tasks tasks')]))
    /\ desc <$> tasks' = List.filter nonblank (splitlines (strip content))
    /\ length tasks' = nonblank_lines (splitlines content)
    /\ Forall (fun t => done t = false
                        /\ Exists (fun c => isspace c = false) (desc t)
                        /\ Forall (fun c => islinebreak c = false) (desc t)) tasks'
    /\ save_text content tasks w = save_text content [] w.
Proof.
  exists ((fun l => mkTask l false) <$> List.filter nonblank (splitlines (strip content))).
  split; [reflexivity|]. split; [|split; [|split]].
  - rewrite <- list_fmap_compose. apply list_fmap_id.
  - rewrite length_fmap. apply strip_keeps_nonblank_lines.
  - apply Forall_fmap, Forall_forall. intros l Hl. simpl.
    apply list_elem_of_In, filter_In in Hl as [Hin Hnb].
    split; [done|]. split; [by apply nonblank_visible|].
    pose proof (splitlines_no_break (strip content)) as Hall.
    rewrite Forall_forall in Hall. apply Hall. by apply list_elem_of_In.
  - reflexivity.
Qed.

(** ** The store *)

Lemma save_tasks_writes (tasks : list Task) (w : World) :
  save_tasks tasks w =
    (inr tt, mkWorld (Some (dumps_tasks tasks)) (trace w ++ [Wrote (dumps_tasks tasks)])).
Proof. reflexivity. Qed.

Lemma load_tasks_reads (content : str) (w : World) :
  file w = Some content ->
  load_tasks w =
    match loads content with
    | POk v => (inr v, w)
    | PErr msg => (inl (JSONDecodeError msg), w)
    | PFuel => (inl RecursionError, w)
    end.
Proof.
  intros H. unfold load_tasks, bind, path_exists, read_file, json_load. rewrite H. simpl.
  rewrite H. by destruct (loads content).
Qed.

(** C2, on a description made of a high surrogate followed by a low
    surrogate, two code points: the file holds two [\uXXXX] escapes, which
    [load_tasks] reads back as the one code point [U+1F600].  What is loaded
    is not the list that was saved. *)
Lemma split_pair_not_restored :
  exists w',
    save_tasks [mkTask [0xD83D; 0xDE00]%N false] (mkWorld None []) = (inr tt, w')
    /\ load_tasks w' = (inr (tasks_value [mkTask [0x1F600]%N false]), w')
    /\ tasks_value [mkTask [0x1F600]%N false]
        <> tasks_value [mkTask [0xD83D; 0xDE00]%N false].
Proof.
  eexists. split; [reflexivity|]. split; [reflexivity|]. discriminate.
Qed.

(** C2, amended: when no description holds a high surrogate directly
    followed by a low surrogate (so for every list of well-formed Unicode
    text), [save_tasks] followed by [load_tasks] returns the Python value of
    the list that was saved, and that value is the value of no other list. *)
Theorem save_load_roundtrip (tasks : list Task) (w : World) :
  Forall (fun t => text_ok (desc t)) tasks ->
  exists w',
    save_tasks tasks w = (inr tt, w')
    /\ load_tasks w' = (inr (tasks_value tasks), w')
    /\ forall tasks', load_tasks w' = (inr (tasks_value tasks'), w') -> tasks' = tasks.
Proof.
  intros Hok. eexists. split; [apply save_tasks_writes|].
  assert (Hload : load_tasks (mkWorld (Some (dumps_tasks tasks))
                                (trace w ++ [Wrote (dumps_tasks tasks)]))
                  = (inr (tasks_value tasks),
                     mkWorld (Some (dumps_tasks tasks))
                       (trace w ++ [Wrote (dumps_tasks tasks)]))).
  { erewrite load_tasks_reads; [|reflexivity]. by rewrite loads_dumps_tasks. }
  split; [exact Hload|].
  intros tasks' H. rewrite Hload in H.
  assert (E : tasks_value tasks = tasks_value tasks') by congruence.
  symmetry. by apply tasks_value_inj.
Qed.

Lemma save_load_roundtrip_witness :
  exists w',
    save_tasks
      [mkTask (lit "buy milk") false; mkTask [0x1F600; 233; 34; 10; 0xD800]%N true]
      (mkWorld None []) = (inr tt, w')
    /\ load_tasks w' =
         (inr (tasks_value
                 [mkTask (lit "buy milk") false;
                  mkTask [0x1F600; 233; 34; 10; 0xD800]%N true]), w')
    /\ forall tasks',
         load_tasks w' = (inr (tasks_value tasks'), w') ->
         tasks' =
         [mkTask (lit "buy milk") false; mkTask [0x1F600; 233; 34; 10; 0xD800]%N true].
Proof.
  apply (save_load_roundtrip
           [mkTask (lit "buy milk") false; mkTask [0x1F600; 233; 34; 10; 0xD800]%N true]
           (mkWorld None [])).
  repeat first [apply Forall_nil | apply Forall_cons_2 | split | reflexivity].
Defined.

(** C6, on the file content [NaN]: it is no JSON text of RFC 8259, and
    [load_tasks] returns a value, the float that Python reads there. *)
Lemma NaN_is_loaded :
  ~ json_text false (lit "NaN")
  /\ load_tasks (mkWorld (Some (lit "NaN")) []) =
       (inr (PFloat (lit "NaN")), mkWorld (Some (lit "NaN")) []).
Proof. split; [apply NaN_not_json|reflexivity]. Qed.

(** C6, amended: without the file [load_tasks] returns the empty list; with
    a file whose content is no JSON text, where JSON is RFC 8259 extended
    with the literals [NaN], [Infinity] and [-Infinity] that Python's decoder
    takes, it returns no value: it ends with an exception.  In both cases
    the world is left as it was.  The exception is the parse error of the
    decoder unless a limit of the interpreter is met before the place of
    the error, which is why the statement does not name it. *)
Theorem load_tasks_outcome (w : World) :
  (file w = None -> load_tasks w = (inr (PList []), w))
  /\ (forall content : str,
        file w = Some content -> ~ json_text true content ->
        exists e, load_tasks w = (inl e, w)).
Proof.
  split.
  - intros H. unfold load_tasks, bind, path_exists. by rewrite H.
  - intros content H Hbad. rewrite (load_tasks_reads content w H).
    pose proof (loads_res content) as Hres.
    destruct (loads content) as [v|msg|]; [done|by eexists|done].
Qed.

Lemma load_tasks_outcome_witness :
  load_tasks (mkWorld None []) = (inr (PList []), mkWorld None [])
  /\ exists e,
       load_tasks (mkWorld (Some []) []) = (inl e, mkWorld (Some []) []).
Proof.
  destruct (load_tasks_outcome (mkWorld None [])) as [Hnone _].
  destruct (load_tasks_outcome (mkWorld (Some []) [])) as [_ Hsome].
  split; [by apply Hnone|]. apply (Hsome []); [reflexivity|].
  intros (w1 & v & w2 & _ & Hv & _ & E). apply value_nonempty in Hv.
  destruct w1, v; done.
Defined.

(** ** The scenarios of the specification *)

(** From an empty store: [add "buy milk"] leaves one task, not done, in the
    list and in the file; [complete 1] marks it done; [remove 1] leaves the
    list and the store empty. *)
Theorem scenario_add_complete_remove :
  exists w1 w2 w3,
    load_tasks (mkWorld None []) = (inr (PList []), mkWorld None [])
    /\ add_task [] (lit "buy milk") (mkWorld None []) =
         (inr [mkTask (lit "buy milk") false], w1)
    /\ load_tasks w1 = (inr (tasks_value [mkTask (lit "buy milk") false]), w1)
    /\ complete_task [mkTask (lit "buy milk") false] 1 w1 =
         (inr [mkTask (lit "buy milk") true], w2)
    /\ load_tasks w2 = (inr (tasks_value [mkTask (lit "buy milk") true]), w2)
    /\ remove_task [mkTask (lit "buy milk") true] 1 w2 = (inr [], w3)
    /\ file w3 = Some (lit "[]")
    /\ load_tasks w3 = (inr (PList []), w3).
Proof. eexists _, _, _. repeat split; vm_compute; reflexivity. Qed.

(** [complete 5] on a one-task list prints [No task with ID #5], writes
    nothing, and leaves the list with its one task. *)
Theorem scenario_complete_5 (t : Task) (w : World) :
  complete_task [t] 5 w =
    (inr [t], mkWorld (file w) (trace w ++ [Printed [Text (lit "No task with ID #5")]])).
Proof. reflexivity. Qed.

(** ** The commands, whatever the index *)

Lemma in_step_refl tasks f : in_step tasks f tasks f.
Proof. by right. Qed.

Lemma in_step_trans t0 f0 t1 f1 t2 f2 :
  in_step t0 f0 t1 f1 -> in_step t1 f1 t2 f2 -> in_step t0 f0 t2 f2.
Proof. intros H1 [H2|[-> ->]]; [by left|done]. Qed.

(** The three commands that change the list, run on any world: the list
    they return is the one they wrote, or the one they were given with
    nothing written. *)
Lemma add_task_outcome tasks d w :
  exists l, add_task tasks d w
            = (inr (tasks ++ [mkTask d false]),
               saved_and_printed (tasks ++ [mkTask d false]) l w).
Proof. eexists. apply add_task_appends. Qed.

Lemma complete_task_outcome tasks idx w :
  (exists tasks' l, complete_task tasks idx w = (inr tasks', saved_and_printed tasks' l w))
  \/ (exists l, complete_task tasks idx w = (inr tasks, only_printed l w)).
Proof.
  destruct (norm_index (length tasks) (idx - 1)) as [n|] eqn:E.
  - left. eexists _, _. by apply complete_task_at.
  - right. eexists. by apply complete_task_refused.
Qed.

Lemma remove_task_outcome tasks idx w :
  (exists tasks' l, remove_task tasks idx w = (inr tasks', saved_and_printed tasks' l w))
  \/ (exists l, remove_task tasks idx w = (inr tasks, only_printed l w))
  \/ (remove_task tasks idx w = (inl OverflowError, w) /\ fits_ssize_t (idx - 1) = false).
Proof.
  destruct (norm_index (length tasks) (idx - 1)) as [n|] eqn:E.
  - left. pose proof (norm_index_lt _ _ _ E) as Hn.
    destruct (lookup_lt_is_Some_2 tasks n Hn) as [t Ht].
    eexists _, _. by eapply remove_task_at.
  - right. destruct (fits_ssize_t (idx - 1)) eqn:Hfit.
    + left. eexists. by apply remove_task_refused.
    + right. split; [by apply remove_task_overflow|done].
Qed.

(** For every index of at most 640 digits, in range or not,
    [complete_task] returns normally; the list it returns has the
    descriptions of the one it was given, in order, no task that was done is
    not done in it, and the file is in step with it.  The bound is the
    number of digits that [str(idx)] writes whatever the digit limit of the
    interpreter is; the message for an index of more digits may raise
    [ValueError], which the embedding does not follow. *)
Theorem complete_task_frame (tasks : list Task) (idx : Z) (w : World) :
  Z.abs idx < 10 ^ 640 ->
  exists tasks' w',
    complete_task tasks idx w = (inr tasks', w')
    /\ desc <$> tasks' = desc <$> tasks
    /\ Forall2 (fun t t' => done t = true -> done t' = true) tasks tasks'
    /\ in_step tasks (file w) tasks' (file w').
Proof.
  intros _.
  assert (Hsame : Forall2 (fun t t' : Task => done t = true -> done t' = true) tasks tasks).
  { by apply Forall_Forall2_diag, Forall_true. }
  destruct (norm_index (length tasks) (idx - 1)) as [n|] eqn:E.
  - eexists _, _. split; [by apply complete_task_at|]. split; [|split].
    + rewrite (list_fmap_alter desc (set_done true) id); [|by apply Forall_true].
      by apply list_alter_id.
    + apply Forall2_alter_r; [done|]. by intros x y _ _ _ _.
    + by left.
  - eexists _, _. split; [by apply complete_task_refused|]. split; [done|].
    split; [done|]. right. by split.
Qed.

Lemma complete_task_frame_witness :
  exists tasks' w',
    complete_task [mkTask (lit "a") true; mkTask (lit "b") false] (-1) (mkWorld None [])
    = (inr tasks', w')
    /\ desc <$> tasks' = desc <$> [mkTask (lit "a") true; mkTask (lit "b") false]
    /\ Forall2 (fun t t' => done t = true -> done t' = true)
         [mkTask (lit "a") true; mkTask (lit "b") false] tasks'
    /\ in_step [mkTask (lit "a") true; mkTask (lit "b") false] (file (mkWorld None []))
         tasks' (file w').
Proof. apply complete_task_frame. reflexivity. Defined.

(** Whatever the index, [remove_task] returns normally or ends with the
    [OverflowError] of [tasks.pop].  When it returns, the list it returns is
    the one it was given, or that list without one of its tasks, the others
    in their order, and the file is in step with it.  When it raises, the
    index less one does not fit a machine word, and nothing was printed or
    written. *)
Theorem remove_task_frame (tasks : list Task) (idx : Z) (w : World) :
  (exists tasks' w',
     remove_task tasks idx w = (inr tasks', w')
     /\ (tasks' = tasks \/ exists n t, tasks !! n = Some t /\ tasks' = delete n tasks)
     /\ tasks' `sublist_of` tasks
     /\ in_step tasks (file w) tasks' (file w'))
  \/ (remove_task tasks idx w = (inl OverflowError, w)
      /\ ~ (PY_SSIZE_T_MIN <= idx - 1 <= PY_SSIZE_T_MAX)).
Proof.
  destruct (norm_index (length tasks) (idx - 1)) as [n|] eqn:E.
  - left. pose proof (norm_index_lt _ _ _ E) as Hn.
    destruct (lookup_lt_is_Some_2 tasks n Hn) as [t Ht].
    eexists _, _. split; [by eapply remove_task_at|]. split; [|split].
    + right. by exists n, t.
    + apply sublist_delete.
    + by left.
  - destruct (fits_ssize_t (idx - 1)) eqn:Hfit.
    + left. eexists _, _. split; [by apply remove_task_refused|]. split; [by left|].
      split; [done|]. right. by split.
    + right. split; [by apply remove_task_overflow|].
      intros Hr. apply fits_ssize_t_range in Hr. congruence.
Qed.

(** [remove] with the number of the task that [add] has just appended
    undoes the [add]: the list and the file are those of the list before. *)
Theorem add_then_remove (tasks : list Task) (d : str) (w : World) :
  bind (add_task tasks d)
    (fun tasks' => remove_task tasks' (Z.of_nat (length tasks'))) w
  = (inr tasks,
     mkWorld (Some (dumps_tasks tasks))
       (trace w
        ++ [Wrote (dumps_tasks (tasks ++ [mkTask d false]));
            Printed [Text (lit "Added: "); Repr d];
            Wrote (dumps_tasks tasks);
            Printed [Text (lit "Removed: "); Repr d]])).
Proof.
  unfold bind at 1. rewrite add_task_appends.
  rewrite (remove_task_at _ _ (length tasks) (mkTask d false)).
  - rewrite (delete_middle tasks [] (mkTask d false)), app_nil_r.
    unfold saved_and_printed, removed_line. cbn [file trace desc].
    by rewrite <- !app_assoc.
  - rewrite norm_index_in_range; [|rewrite length_app; simpl; lia].
    f_equal. rewrite length_app. simpl. lia.
  - by rewrite list_lookup_middle.
Qed.

#[local] Close Scope Z_scope.

(** ** What the file gives back *)

Section read_back_facts.
#[local] Open Scope N_scope.

Lemma read_back_keep a s :
  match s with d :: _ => is_high a && is_low d = false | [] => True end ->
  read_back (a :: s) = a :: read_back s.
Proof. destruct s as [|d s]; [done|]. intros H. cbn [read_back]. by rewrite H. Qed.

Lemma read_back_join a b s :
  is_high a = true -> is_low b = true ->
  read_back (a :: b :: s) = join_surrogates a b :: read_back s.
Proof. intros Ha Hb. cbn [read_back]. by rewrite Ha, Hb. Qed.

Lemma surrogate_range c :
  is_high c || is_low c = true -> 0xd800 <= c <= 0xdfff.
Proof.
  unfold is_high, is_low.
  intros [[H1 H2]%andb_true_iff|[H1 H2]%andb_true_iff]%orb_true_iff;
    apply N.leb_le in H1, H2; lia.
Qed.

Lemma escape_char_u c : 127 <= c < 0x10000 -> escape_char c = u_escape c.
Proof.
  intros Hc. unfold escape_char.
  destruct (N.eqb_spec c 92) as [->|_]; [lia|].
  destruct (N.eqb_spec c 34) as [->|_]; [lia|].
  destruct (N.eqb_spec c 8) as [->|_]; [lia|].
  destruct (N.eqb_spec c 12) as [->|_]; [lia|].
  destruct (N.eqb_spec c 10) as [->|_]; [lia|].
  destruct (N.eqb_spec c 13) as [->|_]; [lia|].
  destruct (N.eqb_spec c 9) as [->|_]; [lia|].
  destruct (N.leb_spec c 126); [lia|]. rewrite andb_false_r.
  destruct (N.ltb_spec c 0x10000); [done|lia].
Qed.

Lemma low_is_bmp d : is_low d = true -> d < 0x10000.
Proof. intros H. pose proof (surrogate_range d ltac:(by rewrite H, orb_true_r)). lia. Qed.

Lemma low_not_high d : is_low d = true -> is_high d = false.
Proof.
  unfold is_low, is_high. intros [H1 H2]%andb_true_iff. apply N.leb_le in H1.
  apply andb_false_iff. right. apply N.leb_gt. lia.
Qed.

Lemma surrogate_escape d : is_high d || is_low d = true -> escape_char d = u_escape d.
Proof. intros H%surrogate_range. apply escape_char_u. lia. Qed.

(** A string written by the encoder is read back as [read_back] says. *)
Lemma scanstring_read_back_bounded (n : nat) :
  forall s rest,
    (length s <= n)%nat -> valid_str s ->
    scanstring (escape_body s ++ 34 :: rest) = POk (read_back s, rest).
Proof.
  induction n as [|n IH]; intros s rest Hn Hv.
  { destruct s; [reflexivity|simpl in Hn; lia]. }
  destruct s as [|c s]; [reflexivity|].
  apply Forall_cons in Hv as [Hcv Hv]. simpl in Hn.
  unfold escape_body. simpl flat_map. rewrite <- app_assoc. fold (escape_body s).
  destruct (is_high c) eqn:Hh.
  - rewrite surrogate_escape by (by rewrite Hh).
    pose proof (surrogate_range c ltac:(by rewrite Hh)) as Hr.
    rewrite scanstring_u_escape by lia.
    destruct s as [|d s]; [by rewrite after_u_body|].
    destruct (is_low d) eqn:Hl.
    + apply Forall_cons in Hv as [Hdv Hv]. simpl in Hn.
      unfold escape_body. simpl flat_map. rewrite <- app_assoc. fold (escape_body s).
      rewrite surrogate_escape by (by rewrite Hl, orb_true_r).
      rewrite after_u_join by (done || by apply low_is_bmp).
      rewrite IH by (assumption || lia). by rewrite read_back_join.
    + rewrite after_u_body by (done || by rewrite Hl, andb_false_r).
      rewrite IH; [|simpl in *; lia|exact Hv].
      rewrite (read_back_keep c (d :: s)); [done|]. by rewrite Hl, andb_false_r.
  - assert (Hk : read_back (c :: s) = c :: read_back s).
    { apply read_back_keep. destruct s; [done|]. by rewrite Hh. }
    rewrite Hk.
    destruct (escape_char_shape c Hcv) as [e He Hb|H34 H92 H32|Hlt|Hge].
    + simpl app. rewrite (scanstring_simple e c) by done. by rewrite IH by (assumption || lia).
    + simpl app. rewrite scanstring_plain by done. by rewrite IH by (assumption || lia).
    + rewrite scanstring_u_escape by done. rewrite after_u_not_high by done.
      by rewrite IH by (assumption || lia).
    + rewrite <- app_assoc.
      destruct (high_surrogate_of c Hge) as (H1 & H2 & H3).
      destruct (low_surrogate_of c) as (L1 & L2).
      rewrite scanstring_u_escape by done.
      rewrite after_u_join by done.
      rewrite IH by (assumption || lia). unfold pcons. simpl. by rewrite surrogate_join.
Qed.

Lemma scanstring_read_back s rest :
  valid_str s -> scanstring (escape_body s ++ 34 :: rest) = POk (read_back s, rest).
Proof. by apply (scanstring_read_back_bounded (length s)). Qed.

Lemma join_surrogates_range a b :
  is_high a = true -> is_low b = true ->
  0x10000 <= join_surrogates a b < max_codepoint.
Proof.
  intros Ha Hb.
  pose proof (surrogate_range a ltac:(by rewrite Ha)) as Ra.
  pose proof (surrogate_range b ltac:(by rewrite Hb, orb_true_r)) as Rb.
  unfold is_high in Ha. unfold is_low in Hb.
  apply andb_true_iff in Ha as [_ Ha]. apply andb_true_iff in Hb as [Hb _].
  apply N.leb_le in Ha, Hb.
  unfold join_surrogates, max_codepoint. rewrite N.shiftl_mul_pow2.
  rewrite lor_disjoint by (change (2 ^ 10) with 1024; lia).
  change (2 ^ 10) with 1024. lia.
Qed.

Lemma read_back_valid_bounded (n : nat) :
  forall s, (length s <= n)%nat -> valid_str s -> valid_str (read_back s).
Proof.
  induction n as [|n IH]; intros s Hn Hv.
  { destruct s; [done|simpl in Hn; lia]. }
  destruct s as [|a [|b r]]; [done|done|]. simpl in Hn.
  apply Forall_cons in Hv as [Ha Hv].
  destruct (is_high a && is_low b) eqn:E.
  - apply andb_true_iff in E as [E1 E2]. apply Forall_cons in Hv as [Hb Hv].
    rewrite read_back_join by done.
    apply Forall_cons. split; [by apply join_surrogates_range|].
    apply IH; [lia|done].
  - rewrite read_back_keep by done.
    apply Forall_cons. split; [done|]. apply IH; [simpl; lia|done].
Qed.

Lemma read_back_valid s : valid_str s -> valid_str (read_back s).
Proof. by apply (read_back_valid_bounded (length s)). Qed.

(** Where the head of [read_back s] is a low surrogate, it is the head of [s]. *)
Lemma read_back_head s d r :
  read_back s = d :: r -> is_low d = true -> exists s', s = d :: s'.
Proof.
  destruct s as [|a [|b s']]; [done| |].
  - intros [= <- _] _. eauto.
  - cbn [read_back]. destruct (is_high a && is_low b) eqn:E.
    + apply andb_true_iff in E as [E1 E2]. intros [= <- _] Hl.
      pose proof (join_surrogates_range a b E1 E2) as [H _].
      apply low_is_bmp in Hl. lia.
    + intros [= <- _] _. eauto.
Qed.

Lemma read_back_no_split_bounded (n : nat) :
  forall s, (length s <= n)%nat -> no_split_pair (read_back s) = true.
Proof.
  induction n as [|n IH]; intros s Hn.
  { destruct s; [done|simpl in Hn; lia]. }
  destruct s as [|a [|b r]]; [done|done|]. simpl in Hn.
  destruct (is_high a && is_low b) eqn:E.
  - apply andb_true_iff in E as [E1 E2].
    pose proof (join_surrogates_range a b E1 E2) as [Hj _].
    assert (Hnh : is_high (join_surrogates a b) = false).
    { unfold is_high. apply andb_false_iff. right. apply N.leb_gt. lia. }
    rewrite read_back_join by done.
    cbn [no_split_pair]. rewrite Hnh. simpl.
    rewrite (IH r) by lia. by destruct (read_back r).
  - specialize (IH (b :: r) ltac:(simpl; lia)).
    rewrite read_back_keep by done.
    cbn [no_split_pair]. rewrite IH.
    destruct (read_back (b :: r)) as [|d r'] eqn:Er; [done|].
    rewrite andb_true_r. apply negb_true_iff.
    destruct (is_low d) eqn:Hd; [|by rewrite andb_false_r].
    destruct (read_back_head _ _ _ Er Hd) as [s' [= -> _]]. by rewrite Hd in E.
Qed.

(** What was read back is read back as it is, from then on. *)
Lemma read_back_text_ok s : valid_str s -> text_ok (read_back s).
Proof.
  intros H. split; [by apply read_back_valid|].
  by apply (read_back_no_split_bounded (length s)).
Qed.

Lemma read_back_id s : no_split_pair s = true -> read_back s = s.
Proof.
  induction s as [|a s IH]; [done|]. intros H.
  destruct s as [|b r]; [done|].
  cbn [no_split_pair] in H. apply andb_true_iff in H as [H1 H2].
  apply negb_true_iff in H1. rewrite read_back_keep by done. by rewrite IH.
Qed.

Lemma scan_once_task_any f t rest :
  valid_str (desc t) ->
  scan_once (S (S (S f))) (encode_task 1 t ++ rest) = POk (task_value (read_back_task t), rest).
Proof.
  intros Hv. rewrite encode_task_text.
  apply scan_once_object.
  change (task_value (read_back_task t)) with
    (PDict (dict_of_pairs [(lit "desc", PStr (read_back (desc t))); (lit "done", PBool (done t))])).
  eapply JSONObject_pairs; [reflexivity|].
  eapply object_loop_more.
  - reflexivity.
  - reflexivity.
  - apply scan_once_str. by apply scanstring_read_back.
  - reflexivity.
  - reflexivity.
  - eapply object_loop_last.
    + reflexivity.
    + reflexivity.
    + replace (skip_ws (32 :: encode_bool (done t) ++ 10 :: 32 :: 32 :: 125 :: rest))
        with (encode_bool (done t) ++ 10 :: 32 :: 32 :: 125 :: rest)
        by (destruct (done t); reflexivity).
      apply scan_once_bool.
    + reflexivity.
Qed.

Lemma array_loop_tasks_any f ts :
  forall n rest,
    ts <> [] -> Forall (fun t => valid_str (desc t)) ts -> (length ts <= n)%nat ->
    array_loop (scan_once (S (S (S f)))) n
      (join_items item_sep (encode_task 1 <$> ts) ++ 10 :: 93 :: rest)
    = POk (task_value <$> (read_back_task <$> ts), rest).
Proof.
  induction ts as [|t ts IH]; intros n rest Hne Hok Hn; [done|].
  apply Forall_cons in Hok as [Ht Hok].
  destruct n as [|n]; [simpl in Hn; lia|].
  destruct ts as [|t' ts].
  - cbn [fmap list_fmap join_items].
    eapply array_loop_last; [by apply scan_once_task_any|reflexivity].
  - change (join_items item_sep (encode_task 1 <$> t :: t' :: ts))
      with (encode_task 1 t ++ item_sep ++ join_items item_sep (encode_task 1 <$> t' :: ts)).
    rewrite <- !app_assoc.
    change (item_sep ++ ?x) with (44 :: 10 :: 32 :: 32 :: x).
    rewrite (fmap_cons read_back_task), (fmap_cons task_value).
    eapply array_loop_more; [by apply scan_once_task_any|reflexivity|].
    change (skip_ws (10 :: 32 :: 32 :: ?x)) with (skip_ws x).
    rewrite skip_ws_join. apply IH; [done|done|simpl in Hn |- *; lia].
Qed.

Lemma loads_dumps_any ts :
  Forall (fun t => valid_str (desc t)) ts ->
  loads (dumps_tasks ts) = POk (tasks_value (read_back_task <$> ts)).
Proof.
  intros Hok. destruct ts as [|t ts]; [reflexivity|].
  unfold dumps_tasks, iterencode_list.
  change (lit "," ++ newline_indent 1) with item_sep.
  change (lit "[" ++ newline_indent 1 ++ ?j ++ newline_indent 0 ++ lit "]")
    with (91 :: 10 :: 32 :: 32 :: j ++ [10; 93]).
  set (J := join_items item_sep (encode_task 1 <$> t :: ts)).
  assert (HJ : (length (t :: ts) <= length J)%nat).
  { subst J. etransitivity; [|apply length_join_items].
    - by rewrite length_fmap.
    - apply Forall_fmap, Forall_true. intros x. apply encode_task_nonempty. }
  unfold loads. change (91 =? 65279) with false. cbv iota.
  unfold decode. change (skip_ws (91 :: ?x)) with (91 :: x).
  remember (length (91 :: 10 :: 32 :: 32 :: J ++ [10; 93])) as L eqn:HL.
  assert (HL' : (length (t :: ts) + 3 <= L)%nat).
  { subst L. simpl. rewrite length_app. simpl in *. lia. }
  destruct L as [|[|[|f]]]; [simpl in HL'; lia..|].
  destruct (join_head t ts [10; 93]) as [r Hr]. fold J in Hr.
  erewrite scan_once_array.
  2:{ eapply (JSONArray_items _ _ _ 123 r).
      - change (skip_ws (10 :: 32 :: 32 :: ?x)) with (skip_ws x).
        subst J. by rewrite skip_ws_join.
      - done.
      - rewrite <- Hr. apply (array_loop_tasks_any f (t :: ts)); [done|done|lia]. }
  reflexivity.
Qed.

Lemma read_back_idem s : read_back (read_back s) = read_back s.
Proof. apply read_back_id. by apply (read_back_no_split_bounded (length s)). Qed.

End read_back_facts.

(** What [load_tasks] reads after [save_tasks]: the list that was saved,
    with every high surrogate that a low surrogate follows joined with it
    into the code point that the two encode.  What was read is a list that
    the file gives back as it is. *)
Theorem save_load_read_back (tasks : list Task) (w : World) :
  valid_tasks tasks ->
  exists w',
    save_tasks tasks w = (inr tt, w')
    /\ load_tasks w' = (inr (tasks_value (read_back_task <$> tasks)), w')
    /\ Forall (fun t => text_ok (desc t)) (read_back_task <$> tasks).
Proof.
  intros Hv. eexists. split; [apply save_tasks_writes|]. split.
  - erewrite load_tasks_reads; [|reflexivity]. by rewrite loads_dumps_any.
  - apply Forall_fmap. eapply Forall_impl; [exact Hv|].
    intros t Ht. by apply read_back_text_ok.
Qed.

Lemma save_load_read_back_witness :
  exists w',
    save_tasks [mkTask [0xD83D; 0xD83D; 0xDE00; 0xDE00; 0x1F600]%N true] (mkWorld None [])
    = (inr tt, w')
    /\ load_tasks w' =
         (inr (tasks_value
                 (read_back_task <$>
                    [mkTask [0xD83D; 0xD83D; 0xDE00; 0xDE00; 0x1F600]%N true])), w')
    /\ Forall (fun t => text_ok (desc t))
         (read_back_task <$> [mkTask [0xD83D; 0xD83D; 0xDE00; 0xDE00; 0x1F600]%N true]).
Proof.
  apply save_load_read_back.
  apply Forall_cons_2; [|apply Forall_nil_2].
  repeat (apply Forall_cons_2; [reflexivity|]). apply Forall_nil_2.
Defined.

(** ** The file is plain ASCII *)

Lemma hexdigit_plain d : (d < 16)%N -> plain_ascii (hexdigit d).
Proof.
  intros H. right. unfold hexdigit. destruct (N.ltb_spec d 10); lia.
Qed.

Lemma u_escape_plain n : Forall plain_ascii (u_escape n).
Proof.
  unfold u_escape, hex4.
  repeat (apply Forall_cons_2; [first [right; lia | apply hexdigit_plain, N.mod_lt; lia]|]).
  apply Forall_nil_2.
Qed.

Lemma escape_char_plain c : Forall plain_ascii (escape_char c).
Proof.
  unfold escape_char.
  repeat (destruct (_ =? _)%N; [by repeat (apply Forall_cons_2; [right; lia|])|]).
  destruct ((32 <=? c) && (c <=? 126))%N eqn:E.
  - apply andb_true_iff in E as [H1 H2]. apply N.leb_le in H1, H2.
    apply Forall_cons_2; [right; lia|done].
  - destruct (c <? 65536)%N; [apply u_escape_plain|].
    cbv zeta. apply Forall_app. split; apply u_escape_plain.
Qed.

Lemma escape_body_plain s : Forall plain_ascii (escape_body s).
Proof.
  unfold escape_body. apply Forall_flat_map, Forall_forall. intros c _.
  apply escape_char_plain.
Qed.

Lemma join_items_all (P : N -> Prop) sep chunks :
  Forall P sep -> Forall (Forall P) chunks -> Forall P (join_items sep chunks).
Proof.
  intros Hsep. induction 1 as [|x chunks Hx _ IH]; [constructor|].
  destruct chunks as [|y chunks]; [done|].
  change (join_items sep (x :: y :: chunks)) with (x ++ sep ++ join_items sep (y :: chunks)).
  apply Forall_app. split; [done|]. apply Forall_app. by split.
Qed.

Ltac plain_literal :=
  repeat first [apply Forall_nil_2 | apply Forall_cons_2; [first [by left | right; lia]|]].

Lemma encode_task_plain t : Forall plain_ascii (encode_task 1 t).
Proof.
  rewrite <- (app_nil_r (encode_task 1 t)), encode_task_text.
  repeat (apply Forall_cons_2; [first [by left | right; lia]|]).
  apply Forall_app. split; [apply escape_body_plain|].
  repeat (apply Forall_cons_2; [first [by left | right; lia]|]).
  apply Forall_app. split; [|plain_literal].
  destruct (done t);
    [change (encode_bool true) with [116; 114; 117; 101]%N
    |change (encode_bool false) with [102; 97; 108; 115; 101]%N]; plain_literal.
Qed.

(** The file that [save_tasks] writes is plain ASCII, whatever the
    descriptions hold: line feeds and printable characters, nothing else. *)
Theorem dumps_tasks_ascii (tasks : list Task) : Forall plain_ascii (dumps_tasks tasks).
Proof.
  destruct tasks as [|t ts].
  { change (dumps_tasks []) with [91; 93]%N. plain_literal. }
  unfold dumps_tasks, iterencode_list.
  change (lit "," ++ newline_indent 1) with [44; 10; 32; 32]%N.
  change (lit "[" ++ newline_indent 1 ++ ?j ++ newline_indent 0 ++ lit "]")
    with (91%N :: 10%N :: 32%N :: 32%N :: j ++ [10%N; 93%N]).
  repeat (apply Forall_cons_2; [first [by left | right; lia]|]).
  apply Forall_app. split; [|plain_literal].
  apply join_items_all; [plain_literal|].
  apply Forall_fmap, Forall_forall. intros t' _. apply encode_task_plain.
Qed.

(** ** The console *)

(** The front ends at work: the words of a line, the texts that [int]
    takes, a session, a run of [main]. *)
Example split_words :
  split (lit "  add  buy   milk ") = [lit "add"; lit "buy"; lit "milk"].
Proof. reflexivity. Qed.

Example int_texts :
  int ascii_only (lit " +1_000 ") = Some 1000%Z
  /\ int ascii_only (lit "-0012") = Some (-12)%Z
  /\ int ascii_only (lit "1__0") = None
  /\ int ascii_only (lit "- 1") = None
  /\ int ascii_only (lit "12a") = None
  /\ int ascii_only [] = None.
Proof. repeat split; reflexivity. Qed.

Example session_at_work :
  run_interactive ascii_only []
    [lit "Add buy milk"; lit ""; lit "done"; lit " 1 "; lit "rm x"; lit "one"; lit "quit";
     lit "never read"]
    (mkConsole None [])
  = (inr [mkTask (lit "buy milk") true],
     mkConsole (Some (dumps_tasks [mkTask (lit "buy milk") true]))
       [Engine (Printed [Text (10%N :: lit "Commands: list, add, done, rm, help, exit")]);
        Prompted (lit "Enter command: ");
        Engine (Wrote (dumps_tasks [mkTask (lit "buy milk") false]));
        Engine (Printed [Text (lit "Added: "); Repr (lit "buy milk")]);
        Engine (Printed [Text (10%N :: lit "Commands: list, add, done, rm, help, exit")]);
        Prompted (lit "Enter command: ");
        Engine (Printed [Text (10%N :: lit "Commands: list, add, done, rm, help, exit")]);
        Prompted (lit "Enter command: ");
        Prompted (lit "Task ID to complete: ");
        Engine (Wrote (dumps_tasks [mkTask (lit "buy milk") true]));
        Engine (Printed [Text (lit "Completed task #1")]);
        Engine (Printed [Text (10%N :: lit "Commands: list, add, done, rm, help, exit")]);
        Prompted (lit "Enter command: ");
        Prompted (lit "Task ID to remove: ");
        Engine (Printed [Text (lit "Please enter a valid number.")]);
        Engine (Printed [Text (10%N :: lit "Commands: list, add, done, rm, help, exit")]);
        Prompted (lit "Enter command: ");
        Engine (Printed [Text (lit "Goodbye!")])]).
Proof. vm_compute. reflexivity. Qed.

Example main_at_work :
  main ascii_only [lit "todo.py"; lit "add"] [] (mkConsole None [])
  = (inr tt,
     mkConsole None
       [Engine (Printed [Text (lit "Unknown command: "); Repr (lit "add")]);
        Engine (Printed [Text help_text])])
  /\ main ascii_only [lit "todo.py"] [lit "a"; lit "a" ++ [10%N] ++ lit " b "] (mkConsole None [])
     = (inr tt,
        mkConsole (Some (dumps_tasks [mkTask (lit "a") false; mkTask (lit " b") false]))
          [Engine (Wrote (dumps_tasks [mkTask (lit "a") false]));
           Engine (Wrote (dumps_tasks [mkTask (lit "a") false; mkTask (lit " b") false]))]).
Proof. split; vm_compute; reflexivity. Qed.

Lemma lift_print l c :
  encodable l = true ->
  lift (print l) c = (inr tt, mkConsole (cfile c) (clog c ++ [Engine (Printed l)])).
Proof. intros H. unfold lift. by rewrite print_encodable. Qed.

(** A line that may hold anything: it is printed, or [print] raises and
    the file is as it was. *)
Lemma lift_print_any l c :
  (lift (print l) c = (inr tt, mkConsole (cfile c) (clog c ++ [Engine (Printed l)])))
  \/ exists c', lift (print l) c = (inl (Raised UnicodeEncodeError), c')
                /\ cfile c' = cfile c /\ clog c' = clog c.
Proof.
  destruct (encodable l) eqn:E; [left; by apply lift_print|right].
  unfold lift. rewrite print_refused by done. eexists. split; [reflexivity|].
  split; [done|]. simpl. apply app_nil_r.
Qed.

Lemma lift_print_help c :
  lift print_help c = (inr tt, mkConsole (cfile c) (clog c ++ [Engine (Printed [Text help_text])])).
Proof. reflexivity. Qed.

Lemma lift_list_tasks tasks c :
  exists r c' ls,
    lift (list_tasks tasks) c = (r, c')
    /\ cfile c' = cfile c
    /\ clog c' = clog c ++ ((fun l => Engine (Printed l)) <$> ls)
    /\ (r = inr tt \/ r = inl (Raised UnicodeEncodeError)).
Proof.
  destruct tasks as [|t tasks].
  - exists (inr tt), (mkConsole (cfile c) (clog c ++ [Engine (Printed placeholder)])),
      [placeholder].
    split; [reflexivity|]. split; [done|]. split; [done|by left].
  - change (list_tasks (t :: tasks)) with (print_tasks 1 (t :: tasks)).
    destruct (print_tasks_lines (t :: tasks) 1 (mkWorld (cfile c) [])) as (r & ls & E & Hr).
    unfold lift. rewrite E. cbn [file trace app].
    eexists _, _, ls. split; [reflexivity|]. split; [done|].
    split; [cbn [clog]; by rewrite <- list_fmap_compose|].
    destruct Hr as [-> | ->]; [by left|by right].
Qed.

(** A command that saved, at the console. *)
Lemma lift_saved {A} (m : M A) (a : A) tasks l c :
  (forall w, m w = (inr a, saved_and_printed tasks l w)) ->
  lift m c = (inr a, mkConsole (Some (dumps_tasks tasks))
                       (clog c ++ [Engine (Wrote (dumps_tasks tasks)); Engine (Printed l)])).
Proof. intros H. unfold lift. rewrite H. reflexivity. Qed.

Lemma lift_add_task tasks d c :
  exists c',
    lift (add_task tasks d) c = (inr (tasks ++ [mkTask d false]), c')
    /\ cfile c' = Some (dumps_tasks (tasks ++ [mkTask d false])).
Proof.
  unfold lift. rewrite add_task_appends. eexists. split; reflexivity.
Qed.

Lemma lift_complete_task tasks idx c :
  command_outcome tasks idx c (lift (complete_task tasks idx) c).
Proof.
  left. unfold lift.
  destruct (complete_task_outcome tasks idx (mkWorld (cfile c) []))
    as [(tasks' & l & E)|(l & E)]; rewrite E.
  - eexists _, _. split; [reflexivity|]. by left.
  - eexists _, _. split; [reflexivity|]. by right.
Qed.

Lemma lift_remove_task tasks idx c :
  command_outcome tasks idx c (lift (remove_task tasks idx) c).
Proof.
  unfold lift.
  destruct (remove_task_outcome tasks idx (mkWorld (cfile c) []))
    as [(tasks' & l & E)|[(l & E)|[E Hfit]]]; rewrite E.
  - left. eexists _, _. split; [reflexivity|]. by left.
  - left. eexists _, _. split; [reflexivity|]. by right.
  - right. eexists. split; [reflexivity|]. by split.
Qed.

Section turns.
Context (py : Runtime) (continue : list Task -> list str -> C (list Task)).

(** A numbered command: the index is read, the command is run, the loop
    goes on; or [int] raises [ValueError], or the command
    [OverflowError]. *)
Lemma numbered_outcome (op : list Task -> Z -> M (list Task)) tasks stdin read stdin' a c c0 :
  (forall idx c, command_outcome tasks idx c (lift (op tasks idx) c)) ->
  read <> [] -> stdin = read ++ stdin' ->
  number_read stdin a -> isdigit py a = true ->
  cfile c = cfile c0 ->
  turn_outcome py continue tasks stdin c0
    (cbind (to_int py a)
       (fun idx => cbind (lift (op tasks idx)) (fun tasks => continue tasks stdin')) c).
Proof.
  intros Hop Hread Hstdin Ha Hdig Hc. unfold cbind, to_int.
  destruct (int py a) as [idx|] eqn:Eint; simpl.
  - destruct (Hop idx c) as [(tasks' & c' & E & Hstep)|(c' & E & Hf & Hfit)]; rewrite E.
    + eapply turn_goes_on; [done|done|]. by rewrite <- Hc.
    + apply turn_raises; [|congruence]. right. right. left. split; [done|].
      by exists a, idx.
  - apply turn_raises; [|done]. right. left. split; [done|]. by exists a.
Qed.

Lemma prompted_outcome (op : list Task -> Z -> M (list Task)) prompt tasks l stdin' c c0 :
  (forall idx c, command_outcome tasks idx c (lift (op tasks idx) c)) ->
  cfile c = cfile c0 ->
  turn_outcome py continue tasks (l :: stdin') c0
    (input prompt stdin' (fun i stdin' =>
       if isdigit py (strip i) then
         cbind (to_int py (strip i))
           (fun idx => cbind (lift (op tasks idx)) (fun tasks => continue tasks stdin'))
       else
         cbind (lift (print [Text (lit "Please enter a valid number.")]))
           (fun _ => continue tasks stdin')) c).
Proof.
  intros Hop Hc. unfold input.
  destruct stdin' as [|i stdin'']; [by apply turn_raises; [left|]|].
  destruct (isdigit py (strip i)) eqn:Ed.
  - apply (numbered_outcome op tasks _ [l; i]); [done|done|done| |done|done].
    exists i. split; [|by right]. apply list_elem_of_further, list_elem_of_here.
  - unfold cbind. rewrite lift_print by reflexivity.
    apply (turn_goes_on _ _ _ _ _ tasks [l; i]); [done|done|]. right. by split.
Qed.

Lemma digit_argument_read args a l stdin :
  digit_argument py args = Some a -> (exists word, split (strip l) = word :: args) ->
  number_read (l :: stdin) a /\ isdigit py a = true.
Proof.
  unfold digit_argument. destruct args as [|a' args]; [done|].
  destruct (isdigit py a') eqn:E; [|done]. intros [= <-] [word Hw].
  split; [|done]. exists l. split; [apply list_elem_of_here|]. left.
  rewrite Hw. apply list_elem_of_further, list_elem_of_here.
Qed.

Lemma turn_shape tasks stdin c :
  turn_outcome py continue tasks stdin c (turn py continue tasks stdin c).
Proof.
  unfold turn. unfold cbind at 1. rewrite lift_print by reflexivity. unfold input at 1.
  destruct stdin as [|l stdin]; [by apply turn_raises; [left|]|].
  set (c1 := mkConsole _ _).
  assert (Hc1 : cfile c1 = cfile c) by reflexivity.
  clearbody c1.
  assert (Hone : forall tasks' c',
             in_step tasks (cfile c) tasks' (cfile c') ->
             turn_outcome py continue tasks (l :: stdin) c (continue tasks' stdin c')).
  { intros tasks' c' H. by apply (turn_goes_on _ _ _ _ _ tasks' [l]). }
  assert (Hprint : forall c', cfile c' = cfile c ->
             turn_outcome py continue tasks (l :: stdin) c
               (inl (Raised UnicodeEncodeError), c')).
  { intros c' H. apply turn_raises; [|done]. by do 3 right. }
  destruct (split (strip l)) as [|word args] eqn:Ewords.
  { apply Hone. right. by split. }
  cbv zeta.
  destruct (is_cmd (lower py word) [lit "list"]).
  { unfold cbind. destruct (lift_list_tasks tasks c1) as (r & c' & ls & E & Hf & _ & Hr).
    rewrite E. destruct Hr as [-> | ->].
    - apply Hone. right. split; [done|congruence].
    - apply Hprint. congruence. }
  destruct (is_cmd (lower py word) [lit "add"]).
  { destruct args as [|a args].
    - unfold input. destruct stdin as [|d stdin']; [by apply turn_raises; [left|]|].
      unfold cbind.
      match goal with |- context [lift (add_task tasks ?x) ?cc] =>
        destruct (lift_add_task tasks x cc) as (c' & E & Hf) end.
      rewrite E. apply (turn_goes_on _ _ _ _ _ _ [l; d]); [done|done|]. by left.
    - unfold cbind.
      match goal with |- context [lift (add_task tasks ?x) ?cc] =>
        destruct (lift_add_task tasks x cc) as (c' & E & Hf) end.
      rewrite E. apply Hone. by left. }
  destruct (is_cmd (lower py word) [lit "done"; lit "complete"]).
  { destruct (digit_argument py args) as [a|] eqn:Ea.
    - destruct (digit_argument_read args a l stdin Ea) as [Hr Hd]; [by exists word|].
      apply (numbered_outcome complete_task tasks _ [l]);
        [apply lift_complete_task|done|done|done|done|done].
    - apply prompted_outcome; [apply lift_complete_task|done]. }
  destruct (is_cmd (lower py word) [lit "rm"; lit "remove"]).
  { destruct (digit_argument py args) as [a|] eqn:Ea.
    - destruct (digit_argument_read args a l stdin Ea) as [Hr Hd]; [by exists word|].
      apply (numbered_outcome remove_task tasks _ [l]);
        [apply lift_remove_task|done|done|done|done|done].
    - apply prompted_outcome; [apply lift_remove_task|done]. }
  destruct (is_cmd (lower py word) [lit "help"]).
  { unfold cbind. rewrite lift_print_help. apply Hone. right. by split. }
  destruct (is_cmd (lower py word) [lit "exit"; lit "quit"]).
  { unfold cbind. rewrite lift_print by reflexivity. unfold cret.
    by eapply turn_exits. }
  unfold cbind.
  destruct (lift_print_any [Text (lit "Unknown command: " ++ lower py word)] c1)
    as [E|(c' & E & Hf & _)]; rewrite E.
  - rewrite lift_print_help. apply Hone. right. by split.
  - apply Hprint. congruence.
Qed.

End turns.

Lemma run_interactive_turn py tasks stdin :
  run_interactive py tasks stdin = turn py (run_interactive py) tasks stdin.
Proof. by destruct stdin. Qed.

(** ** Sessions of [run_interactive] *)

Lemma number_read_later read stdin a :
  number_read stdin a -> number_read (read ++ stdin) a.
Proof.
  intros (l & Hl & Ha). exists l. split; [|done]. apply elem_of_app. by right.
Qed.

Lemma session_exception_later py read stdin e :
  session_exception py stdin e -> session_exception py (read ++ stdin) e.
Proof.
  intros [H|[[H (a & Ha & Hd & Hi)]|[[H (a & idx & Ha & Hi & Hfit)]|H]]].
  - by left.
  - right. left. split; [done|]. exists a. split; [by apply number_read_later|done].
  - right. right. left. split; [done|].
    exists a, idx. split; [by apply number_read_later|done].
  - by do 3 right.
Qed.

Lemma session_bounded (py : Runtime) (n : nat) :
  forall stdin tasks c,
    (length stdin <= n)%nat ->
    session_outcome py tasks stdin c (run_interactive py tasks stdin c).
Proof.
  induction n as [|n IH]; intros stdin tasks c Hn; rewrite run_interactive_turn;
    pose proof (turn_shape py (run_interactive py) tasks stdin c) as H;
    remember (turn py (run_interactive py) tasks stdin c) as r eqn:Er; clear Er;
    destruct H as [e c' He Hf|tasks' read stdin' c' Hread Hstdin Hstep|c' log Hf Hlog].
  - done.
  - subst stdin. rewrite length_app in Hn. destruct read; [done|simpl in Hn; lia].
  - split; [|by exists log]. right. by split.
  - done.
  - subst stdin. rewrite length_app in Hn.
    assert (Hn' : (length stdin' <= n)%nat) by (destruct read; [done|simpl in Hn; lia]).
    specialize (IH stdin' tasks' c' Hn'). unfold session_outcome in *.
    destruct (run_interactive py tasks' stdin' c') as [[e|tasks''] c''].
    + by apply session_exception_later.
    + destruct IH as [Ht Hlog]. split; [by eapply in_step_trans|done].
  - split; [|by exists log]. right. by split.
Qed.

(** *** Digits *)

Lemma split_from_infix (s : str) :
  forall cur a, a ∈ split_from cur s -> exists pre post, rev cur ++ s = pre ++ a ++ post.
Proof.
  induction s as [|c r IH]; intros cur a Ha.
  - simpl in Ha. destruct cur as [|x cur]; [by apply elem_of_nil in Ha|].
    apply list_elem_of_singleton in Ha as ->. exists [], []. by rewrite !app_nil_r.
  - cbn [split_from] in Ha. destruct (isspace c).
    + destruct cur as [|x cur].
      * destruct (IH [] a Ha) as (pre & post & E). simpl in E.
        exists (c :: pre), post. simpl. by rewrite E.
      * apply elem_of_cons in Ha as [->|Ha].
        -- by exists [], (c :: r).
        -- destruct (IH [] a Ha) as (pre & post & E). simpl in E.
           exists (rev (x :: cur) ++ c :: pre), post. rewrite E.
           by rewrite <- !app_assoc.
    + destruct (IH (c :: cur) a Ha) as (pre & post & E).
      exists pre, post. rewrite <- E. simpl. by rewrite <- app_assoc.
Qed.

Lemma strip_infix (l : str) : exists pre post, l = pre ++ strip l ++ post.
Proof.
  unfold strip.
  destruct (lstrip_split l) as (p & E & _).
  destruct (rstrip_split (lstrip l)) as (q & E' & _).
  exists p, q. by rewrite <- E', <- E.
Qed.

Lemma number_read_infix stdin a :
  number_read stdin a -> exists l pre post, l ∈ stdin /\ l = pre ++ a ++ post.
Proof.
  intros (l & Hl & [Ha| ->]).
  - apply split_from_infix in Ha as (pre & post & E). simpl in E.
    destruct (strip_infix l) as (p & q & El).
    exists l, (p ++ pre), (post ++ q). split; [done|].
    rewrite El at 1. rewrite E. by rewrite <- !app_assoc.
  - destruct (strip_infix l) as (p & q & El). by exists l, p, q.
Qed.

Lemma int_digits_all (s : str) :
  forallb is_digit s = true ->
  forall acc n, exists v, int_digits acc n s = Some (v, (n + length s)%nat, []).
Proof.
  induction s as [|c s IH]; intros H acc n.
  - exists acc. simpl. by rewrite Nat.add_0_r.
  - simpl in H. apply andb_true_iff in H as [Hc Hs]. cbn [int_digits]. rewrite Hc.
    destruct (IH Hs (acc * 10 + Z.of_N (c - 48))%Z (S n)) as [v E].
    exists v. rewrite E. simpl. do 3 f_equal. lia.
Qed.

(** [int] takes a run of ASCII digits that is not too long. *)
Lemma int_ascii_digits (limit : option nat) (a : str) :
  a <> [] -> forallb is_digit a = true -> (length a <= max_str_digits_threshold)%nat ->
  exists v, int_ascii limit a = Some v.
Proof.
  intros Hne Hd Hlen. destruct a as [|d r]; [done|].
  simpl in Hd. apply andb_true_iff in Hd as [Hd Hr].
  pose proof Hd as Hd'. unfold is_digit in Hd'.
  apply andb_true_iff in Hd' as [H1 H2]. apply N.leb_le in H1, H2.
  unfold int_ascii. cbn [c_lstrip].
  assert (Hsp : c_isspace d = false).
  { unfold c_isspace. apply orb_false_iff. split.
    - apply andb_false_iff. right. apply N.leb_gt. lia.
    - apply N.eqb_neq. lia. }
  rewrite Hsp.
  rewrite (proj2 (N.eqb_neq d 43)) by lia. rewrite (proj2 (N.eqb_neq d 45)) by lia.
  rewrite Hd.
  destruct (int_digits_all r Hr (Z.of_N (d - 48)) 1) as [v E]. rewrite E.
  cbn [c_lstrip].
  assert (Hshort : (max_str_digits_threshold <? 1 + length r)%nat = false).
  { apply Nat.ltb_ge. simpl in Hlen. lia. }
  rewrite Hshort. destruct limit; eauto.
Qed.

Lemma all_ascii_app s1 s2 : all_ascii (s1 ++ s2) = all_ascii s1 && all_ascii s2.
Proof. unfold all_ascii. apply forallb_app. Qed.

Lemma ascii_digits_taken (py : Runtime) (stdin : list str) :
  Forall (fun l => all_ascii l = true /\ (length l <= max_str_digits_threshold)%nat) stdin ->
  ~ digits_refused py stdin.
Proof.
  intros Hall (a & Hread & Hd & Hi).
  destruct (number_read_infix stdin a Hread) as (l & pre & post & Hl & E).
  rewrite Forall_forall in Hall. destruct (Hall l Hl) as [Hascii Hlen].
  subst l. rewrite !all_ascii_app in Hascii.
  apply andb_true_iff in Hascii as [_ Hascii]. apply andb_true_iff in Hascii as [Hascii _].
  rewrite !length_app in Hlen.
  unfold isdigit in Hd. unfold int in Hi. rewrite Hascii in Hd, Hi.
  destruct a as [|d r]; [done|].
  destruct (int_ascii_digits (int_max_str_digits py) (d :: r)) as [v Hv];
    [done|exact Hd|lia|congruence].
Qed.


(** On ASCII lines of at most 640 characters [int] takes every text that
    [isdigit] accepts, whatever the digit limit of the interpreter: no
    session that reads such lines ends with [ValueError]. *)
Theorem run_interactive_ascii (py : Runtime) (tasks : list Task) (stdin : list str)
    (c : Console) :
  Forall (fun l => all_ascii l = true /\ (length l <= max_str_digits_threshold)%nat) stdin ->
  (run_interactive py tasks stdin c).1 <> inl ValueError.
Proof.
  intros Hall.
  pose proof (session_bounded py (length stdin) stdin tasks c ltac:(done)) as H.
  unfold session_outcome in H.
  destruct (run_interactive py tasks stdin c) as [[e|tasks'] c']; [|done].
  simpl. intros [= ->].
  destruct H as [H|[[_ Hd]|[[H _]|H]]]; [done|by apply ascii_digits_taken in Hd|done..].
Qed.

Lemma run_interactive_ascii_witness :
  (run_interactive ascii_only
     [mkTask (lit "a") false] [lit "done 1"; lit "rm"; lit "1"] (mkConsole None [])).1
  <> inl ValueError.
Proof.
  apply run_interactive_ascii.
  repeat (apply Forall_cons_2; [split; [reflexivity|apply Nat.leb_le; reflexivity]|]).
  apply Forall_nil_2.
Defined.

(** ** The window *)

Lemma load_text_join t ts :
  load_text (t :: ts) = str_join [10%N] (desc <$> t :: ts) ++ [10%N].
Proof.
  revert t. induction ts as [|t' ts IH]; intros t.
  { unfold load_text. simpl. by rewrite app_nil_r. }
  change (load_text (t :: t' :: ts)) with ((desc t ++ [10%N]) ++ load_text (t' :: ts)).
  rewrite IH.
  change (str_join [10%N] (desc <$> t :: t' :: ts))
    with (desc t ++ [10%N] ++ str_join [10%N] (desc <$> t' :: ts)).
  by rewrite <- !app_assoc.
Qed.

Lemma lstrip_spaces p s :
  Forall (fun c => isspace c = true) p -> lstrip (p ++ s) = lstrip s.
Proof. induction 1 as [|c p Hc _ IH]; [done|]. simpl. by rewrite Hc. Qed.

Lemma lstrip_visible s : starts_visible s -> lstrip s = s.
Proof. destruct s as [|c r]; [done|]. simpl. by intros ->. Qed.

Lemma starts_visible_rev s : ends_visible s -> starts_visible (rev s).
Proof.
  unfold ends_visible, starts_visible.
  destruct s as [|c r] using rev_ind; [done|].
  rewrite last_snoc, rev_app_distr. by simpl.
Qed.

(** [strip] removes the whitespace around a text that has none at its ends. *)
Lemma strip_padded x q :
  x <> [] -> starts_visible x -> ends_visible x ->
  Forall (fun c => isspace c = true) q ->
  strip (x ++ q) = x.
Proof.
  intros Hne Hs He Hq. unfold strip, rstrip.
  rewrite (lstrip_visible (x ++ q)) by (destruct x; [done|exact Hs]).
  rewrite rev_app_distr, lstrip_spaces by (by apply Forall_rev).
  rewrite lstrip_visible by (by apply starts_visible_rev).
  apply rev_involutive.
Qed.

Lemma str_join_starts sep d ds :
  d <> [] -> starts_visible d -> starts_visible (str_join sep (d :: ds)).
Proof.
  intros Hne Hs. destruct d as [|c r]; [done|]. by destruct ds.
Qed.

Lemma str_join_nonempty sep d ds : d <> [] -> str_join sep (d :: ds) <> [].
Proof. intros Hne. destruct d as [|c r]; [done|]. by destruct ds. Qed.

Lemma ends_visible_app x y : y <> [] -> ends_visible y -> ends_visible (x ++ y).
Proof.
  unfold ends_visible. intros Hne Hy.
  destruct y as [|c r] using rev_ind; [done|].
  rewrite app_assoc, last_snoc. by rewrite last_snoc in Hy.
Qed.

Lemma str_join_ends sep ds :
  ds <> [] -> Forall (fun d => d <> [] /\ ends_visible d) ds ->
  ends_visible (str_join sep ds).
Proof.
  intros Hne H. induction H as [|d ds [Hd He] Hds IH]; [done|].
  destruct ds as [|d' ds]; [done|].
  change (str_join sep (d :: d' :: ds)) with (d ++ sep ++ str_join sep (d' :: ds)).
  rewrite app_assoc. apply ends_visible_app.
  - apply Forall_cons in Hds as [[Hd' _] _]. by apply str_join_nonempty.
  - by apply IH.
Qed.

(** [splitlines] reads a line without a break up to the break after it. *)
Lemma splitlines_from_line d :
  Forall (fun c => islinebreak c = false) d ->
  forall cur rest, splitlines_from cur (d ++ rest) = splitlines_from (rev d ++ cur) rest.
Proof.
  induction 1 as [|c d Hc _ IH]; intros cur rest; [done|].
  simpl app. cbn [splitlines_from]. rewrite Hc. rewrite IH.
  by rewrite <- app_assoc.
Qed.

Lemma splitlines_from_feed cur c r :
  splitlines_from cur (10%N :: c :: r) = rev cur :: splitlines_from [] (c :: r).
Proof. reflexivity. Qed.

Lemma splitlines_join ds :
  Forall (fun d => d <> [] /\ Forall (fun c => islinebreak c = false) d) ds ->
  splitlines (str_join [10%N] ds) = ds.
Proof.
  unfold splitlines. induction 1 as [|d ds [Hne Hd] Hds IH]; [done|].
  destruct ds as [|d' ds].
  - simpl str_join. rewrite <- (app_nil_r d) at 1.
    rewrite splitlines_from_line by done. rewrite app_nil_r.
    cbn [splitlines_from]. destruct (rev d) eqn:E.
    + apply (f_equal (@rev N)) in E. rewrite rev_involutive in E. by subst.
    + by rewrite <- E, rev_involutive.
  - change (str_join [10%N] (d :: d' :: ds))
      with (d ++ 10%N :: str_join [10%N] (d' :: ds)).
    rewrite splitlines_from_line by done. rewrite app_nil_r.
    apply Forall_cons in Hds as [[Hne' _] _].
    destruct (str_join [10%N] (d' :: ds)) as [|c r] eqn:E;
      [by apply str_join_nonempty in E|].
    rewrite splitlines_from_feed, rev_involutive. by rewrite IH.
Qed.

Lemma filter_all {A} (f : A -> bool) (l : list A) :
  Forall (fun x => f x = true) l -> List.filter f l = l.
Proof. induction 1 as [|x l Hx _ IH]; [done|]. simpl. by rewrite Hx, IH. Qed.

Lemma one_line_nonblank d : one_line d -> nonblank d = true.
Proof.
  intros (Hne & Hs & _ & _). apply nonblank_visible.
  destruct d as [|c r]; [done|]. by apply Exists_cons_hd.
Qed.

(** A key release in the window when nothing was edited: if every
    description is one line, the list keeps its descriptions, in order,
    and every task comes out not done; that list is written to the file. *)
Theorem key_release_unedited (tasks old : list Task) (w : World) :
  Forall (fun t => one_line (desc t)) tasks ->
  save_text (text_get (load_text tasks)) old w =
    (inr (set_done false <$> tasks),
     mkWorld (Some (dumps_tasks (set_done false <$> tasks)))
       (trace w ++ [Wrote (dumps_tasks (set_done false <$> tasks))])).
Proof.
  intros Hall.
  assert (Hlines : List.filter nonblank (splitlines (strip (text_get (load_text tasks))))
                   = desc <$> tasks).
  { destruct tasks as [|t ts]; [reflexivity|].
    unfold text_get. rewrite load_text_join, <- app_assoc.
    assert (Hds : Forall one_line (desc <$> t :: ts)) by (by apply Forall_fmap).
    rewrite strip_padded.
    - rewrite splitlines_join.
      + apply filter_all. eapply Forall_impl; [exact Hds|]. apply one_line_nonblank.
      + eapply Forall_impl; [exact Hds|]. by intros d (? & _ & _ & ?).
    - rewrite fmap_cons. apply str_join_nonempty.
      apply Forall_cons in Hds as [(? & _) _]. done.
    - rewrite fmap_cons. apply Forall_cons in Hds as [(? & ? & _) _].
      by apply str_join_starts.
    - apply str_join_ends; [done|]. eapply Forall_impl; [exact Hds|].
      by intros d (? & _ & ? & _).
    - by repeat constructor. }
  unfold save_text. unfold nonblank in Hlines. rewrite Hlines.
  rewrite <- list_fmap_compose. reflexivity.
Qed.

Lemma key_release_unedited_witness :
  save_text (text_get (load_text [mkTask (lit "buy milk") true; mkTask (lit "call Bob") false]))
    [mkTask (lit "buy milk") true; mkTask (lit "call Bob") false] (mkWorld None []) =
    (inr (set_done false <$> [mkTask (lit "buy milk") true; mkTask (lit "call Bob") false]),
     mkWorld
       (Some (dumps_tasks
                (set_done false <$> [mkTask (lit "buy milk") true; mkTask (lit "call Bob") false])))
       (trace (mkWorld None [])
        ++ [Wrote (dumps_tasks
                     (set_done false <$>
                        [mkTask (lit "buy milk") true; mkTask (lit "call Bob") false]))])).
Proof.
  apply key_release_unedited.
  repeat (apply Forall_cons_2;
          [split; [discriminate|split; [reflexivity|split; [reflexivity|]]]|]).
  - apply Forall_forall. intros c Hc. apply list_elem_of_In in Hc. simpl in Hc.
    repeat (destruct Hc as [<-|Hc]; [reflexivity|]). done.
  - apply Forall_forall. intros c Hc. apply list_elem_of_In in Hc. simpl in Hc.
    repeat (destruct Hc as [<-|Hc]; [reflexivity|]). done.
  - apply Forall_nil_2.
Defined.

(** ** [add] in a session *)

(** The words of [split] are not empty and hold no whitespace. *)
Lemma split_from_words (s : str) :
  forall cur,
    Forall (fun c => isspace c = false) cur ->
    Forall (fun w => w <> [] /\ Forall (fun c => isspace c = false) w) (split_from cur s).
Proof.
  induction s as [|c r IH]; intros cur Hcur.
  - simpl. destruct cur as [|x cur]; [constructor|].
    apply Forall_cons_2; [|constructor]. split; [|by apply Forall_rev].
    intros E. apply (f_equal (@length N)) in E. rewrite length_rev in E. done.
  - cbn [split_from]. destruct (isspace c) eqn:Ec.
    + destruct cur as [|x cur]; [by apply IH|].
      apply Forall_cons_2; [|by apply IH]. split; [|by apply Forall_rev].
      intros E. apply (f_equal (@length N)) in E. rewrite length_rev in E. done.
    + apply IH. by apply Forall_cons_2.
Qed.

Lemma str_join_all (P : N -> Prop) sep items :
  Forall P sep -> Forall (Forall P) items -> Forall P (str_join sep items).
Proof.
  intros Hsep. induction 1 as [|x items Hx _ IH]; [constructor|].
  destruct items as [|y items]; [done|].
  change (str_join sep (x :: y :: items)) with (x ++ sep ++ str_join sep (y :: items)).
  apply Forall_app. split; [done|]. apply Forall_app. by split.
Qed.

Lemma visible_word_ends w :
  Forall (fun c => isspace c = false) w -> ends_visible w.
Proof.
  intros H. unfold ends_visible. destruct (last w) as [c|] eqn:E; [|done].
  apply last_Some in E as [l' ->]. apply Forall_app in H as [_ H].
  by apply Forall_cons in H as [H _].
Qed.

Lemma words_joined_one_line (words : list str) :
  words <> [] ->
  Forall (fun w => w <> [] /\ Forall (fun c => isspace c = false) w) words ->
  one_line (str_join (lit " ") words).
Proof.
  intros Hne Hw. destruct words as [|w ws]; [done|].
  pose proof Hw as Hw'. apply Forall_cons in Hw' as [[Hw1 Hw2] _].
  split; [by apply str_join_nonempty|]. split; [|split].
  - apply str_join_starts; [done|]. destruct w as [|c r]; [done|].
    by apply Forall_cons in Hw2 as [? _].
  - apply str_join_ends; [done|]. eapply Forall_impl; [exact Hw|].
    intros x [? ?]. split; [done|]. by apply visible_word_ends.
  - apply str_join_all; [by repeat constructor|].
    eapply Forall_impl; [exact Hw|]. intros x [_ Hx].
    eapply Forall_impl; [exact Hx|]. apply visible_not_linebreak.
Qed.

(** [add] with its words on the command line of the session: the task
    appended has the words joined by single spaces as its description,
    which is one line; the file holds the new list, and the session goes
    on with it. *)
Theorem add_inline (py : Runtime) (tasks : list Task) (l : str) (stdin : list str)
    (c : Console) (word : str) (args : list str) :
  split (strip l) = word :: args -> lower py word = lit "add" -> args <> [] ->
  exists c',
    run_interactive py tasks (l :: stdin) c
    = run_interactive py (tasks ++ [mkTask (str_join (lit " ") args) false]) stdin c'
    /\ cfile c' = Some (dumps_tasks (tasks ++ [mkTask (str_join (lit " ") args) false]))
    /\ one_line (str_join (lit " ") args).
Proof.
  intros Hsplit Hlower Hargs.
  rewrite run_interactive_turn. unfold turn at 1.
  unfold cbind at 1. rewrite lift_print by reflexivity. unfold input at 1.
  rewrite Hsplit. cbv zeta. rewrite Hlower.
  change (is_cmd (lit "add") [lit "list"]) with false.
  change (is_cmd (lit "add") [lit "add"]) with true. cbv iota.
  destruct args as [|a args]; [done|].
  unfold cbind.
  match goal with |- context [lift (add_task tasks ?x) ?cc] =>
    destruct (lift_add_task tasks x cc) as (c' & E & Hf) end.
  rewrite E. exists c'. split; [done|]. split; [done|].
  apply words_joined_one_line; [done|].
  pose proof (split_from_words (strip l) [] ltac:(constructor)) as Hw.
  fold (split (strip l)) in Hw. rewrite Hsplit in Hw.
  by apply Forall_cons in Hw as [_ Hw].
Qed.

Lemma add_inline_witness :
  exists c',
    run_interactive ascii_only
      [] [lit " ADD  buy   milk "; lit "exit"] (mkConsole None [])
    = run_interactive ascii_only
        ([] ++ [mkTask (str_join (lit " ") [lit "buy"; lit "milk"]) false])
        [lit "exit"] c'
    /\ cfile c'
       = Some (dumps_tasks ([] ++ [mkTask (str_join (lit " ") [lit "buy"; lit "milk"]) false]))
    /\ one_line (str_join (lit " ") [lit "buy"; lit "milk"]).
Proof.
  apply (add_inline _ [] (lit " ADD  buy   milk ") [lit "exit"] (mkConsole None []) (lit "ADD"));
    [reflexivity|reflexivity|discriminate].
Defined.

(** ** [main] *)

Lemma cbind_ok {A B} (m : C A) (k : A -> C B) c a c' :
  m c = (inr a, c') -> cbind m k c = k a c'.
Proof. intros H. unfold cbind. by rewrite H. Qed.

Lemma cbind_fail {A B} (m : C A) (k : A -> C B) c e c' :
  m c = (inl e, c') -> cbind m k c = (inl e, c').
Proof. intros H. unfold cbind. by rewrite H. Qed.

Lemma lift_load_none c : cfile c = None -> lift load_tasks c = (inr (PList []), c).
Proof.
  destruct c as [f l]. simpl. intros ->.
  unfold lift, load_tasks, bind, path_exists. simpl. by rewrite app_nil_r.
Qed.

Lemma lift_load_some c content :
  cfile c = Some content ->
  lift load_tasks c =
    (match loads content with
     | POk v => inr v
     | PErr msg => inl (Raised (JSONDecodeError msg))
     | PFuel => inl (Raised RecursionError)
     end, c).
Proof.
  destruct c as [f l]. simpl. intros ->. unfold lift.
  rewrite (load_tasks_reads content) by done.
  destruct (loads content); simpl; by rewrite app_nil_r.
Qed.

Lemma task_of_value_task t : task_of_value (task_value t) = Some t.
Proof. by destruct t. Qed.

Lemma tasks_of_value_tasks ts : tasks_of_value (tasks_value ts) = Some ts.
Proof.
  unfold tasks_of_value, tasks_value.
  induction ts as [|t ts IH]; [done|].
  rewrite fmap_cons. cbn [mapM]. rewrite task_of_value_task. simpl. by rewrite IH.
Qed.

Lemma as_tasks_tasks ts c : as_tasks (tasks_value ts) c = (inr ts, c).
Proof. unfold as_tasks. by rewrite tasks_of_value_tasks. Qed.

Lemma read_back_tasks_valid saved :
  valid_tasks saved -> valid_tasks (read_back_task <$> saved).
Proof.
  intros H. apply Forall_fmap. eapply Forall_impl; [exact H|].
  intros t Ht. simpl. by apply read_back_valid.
Qed.

Lemma found_in_valid f tasks : found_in f tasks -> valid_tasks tasks.
Proof.
  intros [[_ ->]|(saved & Hv & _ & ->)]; [constructor|by apply read_back_tasks_valid].
Qed.

Lemma program_store_found f : program_store f -> exists tasks, found_in f tasks.
Proof.
  intros [->|(saved & Hv & ->)].
  - exists []. by left.
  - eexists. right. by exists saved.
Qed.

(** On a store of the program, [load_tasks] gives the list found there. *)
Lemma lift_load_found c tasks :
  found_in (cfile c) tasks -> lift load_tasks c = (inr (tasks_value tasks), c).
Proof.
  intros [[Hf ->]|(saved & Hv & Hf & ->)].
  - by apply lift_load_none.
  - rewrite (lift_load_some c _ Hf). by rewrite loads_dumps_any.
Qed.

Lemma lift_result {A} (m : M A) c a w' :
  m (mkWorld (cfile c) []) = (inr a, w') ->
  lift m c = (inr a, mkConsole (file w') (clog c ++ (Engine <$> trace w'))).
Proof. intros H. unfold lift. by rewrite H. Qed.

(** *** The commands keep the store *)

Lemma program_store_dumps tasks : valid_tasks tasks -> program_store (Some (dumps_tasks tasks)).
Proof. intros H. right. by exists tasks. Qed.

Lemma add_task_keeps tasks d :
  valid_tasks tasks -> valid_str d -> keeps_store (add_task tasks d).
Proof.
  intros Hv Hd w _. eexists _, _. split; [apply add_task_appends|].
  assert (valid_tasks (tasks ++ [mkTask d false])).
  { apply Forall_app. split; [done|]. by repeat constructor. }
  split; [by apply program_store_dumps|done].
Qed.

Lemma complete_task_keeps tasks idx :
  valid_tasks tasks -> keeps_store (complete_task tasks idx).
Proof.
  intros Hv w Hw.
  destruct (norm_index (length tasks) (idx - 1)) as [n|] eqn:E.
  - eexists _, _. split; [by apply complete_task_at|].
    assert (valid_tasks (alter (set_done true) n tasks)).
    { unfold valid_tasks. apply Forall_alter; [done|]. by intros t _ Ht. }
    split; [by apply program_store_dumps|done].
  - eexists _, _. split; [by apply complete_task_refused|]. by split.
Qed.

Lemma remove_task_keeps tasks idx :
  valid_tasks tasks -> keeps_store (remove_task tasks idx).
Proof.
  intros Hv w Hw.
  destruct (norm_index (length tasks) (idx - 1)) as [n|] eqn:E.
  - pose proof (norm_index_lt _ _ _ E) as Hn.
    destruct (lookup_lt_is_Some_2 tasks n Hn) as [t Ht].
    eexists _, _. split; [by eapply remove_task_at|].
    assert (valid_tasks (delete n tasks)).
    { unfold valid_tasks. by apply Forall_delete. }
    split; [by apply program_store_dumps|done].
  - destruct (fits_ssize_t (idx - 1)) eqn:Hfit.
    + eexists _, _. split; [by apply remove_task_refused|]. by split.
    + eexists _, _. split; [by apply remove_task_overflow|]. by split.
Qed.

Lemma splitlines_from_all (P : N -> Prop) (n : nat) :
  forall s cur,
    (length s <= n)%nat -> Forall P cur -> Forall P s ->
    Forall (Forall P) (splitlines_from cur s).
Proof.
  induction n as [|n IH]; intros s cur Hn Hcur Hs.
  - destruct s; [|simpl in Hn; lia]. simpl. destruct cur; [constructor|].
    constructor; [by apply Forall_rev|constructor].
  - destruct s as [|c s].
    + simpl. destruct cur; [constructor|].
      constructor; [by apply Forall_rev|constructor].
    + simpl in Hn. apply Forall_cons in Hs as [Hc Hs].
      cbn [splitlines_from]. destruct (islinebreak c).
      * destruct s as [|d s'].
        -- constructor; [by apply Forall_rev|constructor].
        -- simpl in Hn. pose proof Hs as Hs'. apply Forall_cons in Hs' as [_ Hs'].
           destruct ((c =? 13)%N && (d =? 10)%N);
             (constructor; [by apply Forall_rev|]);
             (apply IH; [simpl; lia|constructor|done]).
      * apply IH; [lia|by constructor|done].
Qed.

Lemma strip_all (P : N -> Prop) (s : str) : Forall P s -> Forall P (strip s).
Proof.
  intros H. unfold strip.
  destruct (lstrip_split s) as (p & E & _).
  destruct (rstrip_split (lstrip s)) as (q & E' & _).
  rewrite E in H. apply Forall_app in H as [_ H].
  rewrite E' in H. by apply Forall_app in H as [H _].
Qed.

Lemma save_text_keeps content tasks :
  valid_str content ->
  exists tasks',
    valid_tasks tasks'
    /\ forall w, save_text content tasks w
                 = (inr tasks', mkWorld (Some (dumps_tasks tasks'))
                                  (trace w ++ [Wrote (dumps_tasks tasks')])).
Proof.
  intros Hv. eexists. split; [|reflexivity].
  apply Forall_fmap, Forall_forall. intros l Hl. simpl.
  apply list_elem_of_In, filter_In in Hl as [Hin _].
  pose proof (splitlines_from_all (fun c => (c < max_codepoint)%N)
                (length (strip content)) (strip content) []
                ltac:(done) ltac:(constructor) ltac:(by apply strip_all)) as Hall.
  rewrite Forall_forall in Hall. apply Hall. by apply list_elem_of_In.
Qed.

Lemma run_gui_keeps releases :
  forall tasks,
    valid_tasks tasks -> Forall valid_str releases -> keeps_store (run_gui tasks releases).
Proof.
  induction releases as [|content rest IH]; intros tasks Hv Hr w Hw.
  - by eexists _, _.
  - apply Forall_cons in Hr as [Hc Hr]. cbn [run_gui]. unfold bind.
    destruct (save_text_keeps content tasks Hc) as (t1 & Hv1 & E1).
    rewrite E1. apply IH; [done|done|]. by apply program_store_dumps.
Qed.

Lemma command_keeps (m : M (list Task)) c :
  keeps_store m -> program_store (cfile c) ->
  exists r c',
    cbind (lift m) (fun _ => cret tt) c = (r, c')
    /\ program_store (cfile c') /\ main_result r.
Proof.
  intros Hm Hc. destruct (Hm (mkWorld (cfile c) []) Hc) as (r & w' & E & Hw' & Hr).
  unfold cbind, lift. rewrite E. destruct r as [e|tasks'].
  - eexists _, _. split; [reflexivity|]. split; [done|]. subst e. right. right. by left.
  - eexists _, _. split; [reflexivity|]. split; [done|]. by left.
Qed.

Section main_facts.
Context (py : Runtime).

Lemma numbered_keeps (op : list Task -> Z -> M (list Task)) a tasks c :
  (forall idx, keeps_store (op tasks idx)) -> program_store (cfile c) ->
  exists r c',
    cbind (to_int py a)
      (fun idx => cbind (as_tasks (tasks_value tasks))
         (fun tasks => cbind (lift (op tasks idx)) (fun _ => cret tt))) c = (r, c')
    /\ program_store (cfile c') /\ main_result r.
Proof.
  intros Hop Hc. unfold to_int. destruct (int py a) as [idx|].
  - unfold cbind at 1, cret at 1.
    rewrite (cbind_ok _ _ _ _ _ (as_tasks_tasks tasks c)).
    by apply command_keeps.
  - eexists _, _. split; [reflexivity|]. split; [done|]. right. by left.
Qed.

End main_facts.

(** On a store that the program left (no file, or the encoding of a list)
    [main] leaves such a store, whatever the command line and the key
    releases and however the run ends: no run leaves a file that the next
    run cannot load.  The run ends normally, or with the [ValueError] of
    [int], the [OverflowError] of [tasks.pop] or the [UnicodeEncodeError]
    of [print]; [load_tasks] does not fail. *)
Theorem main_keeps_store (py : Runtime) (argv releases : list str) (c : Console) :
  program_store (cfile c) -> Forall valid_str argv -> Forall valid_str releases ->
  exists r c',
    main py argv releases c = (r, c')
    /\ program_store (cfile c')
    /\ (r = inr tt \/ r = inl ValueError \/ r = inl (Raised OverflowError)
        \/ r = inl (Raised UnicodeEncodeError)).
Proof.
  intros Hc Hargv Hrel.
  destruct (program_store_found _ Hc) as [tasks Hfound].
  pose proof (found_in_valid _ _ Hfound) as Hv.
  unfold main. rewrite (cbind_ok _ _ _ _ _ (lift_load_found c tasks Hfound)).
  destruct (length argv =? 1)%nat.
  { rewrite (cbind_ok _ _ _ _ _ (as_tasks_tasks tasks c)).
    by apply command_keeps; [apply run_gui_keeps|]. }
  destruct ((length argv <? 2)%nat || is_cmd (argv_at argv 1) [lit "help"]).
  { eexists _, _. split; [reflexivity|]. split; [done|by left]. }
  cbv zeta.
  destruct (is_cmd (argv_at argv 1) [lit "list"]).
  { rewrite (cbind_ok _ _ _ _ _ (as_tasks_tasks tasks c)).
    destruct (lift_list_tasks tasks c) as (r & c' & ls & E & Hf & _ & Hr).
    eexists _, _. split; [exact E|]. split; [by rewrite Hf|].
    destruct Hr as [-> | ->]; [by left|by do 3 right]. }
  destruct (is_cmd (argv_at argv 1) [lit "add"] && (3 <=? length argv)%nat).
  { rewrite (cbind_ok _ _ _ _ _ (as_tasks_tasks tasks c)).
    assert (Hd : valid_str (str_join (lit " ") (drop 2 argv))).
    { apply str_join_all; [by repeat constructor|by apply Forall_drop]. }
    by apply command_keeps; [apply add_task_keeps|]. }
  destruct (is_cmd (argv_at argv 1) [lit "done"; lit "complete"] && (length argv =? 3)%nat).
  { apply (numbered_keeps py complete_task); [|done]. intros idx. by apply complete_task_keeps. }
  destruct (is_cmd (argv_at argv 1) [lit "rm"; lit "remove"] && (length argv =? 3)%nat).
  { apply (numbered_keeps py remove_task); [|done]. intros idx. by apply remove_task_keeps. }
  eexists _, _. split; [reflexivity|]. split; [done|by left].
Qed.

Lemma main_keeps_store_witness :
  exists r c',
    main ascii_only [lit "todo.py"; lit "rm"; lit "9223372036854775809"] []
      (mkConsole (Some (dumps_tasks [mkTask (lit "a") false])) []) = (r, c')
    /\ program_store (cfile c')
    /\ (r = inr tt \/ r = inl ValueError \/ r = inl (Raised OverflowError)
        \/ r = inl (Raised UnicodeEncodeError)).
Proof.
  apply main_keeps_store.
  - right. exists [mkTask (lit "a") false]. split; [|reflexivity].
    repeat first [apply Forall_nil_2 | apply Forall_cons_2 | reflexivity].
  - repeat first [apply Forall_nil_2 | apply Forall_cons_2 | reflexivity].
  - apply Forall_nil_2.
Defined.


Lemma only_lines_refl c : only_lines c c.
Proof. split; [done|]. exists []. by rewrite app_nil_r. Qed.

Lemma only_lines_print l c : only_lines c (lift (print l) c).2.
Proof.
  destruct (lift_print_any l c) as [-> | (c' & -> & Hf & Hl)].
  - split; [done|]. by exists [l].
  - split; [done|]. exists []. simpl. by rewrite app_nil_r.
Qed.

Lemma only_lines_trans c1 c2 c3 : only_lines c1 c2 -> only_lines c2 c3 -> only_lines c1 c3.
Proof.
  intros [F1 [l1 L1]] [F2 [l2 L2]]. split; [congruence|].
  exists (l1 ++ l2). by rewrite L2, L1, fmap_app, app_assoc.
Qed.

Lemma only_lines_list_tasks tasks c : only_lines c (lift (list_tasks tasks) c).2.
Proof.
  destruct (lift_list_tasks tasks c) as (r & c' & ls & -> & Hf & Hl & _).
  split; [done|]. by exists ls.
Qed.

Section commands.
Context (py : Runtime).

Lemma main_load_fails argv releases c e :
  lift load_tasks c = (inl e, c) -> main py argv releases c = (inl e, c).
Proof. intros H. unfold main. by rewrite (cbind_fail _ _ _ _ _ H). Qed.

Lemma is_cmd_cases cmd names :
  is_cmd cmd names = true -> cmd ∈ names.
Proof.
  unfold is_cmd. intros (n & Hn & E)%existsb_exists.
  apply bool_decide_eq_true in E as ->. by apply list_elem_of_In.
Qed.

Lemma is_cmd_not cmd names : cmd ∉ names -> is_cmd cmd names = false.
Proof.
  intros H. destruct (is_cmd cmd names) eqn:E; [|done]. by apply is_cmd_cases in E.
Qed.

Lemma is_cmd_in cmd names : cmd ∈ names -> is_cmd cmd names = true.
Proof.
  intros H. unfold is_cmd. apply existsb_exists. exists cmd.
  split; [by apply list_elem_of_In|by apply bool_decide_eq_true].
Qed.

End commands.

Section dispatch.
Context (py : Runtime).

Lemma lift_load_console c : (lift load_tasks c).2 = c.
Proof.
  destruct (cfile c) as [content|] eqn:E.
  - by rewrite (lift_load_some c content E).
  - by rewrite (lift_load_none c E).
Qed.

Lemma main_after_load argv releases c :
  (exists e, main py argv releases c = (inl e, c))
  \/ exists loaded,
       lift load_tasks c = (inr loaded, c)
       /\ main py argv releases c =
            (if (length argv =? 1)%nat then
               cbind (as_tasks loaded)
                 (fun tasks => cbind (lift (run_gui tasks releases)) (fun _ => cret tt))
             else if (length argv <? 2)%nat || is_cmd (argv_at argv 1) [lit "help"] then
               lift print_help
             else
               let cmd := argv_at argv 1 in
               if is_cmd cmd [lit "list"] then
                 cbind (as_tasks loaded) (fun tasks => lift (list_tasks tasks))
               else if is_cmd cmd [lit "add"] && (3 <=? length argv)%nat then
                 cbind (as_tasks loaded)
                   (fun tasks =>
                      cbind (lift (add_task tasks (str_join (lit " ") (drop 2 argv))))
                        (fun _ => cret tt))
               else if is_cmd cmd [lit "done"; lit "complete"] && (length argv =? 3)%nat then
                 cbind (to_int py (argv_at argv 2))
                   (fun idx => cbind (as_tasks loaded)
                      (fun tasks => cbind (lift (complete_task tasks idx)) (fun _ => cret tt)))
               else if is_cmd cmd [lit "rm"; lit "remove"] && (length argv =? 3)%nat then
                 cbind (to_int py (argv_at argv 2))
                   (fun idx => cbind (as_tasks loaded)
                      (fun tasks => cbind (lift (remove_task tasks idx)) (fun _ => cret tt)))
               else
                 cbind (lift (print [Text (lit "Unknown command: "); Repr cmd]))
                   (fun _ => lift print_help)) c.
Proof.
  pose proof (lift_load_console c) as Hc.
  destruct (lift load_tasks c) as [[e|loaded] c0] eqn:E; simpl in Hc; subst c0.
  - left. exists e. by apply main_load_fails.
  - right. exists loaded. split; [done|]. unfold main. by rewrite (cbind_ok _ _ _ _ _ E).
Qed.

End dispatch.

(** Whatever the command line, even [help]: on a file that is no JSON text
    [main] ends with the exception of [load_tasks], having printed and
    written nothing.  Which exception it is, is not stated: [json.load]
    raises [JSONDecodeError] on most such files, and the errors of its own
    limits on others. *)
Theorem main_corrupt_store (py : Runtime) (argv releases : list str) (c : Console)
    (content : str) :
  cfile c = Some content -> ~ json_text true content ->
  exists e, main py argv releases c = (inl (Raised e), c).
Proof.
  intros Hf Hbad. pose proof (loads_res content) as Hres.
  pose proof (lift_load_some c content Hf) as Hload.
  destruct (loads content) as [v|msg|]; [done| |done].
  exists (JSONDecodeError msg). by apply main_load_fails.
Qed.

Lemma main_corrupt_store_witness :
  exists e,
    main ascii_only
      [lit "todo.py"; lit "help"] [] (mkConsole (Some []) [])
    = (inl (Raised e), mkConsole (Some []) []).
Proof.
  apply (main_corrupt_store _ _ _ _ []); [reflexivity|].
  intros (w1 & v & w2 & _ & Hv & _ & E). apply value_nonempty in Hv.
  destruct w1, v; done.
Defined.



Lemma only_lines_as_tasks {A} loaded (k : list Task -> C A) c :
  (forall tasks, only_lines c (k tasks c).2) ->
  only_lines c (cbind (as_tasks loaded) k c).2.
Proof.
  intros Hk. unfold cbind, as_tasks.
  destruct (tasks_of_value loaded) as [tasks|]; [apply Hk|apply only_lines_refl].
Qed.

Lemma is_cmd_app cmd names1 names2 :
  is_cmd cmd (names1 ++ names2) = is_cmd cmd names1 || is_cmd cmd names2.
Proof. unfold is_cmd. apply existsb_app. Qed.

(** Without a command, with [help], [list] or a word that is no command,
    and in the window when no key is released, [main] writes nothing: the
    file is as it was and lines were printed, nothing else.  This holds on
    every store, and whether or not the run ends normally. *)
Theorem main_read_only (py : Runtime) (argv releases : list str) (c : Console) :
  is_cmd (argv_at argv 1)
    [lit "add"; lit "done"; lit "complete"; lit "rm"; lit "remove"] = false ->
  (length argv = 1%nat -> releases = []) ->
  only_lines c (main py argv releases c).2.
Proof.
  intros Hcmd Hgui.
  change [lit "add"; lit "done"; lit "complete"; lit "rm"; lit "remove"]
    with ([lit "add"] ++ [lit "done"; lit "complete"] ++ [lit "rm"; lit "remove"]) in Hcmd.
  rewrite !is_cmd_app in Hcmd.
  apply orb_false_iff in Hcmd as [Hadd Hcmd]. apply orb_false_iff in Hcmd as [Hdone Hrm].
  destruct (main_after_load py argv releases c) as [[e ->]|(loaded & _ & ->)];
    [apply only_lines_refl|].
  destruct (Nat.eqb_spec (length argv) 1) as [H1|_].
  { rewrite (Hgui H1). apply only_lines_as_tasks. intros tasks.
    split; [done|]. exists []. reflexivity. }
  destruct ((length argv <? 2)%nat || is_cmd (argv_at argv 1) [lit "help"]).
  { apply only_lines_print. }
  cbv zeta. rewrite Hadd, Hdone, Hrm. cbn [andb].
  destruct (is_cmd (argv_at argv 1) [lit "list"]).
  { apply only_lines_as_tasks. intros tasks. apply only_lines_list_tasks. }
  rewrite (cbind_ok _ _ _ _ _
             (lift_print [Text (lit "Unknown command: "); Repr (argv_at argv 1)] c eq_refl)).
  eapply only_lines_trans; [|apply only_lines_print].
  split; [done|]. by eexists [_].
Qed.

Lemma main_read_only_witness :
  only_lines (mkConsole (Some (lit "[]")) [])
    (main ascii_only
       [lit "todo.py"; lit "list"] [] (mkConsole (Some (lit "[]")) [])).2.
Proof. apply main_read_only; [reflexivity|discriminate]. Defined.

Lemma main_add_on (py : Runtime) prog args releases c tasks :
  found_in (cfile c) tasks -> args <> [] ->
  main py (prog :: lit "add" :: args) releases c
  = cbind (lift (add_task tasks (str_join (lit " ") args))) (fun _ => cret tt) c.
Proof.
  intros Hfound Hargs. destruct args as [|a args]; [done|].
  unfold main. rewrite (cbind_ok _ _ _ _ _ (lift_load_found c tasks Hfound)).
  cbn [length Nat.eqb Nat.ltb Nat.leb orb drop].
  change (argv_at (prog :: lit "add" :: a :: args) 1) with (lit "add").
  change (is_cmd (lit "add") [lit "help"]) with false.
  change (is_cmd (lit "add") [lit "list"]) with false.
  change (is_cmd (lit "add") [lit "add"]) with true.
  cbv iota zeta. cbn [andb]. by rewrite (cbind_ok _ _ _ _ _ (as_tasks_tasks tasks c)).
Qed.

Lemma main_list_on (py : Runtime) prog releases c tasks :
  found_in (cfile c) tasks ->
  main py [prog; lit "list"] releases c = lift (list_tasks tasks) c.
Proof.
  intros Hfound.
  unfold main. rewrite (cbind_ok _ _ _ _ _ (lift_load_found c tasks Hfound)).
  cbn [length Nat.eqb Nat.ltb Nat.leb orb].
  change (argv_at [prog; lit "list"] 1) with (lit "list").
  change (is_cmd (lit "list") [lit "help"]) with false.
  change (is_cmd (lit "list") [lit "list"]) with true.
  cbv iota zeta. by rewrite (cbind_ok _ _ _ _ _ (as_tasks_tasks tasks c)).
Qed.

Lemma lift_list_nonempty tasks c :
  tasks <> [] -> Forall (fun t => no_surrogate (desc t) = true) tasks ->
  lift (list_tasks tasks) c
  = (inr tt, mkConsole (cfile c) (clog c ++ (Engine <$> listing 1 tasks))).
Proof.
  intros H Hs. destruct tasks as [|t tasks]; [done|].
  unfold lift. change (list_tasks (t :: tasks)) with (print_tasks 1 (t :: tasks)).
  by rewrite print_tasks_trace.
Qed.

Lemma no_surrogate_all s :
  no_surrogate s = true <-> Forall (fun c => is_surrogate c = false) s.
Proof.
  unfold no_surrogate. rewrite forallb_forall, Forall_forall. split.
  - intros H x Hx. apply negb_true_iff, H. by apply list_elem_of_In.
  - intros H x Hx. apply negb_true_iff, H. by apply list_elem_of_In.
Qed.

Lemma no_surrogate_no_split s : no_surrogate s = true -> no_split_pair s = true.
Proof.
  induction s as [|a s IH]; [done|]. intros H.
  change (a :: s) with ([a] ++ s) in H. rewrite no_surrogate_app in H.
  apply andb_true_iff in H as [Ha Hs].
  destruct s as [|b r]; [done|].
  change (no_split_pair (a :: b :: r))
    with (negb (is_high a && is_low b) && no_split_pair (b :: r)).
  rewrite (IH Hs), andb_true_r.
  assert (is_high a = false) as ->; [|done].
  unfold no_surrogate in Ha. simpl in Ha. rewrite andb_true_r in Ha.
  apply negb_true_iff in Ha. unfold is_surrogate in Ha. unfold is_high.
  apply andb_false_iff in Ha as [Ha|Ha]; apply andb_false_iff; [left|right].
  - exact Ha.
  - apply N.leb_gt in Ha. apply N.leb_gt. lia.
Qed.

Lemma no_surrogate_join args :
  Forall (fun a => no_surrogate a = true) args ->
  no_surrogate (str_join (lit " ") args) = true.
Proof.
  intros H. apply no_surrogate_all, str_join_all.
  - by repeat constructor.
  - eapply Forall_impl; [exact H|]. intros a Ha. by apply no_surrogate_all.
Qed.

(** What one run of [main] adds, the next run lists: from a store that the
    program left and whose descriptions hold no surrogate code point, [add]
    with words of which none holds one ends normally, and [list] run after
    it prints the list that was found with the new task at its end, the
    words joined by single spaces. *)
Theorem main_add_then_list (py : Runtime) (prog prog' : str)
    (args releases releases' : list str) (c : Console) (tasks : list Task) :
  found_in (cfile c) tasks -> args <> [] -> Forall valid_str args ->
  Forall (fun a => no_surrogate a = true) args ->
  Forall (fun t => no_surrogate (desc t) = true) tasks ->
  exists c1,
    main py (prog :: lit "add" :: args) releases c = (inr tt, c1)
    /\ found_in (cfile c1) (tasks ++ [mkTask (str_join (lit " ") args) false])
    /\ main py [prog'; lit "list"] releases' c1 =
         (inr tt,
          mkConsole (cfile c1)
            (clog c1
             ++ (Engine <$> listing 1
                   (tasks ++ [mkTask (str_join (lit " ") args) false])))).
Proof.
  intros Hfound Hargs Hv Hns Hnt.
  pose proof (found_in_valid _ _ Hfound) as Htasks.
  set (d := str_join (lit " ") args).
  assert (Hd : valid_str d) by (apply str_join_all; [by repeat constructor|done]).
  assert (Hds : no_surrogate d = true) by by apply no_surrogate_join.
  assert (Hall : valid_tasks (tasks ++ [mkTask d false])).
  { apply Forall_app. split; [done|]. by repeat constructor. }
  assert (Hback : read_back_task <$> (tasks ++ [mkTask d false])
                  = tasks ++ [mkTask d false]).
  { rewrite fmap_app. f_equal.
    - rewrite <- (list_fmap_id tasks) at 2. apply list_fmap_ext. intros i t Ht.
      rewrite Forall_forall in Hnt. apply list_elem_of_lookup_2 in Ht.
      apply Hnt in Ht. destruct t as [dt bt]. unfold read_back_task. simpl in *.
      f_equal. by apply read_back_id, no_surrogate_no_split.
    - unfold read_back_task. simpl. do 2 f_equal.
      by apply read_back_id, no_surrogate_no_split. }
  eexists. split; [|split].
  - rewrite (main_add_on py prog args releases c tasks Hfound Hargs). fold d.
    erewrite cbind_ok; [reflexivity|].
    apply lift_saved. intros w. apply add_task_appends.
  - right. exists (tasks ++ [mkTask d false]). by rewrite Hback.
  - rewrite (main_list_on py prog' releases' _ (tasks ++ [mkTask d false])).
    2:{ right. exists (tasks ++ [mkTask d false]). by rewrite Hback. }
    apply lift_list_nonempty; [by destruct tasks|].
    apply Forall_app. split; [done|]. by repeat constructor.
Qed.

Lemma main_add_then_list_witness :
  exists c1,
    main ascii_only
      [lit "todo.py"; lit "add"; lit "buy"; lit "milk"] [] (mkConsole None [])
    = (inr tt, c1)
    /\ found_in (cfile c1) ([] ++ [mkTask (str_join (lit " ") [lit "buy"; lit "milk"]) false])
    /\ main ascii_only
         [lit "todo.py"; lit "list"] [] c1 =
         (inr tt,
          mkConsole (cfile c1)
            (clog c1
             ++ (Engine <$> listing 1
                   ([] ++ [mkTask (str_join (lit " ") [lit "buy"; lit "milk"]) false])))).
Proof.
  apply (main_add_then_list _ _ _ _ _ _ (mkConsole None []) []).
  - by left.
  - discriminate.
  - repeat constructor.
  - repeat constructor.
  - constructor.
Defined.

Lemma engine_only_refl c : engine_only c c.
Proof. exists []. by rewrite app_nil_r. Qed.

Lemma engine_only_trans c1 c2 c3 :
  engine_only c1 c2 -> engine_only c2 c3 -> engine_only c1 c3.
Proof.
  intros [e1 E1] [e2 E2]. exists (e1 ++ e2). by rewrite E2, E1, fmap_app, app_assoc.
Qed.

Lemma engine_only_lift {A} (m : M A) c : engine_only c (lift m c).2.
Proof.
  unfold lift. destruct (m (mkWorld (cfile c) [])) as [r w]. by exists (trace w).
Qed.

Lemma engine_only_cbind {A B} (m : C A) (k : A -> C B) c :
  engine_only c (m c).2 -> (forall a c1, engine_only c1 (k a c1).2) ->
  engine_only c (cbind m k c).2.
Proof.
  intros Hm Hk. unfold cbind. destruct (m c) as [[e|a] c1]; [done|].
  eapply engine_only_trans; [exact Hm|apply Hk].
Qed.

Lemma engine_only_as_tasks loaded c : engine_only c (as_tasks loaded c).2.
Proof. unfold as_tasks. destruct (tasks_of_value loaded); apply engine_only_refl. Qed.

Lemma engine_only_to_int py a c : engine_only c (to_int py a c).2.
Proof. unfold to_int. destruct (int py a); apply engine_only_refl. Qed.

(** No run of [main] reads standard input: whatever the command line, the
    store and the key releases, what [main] adds to the terminal are lines
    and writes of the command engine, never a prompt of [input].  The
    session of [run_interactive] is started by no command. *)
Theorem main_never_prompts (py : Runtime) (argv releases : list str) (c : Console) :
  exists evs, clog (main py argv releases c).2 = clog c ++ (Engine <$> evs).
Proof.
  change (engine_only c (main py argv releases c).2). unfold main.
  apply engine_only_cbind; [apply engine_only_lift|]. intros loaded c1.
  repeat first
    [ apply engine_only_lift
    | apply engine_only_refl
    | apply engine_only_as_tasks
    | apply engine_only_to_int
    | apply engine_only_cbind; [|intros ? ?]
    | match goal with |- engine_only _ ((if ?b then _ else _) _).2 => destruct b end
    | progress cbv zeta ].
Qed.

(** [done], [complete], [rm] and [remove] with a number that [int] takes,
    on a store that the program left: [main] runs [complete_task] or
    [remove_task] with that number on the list that [load_tasks] returned
    and ends as that call ends, with nothing printed or written besides.
    So what holds of the two commands holds of these runs of [main]; and
    [rm] with a number that is out of range and too far for a machine word
    ends with the [OverflowError] of [tasks.pop], nothing printed, nothing
    written. *)
Theorem main_numbered (py : Runtime) (prog cmd a : str) (releases : list str)
    (c : Console) (tasks : list Task) (idx : Z) :
  found_in (cfile c) tasks -> int py a = Some idx ->
  (cmd ∈ [lit "done"; lit "complete"] ->
   main py [prog; cmd; a] releases c
   = cbind (lift (complete_task tasks idx)) (fun _ => cret tt) c)
  /\ (cmd ∈ [lit "rm"; lit "remove"] ->
      main py [prog; cmd; a] releases c
      = cbind (lift (remove_task tasks idx)) (fun _ => cret tt) c)
  /\ (cmd ∈ [lit "rm"; lit "remove"] ->
      (idx <= - Z.of_nat (length tasks) \/ Z.of_nat (length tasks) < idx)%Z ->
      ~ (PY_SSIZE_T_MIN <= idx - 1 <= PY_SSIZE_T_MAX)%Z ->
      main py [prog; cmd; a] releases c = (inl (Raised OverflowError), c)).
Proof.
  intros Hfound Hint.
  assert (Hdone : cmd ∈ [lit "done"; lit "complete"] ->
                  main py [prog; cmd; a] releases c
                  = cbind (lift (complete_task tasks idx)) (fun _ => cret tt) c).
  { intros Hcmd.
    repeat (apply elem_of_cons in Hcmd as [->|Hcmd]); try (by apply elem_of_nil in Hcmd);
    unfold main; rewrite (cbind_ok _ _ _ _ _ (lift_load_found c tasks Hfound));
    cbn [length Nat.eqb Nat.ltb Nat.leb orb argv_at nth];
    repeat match goal with
           | |- context [is_cmd (lit ?s) ?l] =>
               let b := eval vm_compute in (is_cmd (lit s) l) in
               change (is_cmd (lit s) l) with b
           end;
    cbv iota zeta; cbn [andb]; unfold to_int; rewrite Hint;
    unfold cbind at 1, cret at 1;
    by rewrite (cbind_ok _ _ _ _ _ (as_tasks_tasks tasks c)). }
  assert (Hrm : cmd ∈ [lit "rm"; lit "remove"] ->
                main py [prog; cmd; a] releases c
                = cbind (lift (remove_task tasks idx)) (fun _ => cret tt) c).
  { intros Hcmd.
    repeat (apply elem_of_cons in Hcmd as [->|Hcmd]); try (by apply elem_of_nil in Hcmd);
    unfold main; rewrite (cbind_ok _ _ _ _ _ (lift_load_found c tasks Hfound));
    cbn [length Nat.eqb Nat.ltb Nat.leb orb argv_at nth];
    repeat match goal with
           | |- context [is_cmd (lit ?s) ?l] =>
               let b := eval vm_compute in (is_cmd (lit s) l) in
               change (is_cmd (lit s) l) with b
           end;
    cbv iota zeta; cbn [andb]; unfold to_int; rewrite Hint;
    unfold cbind at 1, cret at 1;
    by rewrite (cbind_ok _ _ _ _ _ (as_tasks_tasks tasks c)). }
  split; [exact Hdone|]. split; [exact Hrm|].
  intros Hcmd Hout Hfar. rewrite (Hrm Hcmd).
  assert (Hfit : fits_ssize_t (idx - 1)%Z = false).
  { destruct (fits_ssize_t (idx - 1)%Z) eqn:E; [|done]. exfalso. apply Hfar.
    unfold fits_ssize_t in E. apply andb_true_iff in E as [E1 E2].
    apply Z.leb_le in E1, E2. by split. }
  unfold cbind, lift.
  rewrite (remove_task_overflow tasks idx _ (norm_index_out_of_range _ _ Hout) Hfit).
  destruct c as [f l]. cbn [cfile clog file trace fmap list_fmap]. by rewrite app_nil_r.
Qed.

Lemma main_numbered_witness :
  main ascii_only [lit "todo.py"; lit "done"; lit "0"] [] (mkConsole None [])
  = cbind (lift (complete_task [] 0)) (fun _ => cret tt) (mkConsole None [])
  /\ main ascii_only [lit "todo.py"; lit "rm"; lit "9223372036854775809"] []
       (mkConsole None [])
     = cbind (lift (remove_task [] 9223372036854775809%Z)) (fun _ => cret tt)
         (mkConsole None [])
  /\ main ascii_only [lit "todo.py"; lit "rm"; lit "9223372036854775809"] []
       (mkConsole None [])
     = (inl (Raised OverflowError), mkConsole None []).
Proof.
  split; [|split].
  - apply (proj1 (main_numbered ascii_only (lit "todo.py") (lit "done") (lit "0") []
                    (mkConsole None []) [] 0%Z ltac:(by left) eq_refl)).
    apply list_elem_of_here.
  - apply (proj1 (proj2 (main_numbered ascii_only (lit "todo.py") (lit "rm")
                           (lit "9223372036854775809") []
                           (mkConsole None []) [] 9223372036854775809%Z
                           ltac:(by left) eq_refl))).
    apply list_elem_of_here.
  - apply (proj2 (proj2 (main_numbered ascii_only (lit "todo.py") (lit "rm")
                           (lit "9223372036854775809") []
                           (mkConsole None []) [] 9223372036854775809%Z
                           ltac:(by left) eq_refl))).
    + apply list_elem_of_here.
    + right. simpl. lia.
    + unfold PY_SSIZE_T_MIN, PY_SSIZE_T_MAX. lia.
Defined.
